(** * MultiModeDmarcClient: the multi-mode domain-security check engine

    A shallow embedding of [js/services/multi-mode-dmarc-client.js]:
    the domain validator, the DMARC / SPF / DKIM record analyses, the
    scorer, the mode strategies, the result cache and the batch scan
    orchestrator, followed by the properties proved about them.

    Conventions of the embedding.
    - A JavaScript string is a [string]; a character is a code unit below
      256, read as Latin-1 (DNS names and TXT data are ASCII in practice).
    - An [async] method is a computation in the monad [M]: it threads the
      client object and the outside world, and it either resolves with a
      value or rejects with the message of the thrown [Error].
    - An [await] inside one domain check is plain sequencing; the places
      where the worker pool of [checkDomains] can interleave are the
      steps of [worker_step], chosen by an arbitrary schedule.
    - Logging ([window.Logger], [console]) has no effect on any value the
      engine computes and is left out. *)

From Stdlib Require Import ZArith String Ascii List Lia Bool.
From stdpp Require Import gmap strings list.

Local Open Scope string_scope.
Local Open Scope list_scope.

(** ** JavaScript string primitives *)

Module JsString.

Definition code (c : ascii) : nat := nat_of_ascii c.

Definition between (lo hi : nat) (c : ascii) : bool :=
  (lo <=? code c)%nat && (code c <=? hi)%nat.

Definition is_lower (c : ascii) : bool := between 97 122 c.
Definition is_upper (c : ascii) : bool := between 65 90 c.
Definition is_digit (c : ascii) : bool := between 48 57 c.

(** White space and line terminators below 256: TAB, LF, VT, FF, CR,
    SPACE and NBSP.  This is the set of [\s] and of [trim]. *)
Definition is_space (c : ascii) : bool :=
  between 9 13 c || (code c =? 32)%nat || (code c =? 160)%nat.

(** [toLowerCase] on one code unit: A-Z, and the Latin-1 capitals
    U+00C0..U+00DE without the multiplication sign U+00D7.  Code units
    from 256 on are no part of the strings of the embedding; among them
    is the Kelvin sign U+212A, which [toLowerCase] turns into [k]. *)
Definition lower_char (c : ascii) : ascii :=
  if is_upper c || (between 192 222 c && negb (code c =? 215)%nat)
  then ascii_of_nat (code c + 32)
  else c.

Fixpoint toLowerCase (s : string) : string :=
  match s with
  | EmptyString => EmptyString
  | String c s' => String (lower_char c) (toLowerCase s')
  end.

Fixpoint trimStart (s : string) : string :=
  match s with
  | EmptyString => EmptyString
  | String c s' => if is_space c then trimStart s' else s
  end.

(** [trimEnd] keeps a character when it is not white space or when
    something survives after it. *)
Fixpoint trimEnd (s : string) : string :=
  match s with
  | EmptyString => EmptyString
  | String c s' =>
      match trimEnd s' with
      | EmptyString => if is_space c then EmptyString else String c EmptyString
      | t => String c t
      end
  end.

Definition trim (s : string) : string := trimEnd (trimStart s).

(** [s.startsWith(p)] *)
Definition startsWith (p s : string) : bool := String.prefix p s.

(** [s.includes(needle)] *)
Fixpoint includes (needle s : string) : bool :=
  if String.prefix needle s then true
  else match s with
       | EmptyString => false
       | String _ s' => includes needle s'
       end.

(** [s.substring(n)] *)
Fixpoint substring_from (n : nat) (s : string) : string :=
  match n, s with
  | O, _ => s
  | S n', String _ s' => substring_from n' s'
  | S _, EmptyString => EmptyString
  end.

(** The longest prefix of [s] made of characters of the class, and the
    rest: a greedy [[cls]*]. *)
Fixpoint span (cls : ascii -> bool) (s : string) : string * string :=
  match s with
  | EmptyString => (EmptyString, EmptyString)
  | String c s' =>
      if cls c then let (v, r) := span cls s' in (String c v, r)
      else (EmptyString, s)
  end.

(** Case folding of the [i] flag: without the [u] flag only the two
    cases of an ASCII letter are identified. *)
Definition fold_case (c : ascii) : ascii :=
  if is_upper c then ascii_of_nat (code c + 32) else c.

(** The literal [lit] matched at the head of [s] under the [i] flag;
    the result is what follows it. *)
Fixpoint strip_prefix_ci (lit s : string) : option string :=
  match lit, s with
  | EmptyString, _ => Some s
  | String a lit', String c s' =>
      if Ascii.eqb (fold_case a) (fold_case c)
      then strip_prefix_ci lit' s' else None
  | String _ _, EmptyString => None
  end.

(** The pattern [/lit([cls]+)/i] tried at the head of [s]: the literal,
    then the longest run of the class, which must not be empty. *)
Definition capture_here (lit : string) (cls : ascii -> bool) (s : string)
  : option string :=
  match strip_prefix_ci lit s with
  | Some rest =>
      match fst (span cls rest) with
      | EmptyString => None
      | v => Some v
      end
  | None => None
  end.

(** [s.match(/lit([cls]+)/i)]: the pattern is tried at each position from
    the left and the first success gives the captured group. [None] is
    JavaScript's [null]. *)
Fixpoint match_capture (lit : string) (cls : ascii -> bool) (s : string)
  : option string :=
  match capture_here lit cls s with
  | Some v => Some v
  | None =>
      match s with
      | EmptyString => None
      | String _ s' => match_capture lit cls s'
      end
  end.

Definition digit_value (c : ascii) : Z := (Z.of_nat (code c) - 48)%Z.

(** [parseInt] on a non-empty string of decimal digits.  JavaScript
    rounds a long number to a double; the rounding keeps the order, and
    100 is a double, so the test [parseInt(digits) < 100] is the one on
    the exact number. *)
Definition parseInt (digits : string) : Z :=
  fold_left (fun acc c => (10 * acc + digit_value c)%Z)
            (list_ascii_of_string digits) 0%Z.

End JsString.

Import JsString.

(** ** Regular expressions

    The part of JavaScript's regular expressions that [isValidDomain]
    uses: character classes, sequence, alternative and repetition.
    [RegExp.prototype.test] on a pattern anchored by [^] and [$] asks
    whether the whole input belongs to the language of the pattern. *)

Module Regex.

Inductive regex : Type :=
| Void
| Eps
| Cls (p : ascii -> bool)
| Cat (r1 r2 : regex)
| Alt (r1 r2 : regex)
| Star (r : regex).

(** [r?], [r+] and [r{0,n}] *)
Definition Opt (r : regex) : regex := Alt r Eps.
Definition Plus (r : regex) : regex := Cat r (Star r).
Fixpoint Upto (n : nat) (r : regex) : regex :=
  match n with
  | O => Eps
  | S n' => Alt (Cat r (Upto n' r)) Eps
  end.

(** The words of a pattern. *)
Fixpoint lang (r : regex) (w : list ascii) : Prop :=
  match r with
  | Void => False
  | Eps => w = []
  | Cls p => exists a, w = [a] /\ p a = true
  | Cat r1 r2 => exists w1 w2, w = w1 ++ w2 /\ lang r1 w1 /\ lang r2 w2
  | Alt r1 r2 => lang r1 w \/ lang r2 w
  | Star r1 => exists ws, w = concat ws /\ Forall (lang r1) ws
  end.

Fixpoint nullable (r : regex) : bool :=
  match r with
  | Void => false
  | Eps => true
  | Cls _ => false
  | Cat r1 r2 => nullable r1 && nullable r2
  | Alt r1 r2 => nullable r1 || nullable r2
  | Star _ => true
  end.

Definition cat' (r1 r2 : regex) : regex :=
  match r1 with
  | Void => Void
  | _ => Cat r1 r2
  end.

Definition alt' (r1 r2 : regex) : regex :=
  match r1, r2 with
  | Void, _ => r2
  | _, Void => r1
  | _, _ => Alt r1 r2
  end.

(** What is left of the pattern once the character [a] is read. *)
Fixpoint deriv (a : ascii) (r : regex) : regex :=
  match r with
  | Void => Void
  | Eps => Void
  | Cls p => if p a then Eps else Void
  | Cat r1 r2 =>
      if nullable r1
      then alt' (cat' (deriv a r1) r2) (deriv a r2)
      else cat' (deriv a r1) r2
  | Alt r1 r2 => alt' (deriv a r1) (deriv a r2)
  | Star r1 => cat' (deriv a r1) (Star r1)
  end.

Fixpoint matches (r : regex) (w : list ascii) : bool :=
  match w with
  | [] => nullable r
  | a :: w' => matches (deriv a r) w'
  end.

(** [/^r$/.test(s)] *)
Definition test (r : regex) (s : string) : bool :=
  matches r (list_ascii_of_string s).

End Regex.

(** ** Domain validator *)

(** [[a-z0-9]] and [[a-z0-9-]] under the [i] flag *)
Definition alnum (c : ascii) : bool := is_lower c || is_upper c || is_digit c.
Definition alnum_hyphen (c : ascii) : bool := alnum c || Ascii.eqb c "-".
Definition is_dot (c : ascii) : bool := Ascii.eqb c ".".

(** [[a-z0-9](?:[a-z0-9-]{0,61}[a-z0-9])?] *)
Definition labelRegex : Regex.regex :=
  Regex.Cat (Regex.Cls alnum)
    (Regex.Opt (Regex.Cat (Regex.Upto 61 (Regex.Cls alnum_hyphen))
                          (Regex.Cls alnum))).

(** [[a-z0-9][a-z0-9-]{0,61}[a-z0-9]] *)
Definition tldRegex : Regex.regex :=
  Regex.Cat (Regex.Cls alnum)
    (Regex.Cat (Regex.Upto 61 (Regex.Cls alnum_hyphen)) (Regex.Cls alnum)).

(** [/^(?:[a-z0-9](?:[a-z0-9-]{0,61}[a-z0-9])?\.)+[a-z0-9][a-z0-9-]{0,61}[a-z0-9]$/i] *)
Definition domainRegex : Regex.regex :=
  Regex.Cat (Regex.Plus (Regex.Cat labelRegex (Regex.Cls is_dot))) tldRegex.

Definition isValidDomain (domain : string) : bool :=
  Regex.test domainRegex domain.

(** ** Data model *)

(** The status strings ['ok'], ['warning'] and ['error']. *)
Inductive Status : Type := ok | warning | error.

(** [{status, record, policy}], with [error] set by the catch branch *)
Record DmarcResult : Type := mkDmarc {
  dmarc_status : Status;
  dmarc_record : string;
  dmarc_policy : string;
  dmarc_error : option string
}.

Record SpfResult : Type := mkSpf {
  spf_status : Status;
  spf_record : string;
  spf_error : option string
}.

Record DkimResult : Type := mkDkim {
  dkim_status : Status;
  dkim_selectors : list string;
  dkim_error : option string
}.

(** The result object of one domain check; [errorMessage] is its
    [error] property, absent on a regular result. *)
Record DomainCheckResult : Type := mkResult {
  domain : string;
  errorMessage : option string;
  dmarc : DmarcResult;
  spf : SpfResult;
  dkim : DkimResult;
  mx : list string;
  securityScore : Z
}.

(** The values a caller can hand to [checkDomain]. *)
Inductive JsValue : Type :=
| JsUndefined
| JsNull
| JsBoolean (b : bool)
| JsNumber (n : Z)
| JsStr (s : string)
| JsObject.

(** [!!v] *)
Definition truthy (v : JsValue) : bool :=
  match v with
  | JsUndefined | JsNull => false
  | JsBoolean b => b
  | JsNumber n => negb (n =? 0)%Z
  | JsStr s => negb (String.eqb s "")
  | JsObject => true
  end.

(** [typeof v === 'string'] *)
Definition is_string (v : JsValue) : bool :=
  match v with
  | JsStr _ => true
  | _ => false
  end.

Inductive RecordType : Type := MX | TXT | OtherType.

(** The outside world: the source of [Math.random()] (the [n]-th call
    returns [rnd n / 2^53]) and two observation counters that the source
    does not hold, the number of DNS lookups made and the number of mode
    strategy checks started. *)
Record World : Type := mkWorld {
  rnd : nat -> Z;
  drawn : nat;
  dnsCalls : nat;
  strategyCalls : nat
}.

(** The fields of a [MultiModeDmarcClient].  [activeScanTasks] is kept
    by its length. *)
Record Client : Type := mkClient {
  delay : Z;
  concurrentRequests : Z;
  apiKey : string;
  mode : string;
  isScanning : bool;
  shouldStop : bool;
  activeScanTasks : nat;
  cache : gmap string DomainCheckResult;
  cacheEnabled : bool
}.

Definition State : Type := Client * World.

(** ** Promises *)

Inductive Outcome (A : Type) : Type :=
| Resolved (a : A)
| Rejected (msg : string).
Arguments Resolved {A} a.
Arguments Rejected {A} msg.

Definition M (A : Type) : Type := State -> Outcome A * State.

Definition ret {A} (a : A) : M A := fun st => (Resolved a, st).

Definition bind {A B} (c : M A) (k : A -> M B) : M B :=
  fun st =>
    match c st with
    | (Resolved a, st') => k a st'
    | (Rejected msg, st') => (Rejected msg, st')
    end.

Definition throw {A} (msg : string) : M A := fun st => (Rejected msg, st).

(** [try { c } catch (error) { h error.message }] *)
Definition try_catch {A} (c : M A) (h : string -> M A) : M A :=
  fun st =>
    match c st with
    | (Resolved a, st') => (Resolved a, st')
    | (Rejected msg, st') => h msg st'
    end.

Definition get_client : M Client := fun st => (Resolved (fst st), st).

Definition modify_client (f : Client -> Client) : M unit :=
  fun st => (Resolved tt, (f (fst st), snd st)).

(** A computation on the world alone that cannot fail. *)
Definition lift_world {A} (f : World -> A * World) : M A :=
  fun st => let (a, w) := f (snd st) in (Resolved a, (fst st, w)).

Notation "'let*' x ':=' c 'in' k" := (bind c (fun x => k))
  (at level 10, x pattern, c at level 100, k at level 200).

(** ** Field updates *)

Definition set_mode (m : string) (c : Client) : Client :=
  mkClient (delay c) (concurrentRequests c) (apiKey c) m (isScanning c)
           (shouldStop c) (activeScanTasks c) (cache c) (cacheEnabled c).

Definition set_delay (d : Z) (c : Client) : Client :=
  mkClient d (concurrentRequests c) (apiKey c) (mode c) (isScanning c)
           (shouldStop c) (activeScanTasks c) (cache c) (cacheEnabled c).

Definition set_concurrentRequests (n : Z) (c : Client) : Client :=
  mkClient (delay c) n (apiKey c) (mode c) (isScanning c)
           (shouldStop c) (activeScanTasks c) (cache c) (cacheEnabled c).

Definition set_isScanning (b : bool) (c : Client) : Client :=
  mkClient (delay c) (concurrentRequests c) (apiKey c) (mode c) b
           (shouldStop c) (activeScanTasks c) (cache c) (cacheEnabled c).

Definition set_shouldStop (b : bool) (c : Client) : Client :=
  mkClient (delay c) (concurrentRequests c) (apiKey c) (mode c) (isScanning c)
           b (activeScanTasks c) (cache c) (cacheEnabled c).

Definition set_activeScanTasks (n : nat) (c : Client) : Client :=
  mkClient (delay c) (concurrentRequests c) (apiKey c) (mode c) (isScanning c)
           (shouldStop c) n (cache c) (cacheEnabled c).

Definition set_cache (m : gmap string DomainCheckResult) (c : Client) : Client :=
  mkClient (delay c) (concurrentRequests c) (apiKey c) (mode c) (isScanning c)
           (shouldStop c) (activeScanTasks c) m (cacheEnabled c).

Definition set_cacheEnabled (b : bool) (c : Client) : Client :=
  mkClient (delay c) (concurrentRequests c) (apiKey c) (mode c) (isScanning c)
           (shouldStop c) (activeScanTasks c) (cache c) b.

(** [new MultiModeDmarcClient({})] *)
Definition new_client : Client :=
  mkClient 1000 3 "" "simulation" false false 0 ∅ true.

(** ** Random numbers *)

Definition two53 : Z := 2 ^ 53.

(** [Math.random()], as the numerator of a fraction over [2^53]. *)
Definition Math_random (w : World) : Z * World :=
  ((rnd w (drawn w) mod two53)%Z,
   mkWorld (rnd w) (S (drawn w)) (dnsCalls w) (strategyCalls w)).

(** The double nearest to a natural number [x], as a number: [x] itself
    when it has at most 53 bits, and else the nearest multiple of
    [2^e], where [e] is the number of its bits beyond 53; of two
    multiples at the same distance, the even one. *)
Definition to_double (x : Z) : Z :=
  let e := (Z.log2 x - 52)%Z in
  if (e <=? 0)%Z then x
  else
    let q := (x / 2 ^ e)%Z in
    let r := (x mod 2 ^ e)%Z in
    let half := (2 ^ (e - 1))%Z in
    if (r <? half)%Z then (q * 2 ^ e)%Z
    else if (half <? r)%Z then ((q + 1) * 2 ^ e)%Z
    else if Z.even q then (q * 2 ^ e)%Z
    else ((q + 1) * 2 ^ e)%Z.

(** [Math.floor(Math.random() * n)]: the product of the doubles
    [k / 2^53] and [n] is the double nearest to [k * n / 2^53]. *)
Definition random_below (n : nat) (w : World) : nat * World :=
  let (k, w') := Math_random w in
  (Z.to_nat (to_double (k * Z.of_nat n) / two53), w').

(** [Math.random() > num / 2^54], for the thresholds [0.5] and [0.3]
    (whose double is [5404319552844595 / 2^54]). *)
Definition random_above (num : Z) (w : World) : bool * World :=
  let (k, w') := Math_random w in ((num <? 2 * k)%Z, w').

(** [arr[Math.floor(Math.random() * arr.length)]] *)
Definition randomItem {A} (dflt : A) (arr : list A) (w : World) : A * World :=
  let (i, w') := random_below (length arr) w in (nth i arr dflt, w').

(** ** The DNS lookup port *)

(** A lookup resolves with an array of records ([None] stands for a
    [null] or [undefined] answer) or rejects with an [Error], of which
    [Rejected] keeps the message.  A rejection with a value that has no
    message, such as [null], is not represented. *)
Definition Port : Type :=
  string -> RecordType -> World -> Outcome (option (list string)) * World.

Definition count_lookup (w : World) : World :=
  mkWorld (rnd w) (drawn w) (S (dnsCalls w)) (strategyCalls w).

Definition count_strategy (w : World) : World :=
  mkWorld (rnd w) (drawn w) (dnsCalls w) (S (strategyCalls w)).

(** [`mx${i+1}.${domain}`] for [i] below [count] *)
Definition mx_name (i : nat) (name : string) : string :=
  "mx" +:+ String (ascii_of_nat (48 + i)) "." +:+ name.

(** The lookup that the source ships: canned answers for [example.com]
    and [gmail.com], random ones for every other name. *)
Definition _dnsLookup : Port := fun name type w =>
  match type with
  | MX =>
      if String.eqb name "example.com" then
        (Resolved (Some ["mail.example.com"; "backup-mail.example.com"]), w)
      else if String.eqb name "gmail.com" then
        (Resolved (Some ["aspmx.l.google.com"; "alt1.aspmx.l.google.com"]), w)
      else
        let (r, w') := random_below 3 w in
        (Resolved (Some (map (fun i => mx_name (S i) name) (seq 0 (r + 1)))), w')
  | TXT =>
      if String.eqb name "_dmarc.example.com" then
        (Resolved (Some ["v=DMARC1; p=reject; rua=mailto:dmarc@example.com; pct=100"]), w)
      else if String.eqb name "_dmarc.gmail.com" then
        (Resolved (Some ["v=DMARC1; p=none; sp=quarantine; rua=mailto:mailauth-reports@google.com"]), w)
      else if String.eqb name "example.com" then
        (Resolved (Some ["v=spf1 include:_spf.example.com -all"]), w)
      else if String.eqb name "gmail.com" then
        (Resolved (Some ["v=spf1 include:_spf.google.com ~all"]), w)
      else if includes "_domainkey" name then
        let (b, w') := random_above (2 ^ 53) w in
        if b then
          (Resolved (Some ["v=DKIM1; k=rsa; p=MIGfMA0GCSqGSIb3DQEBAQUAA4GNADCBiQKBgQC..."]), w')
        else (Resolved (Some []), w')
      else if startsWith "_dmarc." name then
        let (policy, w1) := randomItem "" ["none"; "quarantine"; "reject"] w in
        let (b, w2) := random_above 5404319552844595 w1 in
        let pct := if b then "100" else "50" in
        let baseDomain := substring_from 7 name in
        (Resolved (Some ["v=DMARC1; p=" +:+ policy +:+ "; rua=mailto:dmarc@"
                           +:+ baseDomain +:+ "; pct=" +:+ pct]), w2)
      else
        let (allMode, w') := randomItem "" ["-all"; "~all"; "?all"; "+all"] w in
        (Resolved (Some ["v=spf1 include:_spf." +:+ name +:+ " " +:+ allMode]), w')
  | OtherType => (Resolved (Some []), w)
  end.

(** ** The check engine *)

(** [_getErrorResult(domain, errorMessage)] *)
Definition _getErrorResult (domain errorMessage : string) : DomainCheckResult :=
  mkResult domain (Some errorMessage)
           (mkDmarc error "" "" None)
           (mkSpf error "" None)
           (mkDkim error [] None)
           [] 0.

(** [_calculateSecurityScore(dmarcStatus, spfStatus, dkimStatus)] *)
Definition _calculateSecurityScore (dmarcStatus spfStatus dkimStatus : Status) : Z :=
  let score := 0%Z in
  let score := match dmarcStatus with
               | ok => (score + 40)%Z
               | warning => (score + 20)%Z
               | error => score
               end in
  let score := match spfStatus with
               | ok => (score + 30)%Z
               | warning => (score + 15)%Z
               | error => score
               end in
  let score := match dkimStatus with
               | ok => (score + 30)%Z
               | warning => (score + 15)%Z
               | error => score
               end in
  score.

(** [for (const record of records) if (record.includes(token)) { found = record; break; }] *)
Definition first_including (token : string) (records : list string) : option string :=
  List.find (includes token) records.

(** [[^;\s]] *)
Definition value_char (c : ascii) : bool := negb (Ascii.eqb c ";" || is_space c).

(** [record.match(/p=([^;\s]+)/i)], [/pct=([0-9]+)/i], [/rua=([^;\s]+)/i] *)
Definition policyMatch (record : string) : option string :=
  match_capture "p=" value_char record.
Definition pctMatch (record : string) : option string :=
  match_capture "pct=" is_digit record.
Definition ruaMatch (record : string) : option string :=
  match_capture "rua=" value_char record.

(** The analysis of a DMARC record that was found. *)
Definition dmarc_of_record (dmarcRecord : string) : DmarcResult :=
  let '(status, policy) :=
    match policyMatch dmarcRecord with
    | Some v =>
        let policy := toLowerCase v in
        (if String.eqb policy "none" then warning else ok, policy)
    | None => (warning, "")
    end in
  let status :=
    match pctMatch dmarcRecord with
    | None => warning
    | Some digits => if (parseInt digits <? 100)%Z then warning else status
    end in
  let status :=
    match ruaMatch dmarcRecord with
    | None => warning
    | Some _ => status
    end in
  mkDmarc status dmarcRecord policy None.

(** What [_checkDmarc] does with the answer of the lookup. *)
Definition analyzeDmarc (dmarcRecords : option (list string)) : DmarcResult :=
  match dmarcRecords with
  | None | Some [] => mkDmarc error "" "" None
  | Some records =>
      match first_including "v=DMARC1" records with
      | None | Some "" => mkDmarc error "" "" None
      | Some dmarcRecord => dmarc_of_record dmarcRecord
      end
  end.

Definition spf_of_record (spfRecord : string) : SpfResult :=
  let status :=
    if includes "?all" spfRecord then warning
    else if includes "+all" spfRecord then warning
    else if negb (includes "-all" spfRecord) && negb (includes "~all" spfRecord)
         then warning
    else ok in
  mkSpf status spfRecord None.

(** What [_checkSpf] does with the answer of the lookup. *)
Definition analyzeSpf (txtRecords : option (list string)) : SpfResult :=
  match txtRecords with
  | None | Some [] => mkSpf error "" None
  | Some records =>
      match first_including "v=spf1" records with
      | None | Some "" => mkSpf error "" None
      | Some spfRecord => spf_of_record spfRecord
      end
  end.

Definition commonSelectors : list string :=
  ["default"; "google"; "selector1"; "selector2"; "k1"; "dkim"].

Definition is_dkim_record (record : string) : bool :=
  includes "v=DKIM1" record || includes "k=rsa" record || includes "p=" record.

(** Whether the answer for one selector makes it a found selector. *)
Definition selector_found (dkimRecords : option (list string)) : bool :=
  match dkimRecords with
  | Some records => (0 <? length records)%nat && existsb is_dkim_record records
  | None => false
  end.

Definition dkim_status_of (foundSelectors : list string) : Status :=
  if (0 <? length foundSelectors)%nat
  then (if (1 <? length foundSelectors)%nat then ok else warning)
  else error.

Section Engine.

(** The lookup behind [this._dnsLookup]. *)
Variable port : Port.

(** [await this._dnsLookup(name, type)] *)
Definition dnsLookup (name : string) (type : RecordType) : M (option (list string)) :=
  fun st =>
    let (o, w) := port name type (snd st) in (o, (fst st, count_lookup w)).

Definition _checkDmarc (domain : string) : M DmarcResult :=
  try_catch
    (let* dmarcRecords := dnsLookup ("_dmarc." +:+ domain) TXT in
     ret (analyzeDmarc dmarcRecords))
    (fun msg => ret (mkDmarc error "" "" (Some msg))).

Definition _checkSpf (domain : string) : M SpfResult :=
  try_catch
    (let* txtRecords := dnsLookup domain TXT in
     ret (analyzeSpf txtRecords))
    (fun msg => ret (mkSpf error "" (Some msg))).

(** The body of the loop over the selectors: the lookup, with its own
    [try]/[catch] that ignores a failure. *)
Definition probe_selector (domain selector : string) : M bool :=
  try_catch
    (let* dkimRecords := dnsLookup (selector +:+ "._domainkey." +:+ domain) TXT in
     ret (selector_found dkimRecords))
    (fun _ => ret false).

Fixpoint probe_selectors (domain : string) (selectors foundSelectors : list string)
  : M (list string) :=
  match selectors with
  | [] => ret foundSelectors
  | selector :: rest =>
      let* found := probe_selector domain selector in
      probe_selectors domain rest
        (if found then foundSelectors ++ [selector] else foundSelectors)
  end.

Definition _checkDkim (domain : string) : M DkimResult :=
  try_catch
    (let* foundSelectors := probe_selectors domain commonSelectors [] in
     ret (mkDkim (dkim_status_of foundSelectors) foundSelectors None))
    (fun msg => ret (mkDkim error [] (Some msg))).

Definition _getMxRecords (domain : string) : M (list string) :=
  try_catch
    (let* mxRecords := dnsLookup domain MX in
     ret (match mxRecords with
          | None | Some [] => []
          | Some records => records
          end))
    (fun _ => ret []).

Definition _checkDomainOffline (domain : string) : M DomainCheckResult :=
  try_catch
    (let* mxRecords := _getMxRecords domain in
     let* dmarcResult := _checkDmarc domain in
     let* spfResult := _checkSpf domain in
     let* dkimResult := _checkDkim domain in
     let securityScore :=
       _calculateSecurityScore (dmarc_status dmarcResult) (spf_status spfResult)
                               (dkim_status dkimResult) in
     ret (mkResult domain None dmarcResult spfResult dkimResult mxRecords
                   securityScore))
    (fun msg => ret (_getErrorResult domain ("Ошибка офлайн-проверки: " +:+ msg))).

Definition _simulateDomainCheck (domain : string) : M DomainCheckResult :=
  try_catch
    (let statuses := [ok; warning; error] in
     let* dmarcStatus := lift_world (randomItem error statuses) in
     let* spfStatus := lift_world (randomItem error statuses) in
     let* dkimStatus := lift_world (randomItem error statuses) in
     let* dmarcPolicy :=
       match dmarcStatus with
       | ok => lift_world (randomItem "" ["reject"; "quarantine"; "none"])
       | _ => ret ""
       end in
     let spfRecord :=
       match spfStatus with
       | ok | warning => "v=spf1 include:_spf." +:+ domain +:+ " ~all"
       | error => ""
       end in
     let dkimSelectors :=
       match dkimStatus with
       | ok => ["default"; "google"]
       | warning => ["default"]
       | error => []
       end in
     ret (mkResult domain None
            (mkDmarc dmarcStatus
                     (match dmarcStatus with
                      | error => ""
                      | _ => "v=DMARC1; p=" +:+ dmarcPolicy +:+ "; pct=100;"
                      end)
                     dmarcPolicy None)
            (mkSpf spfStatus spfRecord None)
            (mkDkim dkimStatus dkimSelectors None)
            ["mx1." +:+ domain; "mx2." +:+ domain]
            (_calculateSecurityScore dmarcStatus spfStatus dkimStatus)))
    (fun msg => ret (_getErrorResult domain msg)).

Definition _checkDomainViaApi (domain : string) : M DomainCheckResult :=
  _simulateDomainCheck domain.

Definition _checkDomainViaWeb (domain : string) : M DomainCheckResult :=
  _simulateDomainCheck domain.

(** [switch (this.mode)] of [checkDomain] *)
Definition mode_strategy (mode domain : string) : M DomainCheckResult :=
  let* _ := lift_world (fun w => (tt, count_strategy w)) in
  if String.eqb mode "api" then _checkDomainViaApi domain
  else if String.eqb mode "web" then _checkDomainViaWeb domain
  else if String.eqb mode "offline" then _checkDomainOffline domain
  else _simulateDomainCheck domain.

(** The name under which [checkDomain] reports and caches: the string
    trimmed and in lower case; a value that is no string keeps the name
    that the early return gives it. *)
Definition normalized (v : JsValue) : string :=
  match v with
  | JsStr s => toLowerCase (trim s)
  | _ => "unknown"
  end.

(** [checkDomain] up to its first [await]: either the result is there
    (an error result or a cache hit), or a strategy was chosen for the
    normalized name. *)
Definition checkDomain_begin (v : JsValue)
  : M (DomainCheckResult + string * string) :=
  if negb (truthy v) || negb (is_string v) then
    ret (inl (_getErrorResult "unknown" "Не указан домен для проверки"))
  else
    let domain := normalized v in
    if negb (isValidDomain domain) then
      ret (inl (_getErrorResult domain "Некорректный формат доменного имени"))
    else
      let* this := get_client in
      if cacheEnabled this then
        match cache this !! domain with
        | Some cached => ret (inl cached)
        | None => ret (inr (mode this, domain))
        end
      else ret (inr (mode this, domain)).

(** The rest of [checkDomain]: the strategy runs and its result is
    cached. *)
Definition checkDomain_finish (mode domain : string) : M DomainCheckResult :=
  let* result := mode_strategy mode domain in
  let* this := get_client in
  let* _ := (if cacheEnabled this
             then modify_client (set_cache (<[domain := result]> (cache this)))
             else ret tt) in
  ret result.

Definition checkDomain (v : JsValue) : M DomainCheckResult :=
  try_catch
    (let* started := checkDomain_begin v in
     match started with
     | inl result => ret result
     | inr (mode, domain) => checkDomain_finish mode domain
     end)
    (fun msg => ret (_getErrorResult (normalized v) msg)).

(** *** Mode selection *)

Definition availableModes : list string := ["api"; "web"; "offline"; "simulation"].

Definition setMode (mode : string) : M string :=
  let mode := if existsb (String.eqb mode) availableModes then mode else "simulation" in
  let* _ := modify_client (set_mode mode) in
  ret mode.

Definition getMode : M string :=
  let* this := get_client in ret (mode this).

Definition checkApiModeAvailability : M bool :=
  try_catch
    (let* this := get_client in
     if String.eqb (apiKey this) "" then ret false else ret false)
    (fun _ => ret false).

Definition checkWebModeAvailability : M bool :=
  try_catch (ret false) (fun _ => ret false).

(** [!!testResult && Array.isArray(testResult)] on the answer of a test
    lookup: every array is truthy, [null] and [undefined] are not. *)
Definition checkOfflineModeAvailability : M bool :=
  try_catch
    (let* testResult := dnsLookup "example.com" TXT in
     ret (match testResult with
          | Some _ => true
          | None => false
          end))
    (fun _ => ret false).

Definition selectBestAvailableMode : M string :=
  try_catch
    (let* api := checkApiModeAvailability in
     if api then setMode "api" else
     let* web := checkWebModeAvailability in
     if web then setMode "web" else
     let* offline := checkOfflineModeAvailability in
     if offline then setMode "offline" else
     setMode "simulation")
    (fun _ => setMode "simulation").

End Engine.

(** *** Settings and cache *)

Definition stopScan : M unit :=
  let* this := get_client in
  if negb (isScanning this) then ret tt
  else modify_client (set_shouldStop true).

Definition clearCache : M unit :=
  modify_client (set_cache ∅).

Definition setCacheEnabled (enabled : bool) : M unit :=
  modify_client (set_cacheEnabled enabled).

(** [parseInt(delay) || 1000]; [None] is an argument that parses to [NaN]. *)
Definition setDelay (delay : option Z) : M unit :=
  modify_client (set_delay (match delay with
                            | Some d => if (d =? 0)%Z then 1000%Z else d
                            | None => 1000%Z
                            end)).

Definition setConcurrentRequests (count : option Z) : M unit :=
  modify_client (set_concurrentRequests
                   (match count with
                    | Some n => if (n =? 0)%Z then 3%Z else n
                    | None => 3%Z
                    end)).

Record ScanStatus : Type := mkScanStatus {
  status_isScanning : bool;
  status_shouldStop : bool;
  status_activeTasksCount : nat;
  status_mode : string
}.

Definition getScanStatus : M ScanStatus :=
  let* this := get_client in
  ret (mkScanStatus (isScanning this) (shouldStop this) (activeScanTasks this)
                    (mode this)).

(** ** The scan orchestrator *)

(** [_sortResultsByOriginalOrder(results, originalDomains)] *)
Definition _sortResultsByOriginalOrder
  (results : list DomainCheckResult) (originalDomains : list string)
  : list DomainCheckResult :=
  let resultMap : gmap string DomainCheckResult :=
    fold_left (fun m result => <[domain result := result]> m) results ∅ in
  map (fun d => match resultMap !! d with
                | Some result => result
                | None => _getErrorResult d "Result not found"
                end)
      originalDomains.

(** Where a worker of [checkDomains] stands between two turns of the
    event loop. *)
Inductive Phase : Type :=
| Ready
    (* about to call processNextDomain *)
| Checking (popped mode normalizedName : string)
    (* inside checkDomain, the strategy not yet run *)
| Settled (popped : string) (o : Outcome DomainCheckResult)
    (* checkDomain has settled, its result not yet pushed *)
| Sleeping
    (* result pushed, waiting for the delay between requests *)
| Exited.

(** What one call of [checkDomains] owns: the queue, the accumulator,
    the counter, its workers, and the calls made to the progress
    callback so far. *)
Record Pool : Type := mkPool {
  domainQueue : list string;
  results : list DomainCheckResult;
  completedCount : nat;
  workers : list Phase;
  progress : list (nat * nat * DomainCheckResult)
}.

Definition set_queue (q : list string) (p : Pool) : Pool :=
  mkPool q (results p) (completedCount p) (workers p) (progress p).

Definition set_worker (i : nat) (ph : Phase) (p : Pool) : Pool :=
  mkPool (domainQueue p) (results p) (completedCount p)
         (<[i := ph]> (workers p)) (progress p).

Definition add_worker (p : Pool) : Pool :=
  mkPool (domainQueue p) (results p) (completedCount p)
         (workers p ++ [Ready]) (progress p).

(** [results.push(result); completedCount++; progressCallback(...)]; an
    exception of the callback is caught on the spot, so the call leaves
    nothing behind but its record. *)
Definition report (hasCallback : bool) (totalCount : nat)
  (result : DomainCheckResult) (p : Pool) : Pool :=
  let n := S (completedCount p) in
  mkPool (domainQueue p) (results p ++ [result]) n (workers p)
         (if hasCallback then progress p ++ [(n, totalCount, result)]
          else progress p).

Definition is_exited (ph : Phase) : bool :=
  match ph with
  | Exited => true
  | _ => false
  end.

Definition weight (ph : Phase) : nat :=
  match ph with
  | Exited => 0
  | Ready => 1
  | Sleeping => 2
  | Settled _ _ => 3
  | Checking _ _ _ => 4
  end.

(** A bound on the number of steps the workers still have to make. *)
Definition pool_measure (p : Pool) : nat :=
  4 * length (domainQueue p) + list_sum (map weight (workers p)).

(** The index of the first worker that has not returned. *)
Fixpoint first_live (ws : list Phase) : option nat :=
  match ws with
  | [] => None
  | ph :: rest => if is_exited ph then option_map S (first_live rest) else Some 0
  end.

Inductive Event : Type :=
| Tick (worker : nat)   (* the event loop resumes this worker *)
| Stop.                 (* the user calls stopScan() *)

Section Orchestrator.

Variable port : Port.
Variable hasCallback : bool.
Variable totalCount : nat.

(** One uninterrupted stretch of a worker: [processNextDomain] up to
    the first [await] of [checkDomain], the strategy, the bookkeeping
    after [checkDomain], or the end of the delay. *)
Definition worker_step (i : nat) (ps : Pool * State) : Pool * State :=
  let (p, st) := ps in
  match workers p !! i with
  | None | Some Exited => ps
  | Some Ready =>
      if shouldStop (fst st) then (set_worker i Exited p, st)
      else
        match domainQueue p with
        | [] => (set_worker i Exited p, st)
        | d :: queue =>
            let p := set_queue queue p in
            if String.eqb d "" then (set_worker i Exited p, st)
            else
              match try_catch (checkDomain_begin (JsStr d))
                      (fun msg => ret (inl (_getErrorResult (normalized (JsStr d)) msg)))
                      st with
              | (Resolved (inl result), st') =>
                  (set_worker i (Settled d (Resolved result)) p, st')
              | (Resolved (inr (mode, name)), st') =>
                  (set_worker i (Checking d mode name) p, st')
              | (Rejected msg, st') =>
                  (set_worker i (Settled d (Rejected msg)) p, st')
              end
        end
  | Some (Checking d mode name) =>
      let (o, st') :=
        try_catch (checkDomain_finish port mode name)
                  (fun msg => ret (_getErrorResult name msg)) st in
      (set_worker i (Settled d o) p, st')
  | Some (Settled d (Resolved result)) =>
      (set_worker i Sleeping (report hasCallback totalCount result p), st)
  | Some (Settled d (Rejected msg)) =>
      (set_worker i Ready
         (report hasCallback totalCount (_getErrorResult d msg) p), st)
  | Some Sleeping => (set_worker i Ready p, st)
  end.

Definition apply_event (e : Event) (ps : Pool * State) : Pool * State :=
  match e with
  | Tick i => worker_step i ps
  | Stop => (fst ps, snd (stopScan (snd ps)))
  end.

(** The events that reach the scan while some worker is still running. *)
Fixpoint run_schedule (schedule : list Event) (ps : Pool * State) : Pool * State :=
  match schedule with
  | [] => ps
  | e :: rest =>
      match first_live (workers (fst ps)) with
      | None => ps
      | Some _ => run_schedule rest (apply_event e ps)
      end
  end.

(** After the last event the workers that are left run to their end. *)
Fixpoint drain (fuel : nat) (ps : Pool * State) : Pool * State :=
  match fuel with
  | O => ps
  | S fuel' =>
      match first_live (workers (fst ps)) with
      | None => ps
      | Some i => drain fuel' (worker_step i ps)
      end
  end.

(** [startWorker()] runs up to its first [await] when it is called. *)
Definition start_worker (ps : Pool * State) : Pool * State :=
  let (p, st) := ps in
  let i := length (workers p) in
  let (p', st') := worker_step i (add_worker p, st) in
  (p', (set_activeScanTasks (S (activeScanTasks (fst st'))) (fst st'), snd st')).

(** [await Promise.all(workerPromises)] after the loop that starts
    [workerCount] workers: the workers start in turn, the events of the
    schedule arrive, and the workers that are left run to their end. *)
Definition run_workers (workerCount : nat) (schedule : list Event)
  (ps : Pool * State) : Pool * State :=
  let ps := Nat.iter workerCount start_worker ps in
  let ps := run_schedule schedule ps in
  drain (pool_measure (fst ps)) ps.

End Orchestrator.

Definition validDomains (domains : list string) : list string :=
  List.filter (fun d => (0 <? String.length d)%nat && isValidDomain d)
              (map trim domains).

Definition invalidDomains (domains : list string) : list string :=
  List.filter (fun d => (0 <? String.length d)%nat && negb (isValidDomain d))
              (map trim domains).

(** [checkDomains(domains, progressCallback)], under a schedule of the
    events that arrive while the scan runs. *)
Definition checkDomains (port : Port) (domains : list string)
  (hasCallback : bool) (schedule : list Event) : M (list DomainCheckResult) :=
  fun st =>
    let this := fst st in
    if isScanning this then (Rejected "Сканирование уже выполняется", st)
    else
      let valid := validDomains domains in
      let invalid := invalidDomains domains in
      if (length valid =? 0)%nat then
        (Rejected "Список не содержит корректных доменов для сканирования", st)
      else
        let this := set_activeScanTasks 0
                      (set_shouldStop false (set_isScanning true this)) in
        let totalCount := (length valid + length invalid)%nat in
        let pool :=
          fold_left
            (fun p d =>
               report hasCallback totalCount
                 (_getErrorResult d "Некорректный формат доменного имени") p)
            invalid (mkPool valid [] 0 [] []) in
        let workerCount :=
          Z.to_nat (Z.min (concurrentRequests this) (Z.of_nat (length valid))) in
        let ps := run_workers port hasCallback totalCount workerCount schedule
                              (pool, (this, snd st)) in
        let this := set_activeScanTasks 0 (set_isScanning false (fst (snd ps))) in
        (Resolved (_sortResultsByOriginalOrder (results (fst ps)) (invalid ++ valid)),
         (this, snd (snd ps))).

(** ** Ports and worlds used in examples *)

(** A world whose random source always returns [k / 2^53]. *)
Definition constant_world (k : Z) : World := mkWorld (fun _ => k) 0 0 0.

(** A port that answers every lookup with the same array. *)
Definition constant_port (answer : list string) : Port :=
  fun _ _ w => (Resolved (Some answer), w).

(** A port whose every lookup fails. *)
Definition failing_port : Port :=
  fun _ _ w => (Rejected "network error", w).

(** A port for a domain with keys under three selectors: [google]
    answers with a full record, [k1] with a record that has [k=rsa]
    only, [dkim] with a record that has [p=] only after a text that is
    no key; the lookup of [selector1] fails, [selector2] has no answer
    and every other name has a record that is no key. *)
Definition dkim_port : Port := fun name _ w =>
  if startsWith "google." name then
    (Resolved (Some ["v=DKIM1; k=rsa; p=MIGfMA0GCSqGSIb3DQEBAQUAA4GNADCBiQKBgQC"]), w)
  else if startsWith "k1." name then (Resolved (Some ["k=rsa"]), w)
  else if startsWith "dkim." name then
    (Resolved (Some ["google-site-verification=abc"; "t=s; p=MIGfMA0"]), w)
  else if startsWith "selector1." name then (Rejected "queryTxt ENOTFOUND", w)
  else if startsWith "selector2." name then (Resolved None, w)
  else (Resolved (Some ["google-site-verification=abc"]), w).


(** ** Descriptions used in the statements *)

(** [s.split('.')] on the characters of a name *)
Fixpoint split_dots (w : list ascii) : list (list ascii) :=
  match w with
  | [] => [[]]
  | c :: w' =>
      if is_dot c then [] :: split_dots w'
      else match split_dots w' with
           | l :: ls => (c :: l) :: ls
           | [] => [[c]]
           end
  end.

Definition is_hyphen (c : ascii) : bool := Ascii.eqb c "-".

(** A label: 1 to 63 letters, digits and hyphens, with no hyphen at
    either end. *)
Definition label_ok (l : list ascii) : bool :=
  (1 <=? length l)%nat && (length l <=? 63)%nat && forallb alnum_hyphen l
  && negb (is_hyphen (hd "-"%char l)) && negb (is_hyphen (List.last l "-"%char)).

(** The names the pattern of [isValidDomain] accepts, said in words: two
    or more labels separated by dots, the last of at least two
    characters. *)
Definition dotted_name_ok (s : string) : bool :=
  let labels := split_dots (list_ascii_of_string s) in
  (2 <=? length labels)%nat && forallb label_ok labels
  && (2 <=? length (List.last labels []))%nat.

(** The names the specification promises [isValidDomain] to accept: one
    or more labels separated by dots. *)
Definition spec_isValidDomain (s : string) : bool :=
  let labels := split_dots (list_ascii_of_string s) in
  (1 <=? length labels)%nat && forallb label_ok labels.

(** [a] is a strictly better status than [b]. *)
Definition strictly_better (a b : Status) : Prop :=
  match b, a with
  | error, warning | warning, ok | error, ok => True
  | _, _ => False
  end.

(** The answers the port gives to a series of lookups made one after the
    other, and the world they leave. *)
Fixpoint answers (port : Port) (names : list string) (type : RecordType) (w : World)
  : list (Outcome (option (list string))) * World :=
  match names with
  | [] => ([], w)
  | name :: rest =>
      let (o, w1) := port name type w in
      let (os, w2) := answers port rest type (count_lookup w1) in
      (o :: os, w2)
  end.

(** A rejected lookup and an answer that is no array find nothing. *)
Definition answer_found (o : Outcome (option (list string))) : bool :=
  match o with
  | Resolved (Some records) => existsb is_dkim_record records
  | _ => false
  end.

(** An error result: a message, every status [error], nothing found. *)
Definition is_error_result (r : DomainCheckResult) : Prop :=
  (exists msg, errorMessage r = Some msg /\ msg <> "") /\
  dmarc r = mkDmarc error "" "" None /\
  spf r = mkSpf error "" None /\
  dkim r = mkDkim error [] None /\
  mx r = [] /\
  securityScore r = 0%Z.

(** The calls a user of the client can make. *)
Inductive ApiCall : Type :=
| CallCheckDomain (v : JsValue)
| CallCheckDomains (domains : list string) (hasCallback : bool) (schedule : list Event)
| CallSetMode (mode : string)
| CallSelectBestAvailableMode
| CallStopScan
| CallClearCache
| CallSetCacheEnabled (enabled : bool)
| CallSetDelay (delay : option Z)
| CallSetConcurrentRequests (count : option Z).

Definition run_call (port : Port) (call : ApiCall) (st : State) : State :=
  match call with
  | CallCheckDomain v => snd (checkDomain port v st)
  | CallCheckDomains domains cb schedule => snd (checkDomains port domains cb schedule st)
  | CallSetMode m => snd (setMode m st)
  | CallSelectBestAvailableMode => snd (selectBestAvailableMode port st)
  | CallStopScan => snd (stopScan st)
  | CallClearCache => snd (clearCache st)
  | CallSetCacheEnabled b => snd (setCacheEnabled b st)
  | CallSetDelay d => snd (setDelay d st)
  | CallSetConcurrentRequests n => snd (setConcurrentRequests n st)
  end.

Definition run_calls (port : Port) (calls : list ApiCall) (st : State) : State :=
  fold_left (fun st call => run_call port call st) calls st.

Definition is_clearCache (call : ApiCall) : bool :=
  match call with
  | CallClearCache => true
  | _ => false
  end.

(** ** Notions used in the proofs *)

(** A word with a first and a last character that are letters or digits
    and at most 61 letters, digits and hyphens in between. *)
Definition two_ended (l : list ascii) : Prop :=
  exists a u b, l = a :: u ++ [b] /\ alnum a = true /\ (length u <= 61)%nat /\
                forallb alnum_hyphen u = true /\ alnum b = true.

(** [labels.join('.')] *)
Fixpoint join_dots (labels : list (list ascii)) : list ascii :=
  match labels with
  | [] => []
  | [l] => l
  | l :: rest => l ++ "."%char :: join_dots rest
  end.

Definition dotfree (l : list ascii) : Prop := forallb (fun c => negb (is_dot c)) l = true.

(** A computation that leaves the client object as it is. *)
Definition keeps_client {A} (c : M A) : Prop :=
  forall st, fst (snd (c st)) = fst st.

(** A computation that leaves the cache as it is. *)
Definition keeps_cache {A} (c : M A) : Prop :=
  forall st, cache (fst (snd (c st))) = cache (fst st).

(** No worker is inside a check of the name [k]. *)
Definition not_checking (k : string) (ph : Phase) : Prop :=
  match ph with
  | Checking _ _ name => name <> k
  | _ => True
  end.

(** The entry of [k] is in the cache and, with caching on, no check of
    [k] is under way that could overwrite it. *)
Definition entry_safe (k : string) (r : DomainCheckResult) (ps : Pool * State) : Prop :=
  cache (fst (snd ps)) !! k = Some r /\
  (cacheEnabled (fst (snd ps)) = true -> Forall (not_checking k) (workers (fst ps))).

(** Two strings that the [i] flag identifies. *)
Definition same_ci (t lit : string) : Prop :=
  map fold_case (list_ascii_of_string t) = map fold_case (list_ascii_of_string lit).

(** Every character of [v] is in the class. *)
Definition all_in (cls : ascii -> bool) (v : string) : Prop :=
  forallb cls (list_ascii_of_string v) = true.

(** [post] does not go on with a character of the class. *)
Definition stops (cls : ascii -> bool) (post : string) : Prop :=
  match post with
  | EmptyString => True
  | String c _ => cls c = false
  end.

(** ** What a record says

    The statements about the analysis of a record speak of the text of
    the record with the notions below, and not of the functions that
    search it. *)

(** [needle] stands somewhere in [s]. *)
Definition occurs (needle s : string) : Prop :=
  exists pre post, s = pre +:+ needle +:+ post.

(** Two code units that a pattern with the [i] flag identifies: the
    same one, or the capital and the small form of one ASCII letter. *)
Definition same_letter (a b : ascii) : Prop :=
  a = b \/
  ((65 <= code a <= 90)%nat /\ code b = (code a + 32)%nat) \/
  ((65 <= code b <= 90)%nat /\ code a = (code b + 32)%nat).

(** [t] is the literal [lit], each letter in either case. *)
Definition spelled (t lit : string) : Prop :=
  Forall2 same_letter (list_ascii_of_string t) (list_ascii_of_string lit).




(** [post] does not go on with a character of the class. *)
Definition ends_run (cls : ascii -> Prop) (post : string) : Prop :=
  match post with
  | EmptyString => True
  | String c _ => ~ cls c
  end.

(** The pattern [/lit([cls]+)/i] matches [s] right after [pre] and its
    group is [v]: after [pre] comes the literal, then [v], which is not
    empty, is made of characters of the class and is not followed by
    one more of them. *)
Definition captured_at (lit : string) (cls : ascii -> Prop) (s pre v : string) : Prop :=
  exists t post,
    s = pre +:+ t +:+ v +:+ post /\ spelled t lit /\ v <> "" /\
    Forall cls (list_ascii_of_string v) /\ ends_run cls post.

(** What [s.match(/lit([cls]+)/i)] gives: [None], which is [null], when
    the pattern matches nowhere in [s], and else the group of the match
    that starts first. *)
Definition captures (lit : string) (cls : ascii -> Prop) (s : string)
  (o : option string) : Prop :=
  match o with
  | None => forall pre v, ~ captured_at lit cls s pre v
  | Some v =>
      exists pre,
        captured_at lit cls s pre v /\
        forall pre' v', captured_at lit cls s pre' v' ->
                        (String.length pre <= String.length pre')%nat
  end.




(** The answer to the lookup of one selector shows a key: the lookup
    resolved with an array that holds a record in which [v=DKIM1],
    [k=rsa] or [p=] stands. *)
Definition shows_key (o : Outcome (option (list string))) : Prop :=
  exists records rec,
    o = Resolved (Some records) /\ In rec records /\
    (occurs "v=DKIM1" rec \/ occurs "k=rsa" rec \/ occurs "p=" rec).

(** The selectors whose answer shows a key, in the order asked. *)
Inductive found_among :
  list string -> list (Outcome (option (list string))) -> list string -> Prop :=
| found_none : found_among [] [] []
| found_here (sel : string) (sels : list string) (o : Outcome (option (list string)))
    (os : list (Outcome (option (list string)))) (found : list string) :
    shows_key o -> found_among sels os found ->
    found_among (sel :: sels) (o :: os) (sel :: found)
| found_skip (sel : string) (sels : list string) (o : Outcome (option (list string)))
    (os : list (Outcome (option (list string)))) (found : list string) :
    ~ shows_key o -> found_among sels os found ->
    found_among (sel :: sels) (o :: os) found.

(** ** The user interface around the client

    What the user interface does before and after a scan: it reads the
    entries from a file, it keeps the results that the progress callback
    reports, and it counts them. *)

(** *** The file reader *)

Definition is_LF (c : ascii) : bool := (code c =? 10)%nat.
Definition is_CR (c : ascii) : bool := (code c =? 13)%nat.

(** Puts a character in front of the first line. *)
Definition cons_line (c : ascii) (lines : list string) : list string :=
  match lines with
  | line :: rest => String c line :: rest
  | [] => [String c EmptyString]
  end.

(** [content.split(/\r?\n/)]: a line ends at a line feed, and a carriage
    return just before the line feed goes with it. *)
Fixpoint split_lines (content : string) : list string :=
  match content with
  | EmptyString => [EmptyString]
  | String c rest =>
      if is_LF c then EmptyString :: split_lines rest
      else
        match rest with
        | String c' rest' =>
            if is_CR c && is_LF c' then EmptyString :: split_lines rest'
            else cons_line c (split_lines rest)
        | EmptyString => cons_line c (split_lines rest)
        end
  end.

(** [FileUtils.parseLines(content)] on a string *)
Definition parseLines (content : string) : list string :=
  List.filter (fun line => (0 <? String.length line)%nat)
              (map trim (split_lines content)).

(** *** The results manager

    [ResultsManager] keeps the results that the progress callback of a
    scan hands to it in [this.results]. *)

(** [this.results.findIndex(r => r.domain === domain)]; [None] is [-1]. *)
Fixpoint findIndex (d : string) (rs : list DomainCheckResult) : option nat :=
  match rs with
  | [] => None
  | r :: rest =>
      if String.eqb (domain r) d then Some 0%nat
      else option_map S (findIndex d rest)
  end.

(** [addResult(result)] on [this.results]: the result takes the place of
    the first one with its name, or goes to the end. *)
Definition addResult (result : DomainCheckResult) (rs : list DomainCheckResult)
  : list DomainCheckResult :=
  match findIndex (domain result) rs with
  | Some index => <[index := result]> rs
  | None => rs ++ [result]
  end.

(** [removeResult(domain)] on [this.results] *)
Definition removeResult (d : string) (rs : list DomainCheckResult)
  : list DomainCheckResult :=
  if String.eqb d "" then rs
  else match findIndex d rs with
       | Some index => delete index rs
       | None => rs
       end.

(** [getResultByDomain(domain)]; [None] is [null]. *)
Definition getResultByDomain (d : string) (rs : list DomainCheckResult)
  : option DomainCheckResult :=
  if String.eqb d "" then None
  else List.find (fun r => String.eqb (domain r) d) rs.

(** *** The statistics

    [StatisticsManager._calculateStatistics] on results as the client
    makes them, each with its three statuses and its score. *)

Record StatusCounts : Type := mkCounts {
  count_ok : nat;
  count_warning : nat;
  count_error : nat
}.

Record SecurityLevels : Type := mkLevels {
  level_high : nat;
  level_medium : nat;
  level_low : nat
}.

Record Statistics : Type := mkStatistics {
  stats_total : nat;
  stats_dmarc : StatusCounts;
  stats_spf : StatusCounts;
  stats_dkim : StatusCounts;
  stats_averageScore : Z;
  stats_securityLevels : SecurityLevels
}.

(** [stats.dmarc[result.dmarc.status]++] *)
Definition count_status (s : Status) (c : StatusCounts) : StatusCounts :=
  match s with
  | ok => mkCounts (S (count_ok c)) (count_warning c) (count_error c)
  | warning => mkCounts (count_ok c) (S (count_warning c)) (count_error c)
  | error => mkCounts (count_ok c) (count_warning c) (S (count_error c))
  end.

(** [if (score >= 80) high++ else if (score >= 50) medium++ else low++] *)
Definition count_level (score : Z) (l : SecurityLevels) : SecurityLevels :=
  if (80 <=? score)%Z then mkLevels (S (level_high l)) (level_medium l) (level_low l)
  else if (50 <=? score)%Z then mkLevels (level_high l) (S (level_medium l)) (level_low l)
  else mkLevels (level_high l) (level_medium l) (S (level_low l)).

(** [Math.round(totalScore / n)] for a positive [n]: the quotient
    rounded to the nearest integer, a half going up.  The division of
    JavaScript is the one of doubles; it gives the side of the half that
    the exact quotient has as long as the sum stays far below [2^53], as
    it does for scores between 0 and 100. *)
Definition round_div (totalScore : Z) (n : nat) : Z :=
  ((2 * totalScore + Z.of_nat n) / (2 * Z.of_nat n))%Z.

(** The body of [results.forEach]: the counters and the sum of scores. *)
Definition count_result (acc : Statistics * Z) (result : DomainCheckResult)
  : Statistics * Z :=
  let (stats, totalScore) := acc in
  let score := securityScore result in
  (mkStatistics (stats_total stats)
     (count_status (dmarc_status (dmarc result)) (stats_dmarc stats))
     (count_status (spf_status (spf result)) (stats_spf stats))
     (count_status (dkim_status (dkim result)) (stats_dkim stats))
     (stats_averageScore stats)
     (count_level score (stats_securityLevels stats)),
   (totalScore + score)%Z).

Definition _calculateStatistics (results : list DomainCheckResult) : Statistics :=
  let stats :=
    mkStatistics (length results) (mkCounts 0 0 0) (mkCounts 0 0 0) (mkCounts 0 0 0)
                 0 (mkLevels 0 0 0) in
  if (length results =? 0)%nat then stats
  else
    let (stats, totalScore) := fold_left count_result results (stats, 0%Z) in
    mkStatistics (stats_total stats) (stats_dmarc stats) (stats_spf stats)
                 (stats_dkim stats) (round_div totalScore (length results))
                 (stats_securityLevels stats).

(** ** The scan, seen from inside

    The parts of [checkDomains]: its state when the workers start, after
    the events of a schedule, and when the workers have returned.
    [checkDomains] returns the results of the last, put in order by
    [_sortResultsByOriginalOrder]. *)

(** [totalCount] of [checkDomains] *)
Definition scan_total (domains : list string) : nat :=
  (length (validDomains domains) + length (invalidDomains domains))%nat.

(** [workerCount] of [checkDomains] *)
Definition scan_workerCount (domains : list string) (st : State) : nat :=
  Z.to_nat (Z.min (concurrentRequests (fst st))
                  (Z.of_nat (length (validDomains domains)))).

(** The pool and the client of [checkDomains] when it is about to start
    its workers: the flags are set, the valid names are queued and the
    invalid entries are reported. *)
Definition scan_start (domains : list string) (hasCallback : bool) (st : State)
  : Pool * State :=
  (fold_left
     (fun p d =>
        report hasCallback (scan_total domains)
          (_getErrorResult d "Некорректный формат доменного имени") p)
     (invalidDomains domains) (mkPool (validDomains domains) [] 0 [] []),
   (set_activeScanTasks 0 (set_shouldStop false (set_isScanning true (fst st))),
    snd st)).

(** The pool and the client of [checkDomains] after the events of a
    schedule. *)
Definition scan_after (port : Port) (domains : list string) (hasCallback : bool)
  (schedule : list Event) (st : State) : Pool * State :=
  run_schedule port hasCallback (scan_total domains) schedule
    (Nat.iter (scan_workerCount domains st)
       (start_worker port hasCallback (scan_total domains))
       (scan_start domains hasCallback st)).

(** The pool and the client of [checkDomains] when all its workers have
    returned. *)
Definition scan_end (port : Port) (domains : list string) (hasCallback : bool)
  (schedule : list Event) (st : State) : Pool * State :=
  run_workers port hasCallback (scan_total domains) (scan_workerCount domains st)
    schedule (scan_start domains hasCallback st).

(** ** A result used in examples *)

(** A regular result for [example.com]. *)
Definition example_result : DomainCheckResult :=
  mkResult "example.com" None
           (mkDmarc ok "v=DMARC1; p=reject; rua=mailto:dmarc@example.com; pct=100"
                    "reject" None)
           (mkSpf ok "v=spf1 include:_spf.example.com -all" None)
           (mkDkim warning ["default"] None)
           ["mail.example.com"] 85.

(** ** Further descriptions used in the statements *)

(** A character of a host name: an ASCII letter, a digit, a hyphen or a
    dot. *)
Definition name_char (c : ascii) : Prop :=
  (48 <= code c <= 57)%nat \/ (65 <= code c <= 90)%nat \/
  (97 <= code c <= 122)%nat \/ c = "-"%char \/ c = "."%char.

(** A string of ASCII characters: every code unit is below 128. *)
Definition ascii_only (s : string) : Prop :=
  Forall (fun c => (code c < 128)%nat) (list_ascii_of_string s).

(** A lookup port that leaves the count of lookups to the client. *)
Definition keeps_lookup_count (port : Port) : Prop :=
  forall name type w, dnsCalls (snd (port name type w)) = dnsCalls w.

(** The calls of the progress callback that go with a list of results:
    numbered from [n], each with the same total. *)
Fixpoint number_from (n total : nat) (rs : list DomainCheckResult)
  : list (nat * nat * DomainCheckResult) :=
  match rs with
  | [] => []
  | r :: rest => (n, total, r) :: number_from (S n) total rest
  end.

(** A worker that has taken a name from the queue and not yet pushed
    its result. *)
Definition in_flight (ph : Phase) : nat :=
  match ph with
  | Checking _ _ _ | Settled _ _ => 1
  | _ => 0
  end.

(** A schedule in which nobody calls [stopScan]. *)
Definition no_stop (schedule : list Event) : Prop :=
  Forall (fun e => e <> Stop) schedule.

(** The score of a result is the one of its three statuses. *)
Definition scored (r : DomainCheckResult) : Prop :=
  securityScore r =
    _calculateSecurityScore (dmarc_status (dmarc r)) (spf_status (spf r))
                            (dkim_status (dkim r)).

(** A regular result: no error message, and the score of its statuses. *)
Definition regular (r : DomainCheckResult) : Prop :=
  errorMessage r = None /\ scored r.

(** The cache holds regular results only, each under the name it bears,
    a valid name in normal form. *)
Definition cache_wf (c : gmap string DomainCheckResult) : Prop :=
  forall k r, c !! k = Some r ->
    domain r = k /\ regular r /\
    isValidDomain k = true /\ toLowerCase k = k.

(** The last of the results that bears the name [d]. *)
Definition last_result_for (d : string) (rs : list DomainCheckResult)
  : option DomainCheckResult :=
  List.find (fun r => String.eqb (domain r) d) (rev rs).

(** [this.results] after the calls that the progress callback of
    [_startScan] makes to [addResult], starting from no result. *)
Definition results_after (calls : list (nat * nat * DomainCheckResult))
  : list DomainCheckResult :=
  fold_left (fun rs call => addResult (snd call) rs) calls [].

(** The content with every carriage return that stands before a line
    feed taken out. *)
Fixpoint drop_cr (content : string) : string :=
  match content with
  | EmptyString => EmptyString
  | String c rest =>
      match rest with
      | String c' _ =>
          if is_CR c && is_LF c' then drop_cr rest else String c (drop_cr rest)
      | EmptyString => String c EmptyString
      end
  end.

(** [lines.join('\n')] *)
Fixpoint join_lines (lines : list string) : string :=
  match lines with
  | [] => EmptyString
  | [line] => line
  | line :: rest => line +:+ String (ascii_of_nat 10) (join_lines rest)
  end.

(** No check of the result has the status [error] and at most one has the
    status [warning]. *)
Definition well_protected (r : DomainCheckResult) : bool :=
  match dmarc_status (dmarc r), spf_status (spf r), dkim_status (dkim r) with
  | ok, ok, ok | warning, ok, ok | ok, warning, ok | ok, ok, warning => true
  | _, _, _ => false
  end.

(** The number of results that have the status [s] under [proj]. *)
Definition with_status (proj : DomainCheckResult -> Status) (s : Status)
  (rs : list DomainCheckResult) : nat :=
  length (List.filter (fun r => match proj r, s with
                                | ok, ok | warning, warning | error, error => true
                                | _, _ => false
                                end) rs).

(** The settings of the client. *)
Definition settings (c : Client) : Z * Z * string * string * bool :=
  (delay c, concurrentRequests c, apiKey c, mode c, cacheEnabled c).

(** ** Further notions used in the proofs *)

(** Every character class of a pattern has the property [P]. *)
Fixpoint classes (P : (ascii -> bool) -> Prop) (r : Regex.regex) : Prop :=
  match r with
  | Regex.Void | Regex.Eps => True
  | Regex.Cls p => P p
  | Regex.Cat r1 r2 | Regex.Alt r1 r2 => classes P r1 /\ classes P r2
  | Regex.Star r1 => classes P r1
  end.

(** A string that does not begin with white space. *)
Definition head_ok (s : string) : Prop :=
  match s with
  | EmptyString => True
  | String c _ => is_space c = false
  end.

(** The result of a check that was made: regular, under a valid name in
    lower case. *)
Definition served (r : DomainCheckResult) : Prop :=
  isValidDomain (domain r) = true /\ toLowerCase (domain r) = domain r /\
  regular r.

(** The result that reports an entry of invalid format. *)
Definition refused (r : DomainCheckResult) : Prop :=
  isValidDomain (domain r) = false /\
  r = _getErrorResult (domain r) "Некорректный формат доменного имени".

(** What a worker holds is a valid name of the queue and, once the check
    has settled, a regular result under that name in lower case. *)
Definition phase_ok (ph : Phase) : Prop :=
  match ph with
  | Checking d _ name => isValidDomain d = true /\ name = toLowerCase d
  | Settled d (Resolved r) =>
      isValidDomain d = true /\ domain r = toLowerCase d /\ regular r
  | Settled _ (Rejected _) => False
  | _ => True
  end.

(** The worker holds the name [d]. *)
Definition holds (d : string) (ph : Phase) : Prop :=
  match ph with
  | Checking d' _ _ | Settled d' _ => d' = d
  | _ => False
  end.

(** The books of a scan: the counter is the number of results, the
    progress callback was called once for each result, in the order of
    the results, and every name is in the queue, with a worker, or has
    its result. *)
Definition books_ok (cb : bool) (total : nat) (p : Pool) : Prop :=
  completedCount p = length (results p) /\
  progress p = (if cb then number_from 1 total (results p) else []) /\
  Forall (fun d => d <> "") (domainQueue p) /\
  (length (results p) + length (domainQueue p)
   + list_sum (map in_flight (workers p)) = total)%nat.

(** While nobody stops the scan, a worker returns only when the queue
    is empty. *)
Definition unstopped (ps : Pool * State) : Prop :=
  shouldStop (fst (snd ps)) = false /\
  Forall (fun d => d <> "") (domainQueue (fst ps)) /\
  (domainQueue (fst ps) = [] \/
   Forall (fun ph => is_exited ph = false) (workers (fst ps))).

(** What holds of a scan at every moment: the cache is well formed, the
    queue holds valid names, the workers and the results are as they
    should, every valid name is in the queue, with a worker, or has a
    result under its lower-case form, and every invalid entry has its
    error result. *)
Definition scan_ok (valid invalid : list string) (ps : Pool * State) : Prop :=
  cache_wf (cache (fst (snd ps))) /\
  Forall (fun d => isValidDomain d = true) (domainQueue (fst ps)) /\
  Forall phase_ok (workers (fst ps)) /\
  Forall (fun r => served r \/ refused r) (results (fst ps)) /\
  (forall d, In d valid ->
     In d (domainQueue (fst ps)) \/
     (exists j ph, workers (fst ps) !! j = Some ph /\ holds d ph) \/
     (exists r, In r (results (fst ps)) /\ domain r = toLowerCase d)) /\
  (forall d, In d invalid ->
     In (_getErrorResult d "Некорректный формат доменного имени")
        (results (fst ps))).

(** Once the scan is stopped the queue stays as it is, and the results
    grow by the checks that were under way. *)
Definition frozen (queue : list string) (n : nat) (ps : Pool * State) : Prop :=
  shouldStop (fst (snd ps)) = true /\
  domainQueue (fst ps) = queue /\
  (length (results (fst ps)) + list_sum (map in_flight (workers (fst ps))) = n)%nat.

(** With caching on, every valid name is in the queue, under check, or
    in the cache under its lower-case form. *)
Definition filling (valid : list string) (ps : Pool * State) : Prop :=
  cacheEnabled (fst (snd ps)) = true /\
  Forall (fun d => isValidDomain d = true) (domainQueue (fst ps)) /\
  forall d, In d valid ->
    In d (domainQueue (fst ps)) \/
    (exists j m, workers (fst ps) !! j = Some (Checking d m (toLowerCase d))) \/
    is_Some (cache (fst (snd ps)) !! toLowerCase d).

(** A scan whose names are all cached: the world and the cache stay as
    they were in [st0] and no worker runs a strategy. *)
Definition answered_from_cache (st0 : State) (ps : Pool * State) : Prop :=
  snd (snd ps) = snd st0 /\
  cache (fst (snd ps)) = cache (fst st0) /\
  cacheEnabled (fst (snd ps)) = true /\
  Forall (fun d => isValidDomain d = true /\
                   is_Some (cache (fst st0) !! toLowerCase d))
         (domainQueue (fst ps)) /\
  Forall (fun ph => forall d m n, ph <> Checking d m n) (workers (fst ps)).

(** A worker that is inside a check. *)
Definition checking (ph : Phase) : nat :=
  match ph with
  | Checking _ _ _ => 1
  | _ => 0
  end.

(** An offline scan without cache, seen by its lookups: nine are made
    for each name that has left the queue and the hands of a worker. *)
Definition counting (total : nat) (ps : Pool * State) : Prop :=
  mode (fst (snd ps)) = "offline" /\
  cacheEnabled (fst (snd ps)) = false /\
  Forall (fun d => isValidDomain d = true) (domainQueue (fst ps)) /\
  Forall (fun ph => match ph with
                    | Checking _ m _ => m = "offline"
                    | _ => True
                    end) (workers (fst ps)) /\
  (dnsCalls (snd (snd ps))
   + 9 * (length (domainQueue (fst ps)) + list_sum (map checking (workers (fst ps))))
   = total)%nat.

(** * Properties *)

(** ** JavaScript string primitives: what they compute *)

Lemma append_cons (c : ascii) (s t : string) :
  String c s +:+ t = String c (s +:+ t).
Proof. reflexivity. Qed.

Lemma append_empty (s : string) : "" +:+ s = s.
Proof. reflexivity. Qed.

Lemma append_is_empty (s t : string) : s +:+ t = "" -> s = "" /\ t = "".
Proof.
  destruct s; [rewrite append_empty; auto | rewrite append_cons; discriminate].
Qed.

Lemma prefix_app (p s : string) :
  String.prefix p s = true <-> exists post, s = p +:+ post.
Proof.
  revert s. induction p as [| a p IH]; intros s.
  - split; [intros _; exists s; reflexivity | intros _; destruct s; reflexivity].
  - destruct s as [| b s]; simpl.
    + split; [discriminate | intros (post & H); discriminate].
    + destruct (Ascii.ascii_dec a b) as [-> | Hne].
      * rewrite IH. split; intros (post & H); exists post.
        -- subst s. reflexivity.
        -- rewrite append_cons in H. congruence.
      * split; [discriminate |]. intros (post & H).
        rewrite append_cons in H. congruence.
Qed.

(** [includes]: the needle occurs somewhere in the string. *)
Lemma includes_occurs (needle s : string) :
  includes needle s = true <-> exists pre post, s = pre +:+ needle +:+ post.
Proof.
  induction s as [| c s IH]; cbn [includes].
  - destruct (String.prefix needle "") eqn:Hp.
    + split; [intros _ | reflexivity].
      apply prefix_app in Hp as (post & Hp). exists "", post. assumption.
    + split; [discriminate |]. intros (pre & post & H).
      symmetry in H. apply append_is_empty in H as [-> H]. 
      assert (String.prefix needle "" = true) by (apply prefix_app; eauto).
      congruence.
  - destruct (String.prefix needle (String c s)) eqn:Hp.
    + split; [intros _ | reflexivity].
      apply prefix_app in Hp as (post & Hp). exists "", post. assumption.
    + rewrite IH. split.
      * intros (pre & post & ->). exists (String c pre), post. reflexivity.
      * intros (pre & post & H). destruct pre as [| c' pre].
        -- assert (String.prefix needle (String c s) = true) by (apply prefix_app; eauto).
           congruence.
        -- rewrite append_cons in H. injection H as _ ->. eauto.
Qed.

Lemma strip_prefix_ci_spec (lit : string) :
  forall s rest,
    strip_prefix_ci lit s = Some rest <-> exists t, s = t +:+ rest /\ same_ci t lit.
Proof.
  unfold same_ci. induction lit as [| a lit IH]; intros s rest; simpl.
  - split.
    + intros H. injection H as ->. exists "". auto.
    + intros (t & -> & Ht). destruct t; [reflexivity | discriminate].
  - destruct s as [| c s].
    + split; [discriminate |]. intros (t & H & Ht).
      destruct t; discriminate.
    + destruct (Ascii.eqb_spec (fold_case a) (fold_case c)) as [E | Hne].
      * rewrite IH. split.
        -- intros (t & -> & Ht). exists (String c t).
           split; [reflexivity |]. cbn [list_ascii_of_string map]. congruence.
        -- intros (t & H & Ht). destruct t as [| c' t]; [discriminate |].
           rewrite append_cons in H. simpl in Ht.
           injection H as <- ->. injection Ht as _ Ht. eauto.
      * split; [discriminate |]. intros (t & H & Ht).
        destruct t as [| c' t]; [discriminate |].
        rewrite append_cons in H. simpl in Ht.
        injection H as <- _. injection Ht as E _. congruence.
Qed.

Lemma span_spec (cls : ascii -> bool) :
  forall s v post,
    span cls s = (v, post) <-> s = v +:+ post /\ all_in cls v /\ stops cls post.
Proof.
  unfold all_in. induction s as [| c s IH]; intros v post; simpl.
  - split.
    + intros H. injection H as <- <-. simpl. auto.
    + intros (H & _ & _). symmetry in H. apply append_is_empty in H as [-> ->].
      reflexivity.
  - destruct (cls c) eqn:Hc.
    + destruct (span cls s) as [v' r] eqn:Hs. split.
      * intros H. injection H as <- <-.
        destruct (proj1 (IH v' r) eq_refl) as (-> & Hall & Hstop).
        simpl. rewrite Hc. auto.
      * intros (H & Hall & Hstop). destruct v as [| c' v].
        -- rewrite append_empty in H. subst post. simpl in Hstop. congruence.
        -- rewrite append_cons in H. simpl in Hall. injection H as <- E0.
           apply andb_true_iff in Hall as [_ Hall].
           assert (E : (v', r) = (v, post)) by (apply IH; auto).
           injection E as -> ->. reflexivity.
    + split.
      * intros H. injection H as <- <-. simpl. auto.
      * intros (H & Hall & Hstop). destruct v as [| c' v].
        -- rewrite append_empty in H. subst. reflexivity.
        -- rewrite append_cons in H. simpl in Hall. injection H as <- _.
           rewrite Hc in Hall. discriminate.
Qed.

(** The pattern succeeds at the head of [s] with the group [v] exactly
    when [s] starts with the literal in some case, followed by the
    non-empty run [v] of the class, and the run ends there. *)
Lemma capture_here_spec (lit : string) (cls : ascii -> bool) (s v : string) :
  capture_here lit cls s = Some v <->
  exists t post, s = t +:+ v +:+ post /\ same_ci t lit /\ v <> "" /\
                 all_in cls v /\ stops cls post.
Proof.
  unfold capture_here. split.
  - destruct (strip_prefix_ci lit s) as [rest |] eqn:Hl; [| discriminate].
    apply strip_prefix_ci_spec in Hl as (t & -> & Ht).
    destruct (span cls rest) as [v' post] eqn:Hs. simpl.
    apply span_spec in Hs as (-> & Hall & Hstop).
    destruct v' as [| c v']; [discriminate |]. intros H. injection H as <-.
    exists t, post. split; [reflexivity |]. split; [assumption |].
    split; [discriminate | auto].
  - intros (t & post & -> & Ht & Hv & Hall & Hstop).
    assert (Hl : strip_prefix_ci lit (t +:+ v +:+ post) = Some (v +:+ post))
      by (apply strip_prefix_ci_spec; eauto).
    assert (Hs : span cls (v +:+ post) = (v, post)) by (apply span_spec; auto).
    rewrite Hl, Hs. simpl. destruct v; [contradiction | reflexivity].
Qed.

(** No match: the pattern fails at every position. *)
Lemma match_capture_nowhere (lit : string) (cls : ascii -> bool) (s : string) :
  match_capture lit cls s = None <->
  forall pre rest, s = pre +:+ rest -> capture_here lit cls rest = None.
Proof.
  induction s as [| c s IH]; cbn [match_capture].
  - split.
    + intros H pre rest E. symmetry in E. apply append_is_empty in E as [-> ->].
      destruct (capture_here lit cls ""); [discriminate | reflexivity].
    + intros H. rewrite (H "" "" eq_refl). reflexivity.
  - split.
    + intros H pre rest E.
      destruct (capture_here lit cls (String c s)) eqn:Hh; [discriminate |].
      destruct pre as [| c' pre].
      * rewrite append_empty in E. subst rest. assumption.
      * rewrite append_cons in E. injection E as _ ->.
        apply (proj1 IH H pre rest eq_refl).
    + intros H. rewrite (H "" (String c s) eq_refl). apply IH.
      intros pre rest ->. apply (H (String c pre) rest). reflexivity.
Qed.

(** A match: the group is captured at the leftmost position where the
    pattern succeeds. *)
Lemma match_capture_leftmost (lit : string) (cls : ascii -> bool) (s v : string) :
  match_capture lit cls s = Some v <->
  exists pre rest,
    s = pre +:+ rest /\ capture_here lit cls rest = Some v /\
    forall pre' rest', s = pre' +:+ rest' ->
                       (String.length pre' < String.length pre)%nat ->
                       capture_here lit cls rest' = None.
Proof.
  induction s as [| c s IH]; cbn [match_capture].
  - split.
    + destruct (capture_here lit cls "") as [v' |] eqn:Hh; [| discriminate].
      intros H. injection H as ->. exists "", "". split; [reflexivity |].
      split; [assumption |]. intros pre' rest' _ Hlt. simpl in Hlt. lia.
    + intros (pre & rest & E & Hh & _).
      symmetry in E. apply append_is_empty in E as [-> ->].
      rewrite Hh. reflexivity.
  - split.
    + destruct (capture_here lit cls (String c s)) as [v' |] eqn:Hh.
      * intros H. injection H as ->. exists "", (String c s). split; [reflexivity |].
        split; [assumption |]. intros pre' rest' _ Hlt. simpl in Hlt. lia.
      * intros H. apply IH in H as (pre & rest & -> & Hrest & Hleft).
        exists (String c pre), rest. split; [reflexivity |]. split; [assumption |].
        intros pre' rest' E Hlt. destruct pre' as [| c' pre'].
        -- rewrite append_empty in E. subst rest'. assumption.
        -- rewrite append_cons in E. injection E as _ E.
           apply (Hleft pre' rest' E). simpl in Hlt. lia.
    + intros (pre & rest & E & Hh & Hleft). destruct pre as [| c' pre].
      * rewrite append_empty in E. subst rest. rewrite Hh. reflexivity.
      * rewrite append_cons in E. injection E as _ ->.
        rewrite (Hleft "" (String c (pre +:+ rest)) eq_refl) by (simpl; lia).
        apply IH. exists pre, rest. split; [reflexivity |]. split; [assumption |].
        intros pre' rest' E Hlt. apply (Hleft (String c pre') rest').
        -- rewrite append_cons. congruence.
        -- simpl. lia.
Qed.

(** ** Regular expressions: the matcher decides the language *)

Lemma nullable_lang (r : Regex.regex) :
  Regex.nullable r = true <-> Regex.lang r [].
Proof.
  induction r as [| | p | r1 IH1 r2 IH2 | r1 IH1 r2 IH2 | r1 IH1]; simpl.
  - split; [discriminate | tauto].
  - tauto.
  - split; [discriminate | intros (a & H & _); discriminate].
  - rewrite andb_true_iff, IH1, IH2. split.
    + intros [H1 H2]. exists [], []. auto.
    + intros (w1 & w2 & Hw & H1 & H2).
      symmetry in Hw. apply app_eq_nil in Hw as [-> ->]. auto.
  - rewrite orb_true_iff, IH1, IH2. tauto.
  - split; [| reflexivity]. intros _. exists []. split; [reflexivity | constructor].
Qed.

Lemma lang_cat' (r1 r2 : Regex.regex) (w : list ascii) :
  Regex.lang (Regex.cat' r1 r2) w <-> Regex.lang (Regex.Cat r1 r2) w.
Proof.
  destruct r1; simpl; try tauto.
  split; [tauto | intros (w1 & w2 & _ & [] & _)].
Qed.

Lemma lang_alt' (r1 r2 : Regex.regex) (w : list ascii) :
  Regex.lang (Regex.alt' r1 r2) w <-> Regex.lang (Regex.Alt r1 r2) w.
Proof.
  destruct r1, r2; simpl; tauto.
Qed.

Lemma star_cons_inv (P : list ascii -> Prop) (a : ascii) (w : list ascii)
  (ws : list (list ascii)) :
  a :: w = concat ws -> Forall P ws ->
  exists w1 ws', w = w1 ++ concat ws' /\ P (a :: w1) /\ Forall P ws'.
Proof.
  induction ws as [| x ws IH]; simpl; intros Hw Hall.
  - discriminate.
  - inversion Hall as [| ? ? Hx Hrest]; subst.
    destruct x as [| b x].
    + simpl in Hw. apply IH; assumption.
    + simpl in Hw. injection Hw as -> ->. exists x, ws. auto.
Qed.

Lemma deriv_lang (a : ascii) (r : Regex.regex) :
  forall w, Regex.lang (Regex.deriv a r) w <-> Regex.lang r (a :: w).
Proof.
  induction r as [| | p | r1 IH1 r2 IH2 | r1 IH1 r2 IH2 | r1 IH1]; intros w; simpl.
  - tauto.
  - split; [tauto | discriminate].
  - destruct (p a) eqn:Hp; simpl.
    + split.
      * intros ->. exists a. auto.
      * intros (b & Hw & _). injection Hw as _ ->. reflexivity.
    + split; [tauto |].
      intros (b & Hw & Hb). injection Hw as -> _. congruence.
  - assert (Hcat : Regex.lang (Regex.cat' (Regex.deriv a r1) r2) w <->
                   exists w1 w2, w = w1 ++ w2 /\ Regex.lang r1 (a :: w1) /\ Regex.lang r2 w2).
    { rewrite lang_cat'. simpl. split.
      - intros (w1 & w2 & Hw & H1 & H2). exists w1, w2. rewrite <- IH1. auto.
      - intros (w1 & w2 & Hw & H1 & H2). exists w1, w2. rewrite IH1. auto. }
    destruct (Regex.nullable r1) eqn:Hn.
    + rewrite lang_alt'. simpl. rewrite Hcat, IH2. split.
      * intros [(w1 & w2 & Hw & H1 & H2) | H2].
        -- exists (a :: w1), w2. subst. auto.
        -- exists [], (a :: w). apply nullable_lang in Hn. auto.
      * intros (w1 & w2 & Hw & H1 & H2). destruct w1 as [| b w1].
        -- right. simpl in Hw. subst. assumption.
        -- left. simpl in Hw. injection Hw as -> ->. exists w1, w2. auto.
    + rewrite Hcat. split.
      * intros (w1 & w2 & Hw & H1 & H2). exists (a :: w1), w2. subst. auto.
      * intros (w1 & w2 & Hw & H1 & H2). destruct w1 as [| b w1].
        -- apply nullable_lang in H1. congruence.
        -- simpl in Hw. injection Hw as -> ->. exists w1, w2. auto.
  - rewrite lang_alt'. simpl. rewrite IH1, IH2. tauto.
  - rewrite lang_cat'. simpl. split.
    + intros (w1 & w2 & Hw & H1 & ws & Hws & Hall).
      exists ((a :: w1) :: ws). split.
      * simpl. subst. reflexivity.
      * constructor; [apply IH1; assumption | assumption].
    + intros (ws & Hw & Hall).
      destruct (star_cons_inv _ _ _ _ Hw Hall) as (w1 & ws' & Hw' & H1 & Hall').
      exists w1, (concat ws'). split; [assumption |]. split.
      * apply IH1. assumption.
      * exists ws'. auto.
Qed.

Lemma matches_lang (w : list ascii) :
  forall r, Regex.matches r w = true <-> Regex.lang r w.
Proof.
  induction w as [| a w IH]; intros r; simpl.
  - apply nullable_lang.
  - rewrite IH. apply deriv_lang.
Qed.

(** ** The language of the domain pattern *)

Lemma lang_upto_cls (p : ascii -> bool) (n : nat) :
  forall w, Regex.lang (Regex.Upto n (Regex.Cls p)) w <->
            (length w <= n)%nat /\ forallb p w = true.
Proof.
  induction n as [| n IH]; intros w; simpl.
  - split.
    + intros ->. simpl. split; [lia | reflexivity].
    + intros [Hlen _]. destruct w; [reflexivity | simpl in Hlen; lia].
  - split.
    + intros [(w1 & w2 & -> & (a & -> & Ha) & H2) | ->].
      * apply IH in H2 as [Hlen Hall]. simpl. rewrite Ha, Hall. split; [lia | reflexivity].
      * simpl. split; [lia | reflexivity].
    + intros [Hlen Hall]. destruct w as [| a w]; [right; reflexivity | left].
      simpl in Hlen, Hall. apply andb_true_iff in Hall as [Ha Hall].
      exists [a], w. split; [reflexivity |]. split; [exists a; auto |].
      apply IH. split; [lia | assumption].
Qed.

Lemma lang_tldRegex (l : list ascii) :
  Regex.lang tldRegex l <-> two_ended l.
Proof.
  unfold tldRegex, two_ended. cbn [Regex.lang]. split.
  - intros (w1 & w2 & -> & (a & -> & Ha) & u & w3 & -> & Hu & b & -> & Hb).
    apply lang_upto_cls in Hu as [Hlen Hall]. exists a, u, b. auto.
  - intros (a & u & b & -> & Ha & Hlen & Hall & Hb).
    exists [a], (u ++ [b]). split; [reflexivity |]. split; [exists a; auto |].
    exists u, [b]. split; [reflexivity |]. split.
    + apply lang_upto_cls. auto.
    + exists b. auto.
Qed.

Lemma lang_labelRegex (l : list ascii) :
  Regex.lang labelRegex l <-> (exists a, l = [a] /\ alnum a = true) \/ two_ended l.
Proof.
  unfold labelRegex, two_ended, Regex.Opt. cbn [Regex.lang]. split.
  - intros (w1 & w2 & -> & (a & -> & Ha) & [(u & w3 & -> & Hu & b & -> & Hb) | ->]).
    + right. apply lang_upto_cls in Hu as [Hlen Hall]. exists a, u, b. auto.
    + left. exists a. auto.
  - intros [(a & -> & Ha) | (a & u & b & -> & Ha & Hlen & Hall & Hb)].
    + exists [a], []. split; [reflexivity |]. split; [exists a; auto | right; reflexivity].
    + exists [a], (u ++ [b]). split; [reflexivity |]. split; [exists a; auto | left].
      exists u, [b]. split; [reflexivity |]. split.
      * apply lang_upto_cls. auto.
      * exists b. auto.
Qed.

Lemma alnum_hyphen_split (c : ascii) :
  alnum c = true <-> alnum_hyphen c = true /\ is_hyphen c = false.
Proof.
  unfold alnum_hyphen, is_hyphen. split.
  - intros Hc. rewrite Hc. split; [reflexivity |].
    destruct (Ascii.eqb_spec c "-") as [-> |]; [discriminate Hc | reflexivity].
  - intros [H1 H2]. rewrite H2, orb_false_r in H1. assumption.
Qed.

Lemma label_ok_iff (l : list ascii) :
  label_ok l = true <->
  (1 <= length l)%nat /\ (length l <= 63)%nat /\ forallb alnum_hyphen l = true /\
  is_hyphen (hd "-"%char l) = false /\ is_hyphen (List.last l "-"%char) = false.
Proof.
  unfold label_ok. rewrite !andb_true_iff, !negb_true_iff, !Nat.leb_le. tauto.
Qed.

Lemma two_ended_label_ok (l : list ascii) :
  two_ended l <-> label_ok l = true /\ (2 <= length l)%nat.
Proof.
  rewrite label_ok_iff. unfold two_ended. split.
  - intros (a & u & b & -> & Ha & Hlen & Hall & Hb).
    apply alnum_hyphen_split in Ha as [Ha1 Ha2].
    apply alnum_hyphen_split in Hb as [Hb1 Hb2].
    change (a :: u ++ [b]) with ((a :: u) ++ [b]).
    rewrite last_last, forallb_app, length_app. simpl.
    rewrite Ha1, Hall, Hb1. simpl. repeat split; auto; lia.
  - intros [(_ & Hmax & Hall & Hhd & Hlast) Hlen].
    destruct l as [| a t]; [simpl in Hlen; lia |].
    destruct (exists_last (l := t)) as (u & b & ->).
    { intros ->. simpl in Hlen. lia. }
    change (a :: u ++ [b]) with ((a :: u) ++ [b]) in *.
    rewrite last_last in Hlast. rewrite forallb_app in Hall.
    rewrite length_app in Hmax. simpl in Hhd, Hall, Hmax.
    rewrite !andb_true_iff in Hall. destruct Hall as [[Ha Hu] [Hb _]].
    exists a, u, b. split; [reflexivity |].
    split; [apply alnum_hyphen_split; auto |].
    split; [lia |]. split; [assumption |].
    apply alnum_hyphen_split; auto.
Qed.

Lemma single_label_ok (l : list ascii) :
  (exists a, l = [a] /\ alnum a = true) <-> label_ok l = true /\ length l = 1%nat.
Proof.
  rewrite label_ok_iff. split.
  - intros (a & -> & Ha). apply alnum_hyphen_split in Ha as [H1 H2].
    simpl. rewrite H1. repeat split; auto; lia.
  - intros [(_ & _ & Hall & Hhd & _) Hlen].
    destruct l as [| a [| b t]]; try discriminate Hlen.
    exists a. split; [reflexivity |]. simpl in Hall, Hhd.
    rewrite andb_true_r in Hall. apply alnum_hyphen_split; auto.
Qed.

Lemma label_ok_length (l : list ascii) :
  label_ok l = true -> (1 <= length l)%nat.
Proof.
  rewrite label_ok_iff. tauto.
Qed.

Lemma lang_label_ok (l : list ascii) :
  Regex.lang labelRegex l <-> label_ok l = true.
Proof.
  rewrite lang_labelRegex, single_label_ok, two_ended_label_ok. split.
  - tauto.
  - intros Hok. pose proof (label_ok_length l Hok). 
    destruct (Nat.eq_dec (length l) 1); [left | right]; split; auto; lia.
Qed.

(** ** Splitting a name at its dots *)

Lemma is_dot_eq (c : ascii) : is_dot c = true -> c = "."%char.
Proof. unfold is_dot. intros H. apply Ascii.eqb_eq. assumption. Qed.

Lemma split_dots_nonempty (w : list ascii) : split_dots w <> [].
Proof.
  destruct w as [| c w]; simpl; [discriminate |].
  destruct (is_dot c); [discriminate |].
  destruct (split_dots w); discriminate.
Qed.

Lemma join_split_dots (w : list ascii) : join_dots (split_dots w) = w.
Proof.
  induction w as [| c w IH]; simpl; [reflexivity |].
  pose proof (split_dots_nonempty w) as Hne.
  destruct (is_dot c) eqn:Hc.
  - apply is_dot_eq in Hc as ->.
    destruct (split_dots w) as [| l ls]; [contradiction |].
    simpl in *. rewrite IH. reflexivity.
  - destruct (split_dots w) as [| l ls]; [contradiction |].
    destruct ls; simpl in *; rewrite <- IH; reflexivity.
Qed.

Lemma split_dots_dotfree (l : list ascii) : dotfree l -> split_dots l = [l].
Proof.
  unfold dotfree. induction l as [| c l IH]; simpl; [reflexivity |].
  intros H. apply andb_true_iff in H as [Hc Hl]. apply negb_true_iff in Hc.
  rewrite Hc, (IH Hl). reflexivity.
Qed.

Lemma split_dots_app (l w : list ascii) :
  dotfree l -> split_dots (l ++ "."%char :: w) = l :: split_dots w.
Proof.
  unfold dotfree. induction l as [| c l IH]; simpl; [reflexivity |].
  intros H. apply andb_true_iff in H as [Hc Hl]. apply negb_true_iff in Hc.
  rewrite Hc, (IH Hl). reflexivity.
Qed.

Lemma join_dots_snoc (ls : list (list ascii)) (tld : list ascii) :
  join_dots (ls ++ [tld]) = concat (map (fun l => l ++ ["."%char]) ls) ++ tld.
Proof.
  induction ls as [| l ls IH]; simpl; [reflexivity |].
  rewrite <- !app_assoc, <- IH. simpl.
  destruct (ls ++ [tld]) eqn:E; [destruct ls; discriminate | reflexivity].
Qed.

Lemma split_join_dots (ls : list (list ascii)) (tld : list ascii) :
  Forall dotfree ls -> dotfree tld ->
  split_dots (join_dots (ls ++ [tld])) = ls ++ [tld].
Proof.
  intros Hls Htld. induction Hls as [| l ls Hl Hls IH].
  - simpl. apply split_dots_dotfree. assumption.
  - change ((l :: ls) ++ [tld]) with (l :: (ls ++ [tld])).
    assert (E : join_dots (l :: (ls ++ [tld])) = l ++ "."%char :: join_dots (ls ++ [tld])).
    { simpl. destruct (ls ++ [tld]) eqn:E; [destruct ls; discriminate | reflexivity]. }
    rewrite E, split_dots_app, IH by assumption. reflexivity.
Qed.

Lemma label_ok_dotfree (l : list ascii) : label_ok l = true -> dotfree l.
Proof.
  rewrite label_ok_iff. intros (_ & _ & Hall & _). unfold dotfree.
  induction l as [| c l IH]; simpl in *; [reflexivity |].
  apply andb_true_iff in Hall as [Hc Hl]. rewrite (IH Hl), andb_true_r.
  unfold is_dot. destruct (Ascii.eqb_spec c "."); [subst; discriminate Hc | reflexivity].
Qed.

(** The words of the domain pattern: one label or more, each followed
    by a dot, then a last label of two characters or more. *)
Lemma lang_domainRegex (w : list ascii) :
  Regex.lang domainRegex w <->
  exists ls tld, ls <> [] /\ Forall (fun l => label_ok l = true) ls /\
                 label_ok tld = true /\ (2 <= length tld)%nat /\
                 w = join_dots (ls ++ [tld]).
Proof.
  unfold domainRegex, Regex.Plus.
  assert (Hg : forall g, Regex.lang (Regex.Cat labelRegex (Regex.Cls is_dot)) g <->
                         exists l, g = l ++ ["."%char] /\ label_ok l = true).
  { intros g. cbn [Regex.lang]. split.
    - intros (l & d & -> & Hl & c & -> & Hc). apply is_dot_eq in Hc as ->.
      exists l. split; [reflexivity | apply lang_label_ok; assumption].
    - intros (l & -> & Hl). exists l, ["."%char].
      split; [reflexivity |]. split; [apply lang_label_ok; assumption |].
      exists "."%char. auto. }
  assert (Hgs : forall gs, Forall (Regex.lang (Regex.Cat labelRegex (Regex.Cls is_dot))) gs <->
                           exists ls, gs = map (fun l => l ++ ["."%char]) ls /\
                                      Forall (fun l => label_ok l = true) ls).
  { intros gs. split.
    - induction 1 as [| g gs Hgx _ (ls & -> & Hls)].
      + exists []. auto.
      + apply Hg in Hgx as (l & -> & Hl). exists (l :: ls). auto.
    - intros (ls & -> & Hls). induction Hls as [| l ls Hl _ IH]; simpl; constructor.
      + apply Hg. exists l. auto.
      + assumption. }
  remember (Regex.Cat labelRegex (Regex.Cls is_dot)) as G.
  cbn [Regex.lang]. split.
  - intros (w1 & t & -> & (g & w2 & -> & Hgl & gs & -> & Hall) & Ht).
    apply Hg in Hgl as (l & -> & Hl). apply Hgs in Hall as (ls & -> & Hls).
    apply lang_tldRegex, two_ended_label_ok in Ht as [Ht Hlen].
    exists (l :: ls), t. split; [discriminate |]. split; [auto |].
    split; [assumption |]. split; [assumption |].
    rewrite join_dots_snoc. reflexivity.
  - intros (ls & t & Hne & Hls & Ht & Hlen & ->).
    destruct ls as [| l ls]; [contradiction |].
    inversion Hls as [| ? ? Hl Hls']; subst.
    rewrite join_dots_snoc. simpl.
    exists ((l ++ ["."%char]) ++ concat (map (fun l0 => l0 ++ ["."%char]) ls)), t.
    split; [reflexivity |]. split.
    + exists (l ++ ["."%char]), (concat (map (fun l0 => l0 ++ ["."%char]) ls)).
      split; [reflexivity |]. split; [apply Hg; eauto |].
      exists (map (fun l0 => l0 ++ ["."%char]) ls). split; [reflexivity |].
      apply Hgs. eauto.
    + apply lang_tldRegex, two_ended_label_ok. auto.
Qed.

(** C9, as the code has it: [isValidDomain] accepts exactly the names
    made of two or more labels separated by dots, where each label has 1
    to 63 letters, digits and hyphens (in either case) with no hyphen at
    its start or end, and where the last label has at least two
    characters.  The function computes a boolean from the characters of
    its argument and nothing else. *)
Theorem isValidDomain_dotted_name (s : string) :
  isValidDomain s = dotted_name_ok s.
Proof.
  apply eq_true_iff_eq. unfold isValidDomain, Regex.test, dotted_name_ok.
  rewrite matches_lang, lang_domainRegex.
  set (w := list_ascii_of_string s).
  rewrite !andb_true_iff, !Nat.leb_le, forallb_forall. split.
  - intros (ls & tld & Hne & Hls & Ht & Hlen & Hw).
    assert (Hsplit : split_dots w = ls ++ [tld]).
    { rewrite Hw. apply split_join_dots.
      - eapply Forall_impl; [exact Hls |]. intros l. apply label_ok_dotfree.
      - apply label_ok_dotfree. assumption. }
    rewrite Hsplit, last_last, length_app. simpl. split; [split |].
    + destruct ls; [contradiction | simpl; lia].
    + intros l Hin. apply in_app_or in Hin as [Hin | [<- | []]]; [| assumption].
      rewrite Forall_forall in Hls. apply Hls. apply list_elem_of_In. assumption.
    + assumption.
  - intros [[Hcount Hall] Hlen].
    pose proof (join_split_dots w) as Hjoin.
    pose proof (split_dots_nonempty w) as Hne.
    rewrite (app_removelast_last [] Hne) in Hjoin, Hall, Hcount.
    rewrite length_app in Hcount. simpl in Hcount.
    exists (removelast (split_dots w)), (List.last (split_dots w) []).
    split; [intros E; rewrite E in Hcount; simpl in Hcount; lia |].
    split; [| split; [| split; [assumption | symmetry; assumption]]].
    + apply Forall_forall. intros l Hin. apply Hall, in_or_app. left.
      apply list_elem_of_In. assumption.
    + apply Hall, in_or_app. right. left. reflexivity.
Qed.

(** C9, counterexample: ["a.b"] is made of two labels separated by a
    dot, each of one letter, and [isValidDomain] refuses it, because the
    last label of the pattern has two characters or more. *)
Lemma isValidDomain_refuses_short_tld :
  spec_isValidDomain "a.b" = true /\ isValidDomain "a.b" = false.
Proof. split; vm_compute; reflexivity. Qed.

(** A name without a dot is refused as well, whatever its label. *)
Lemma isValidDomain_needs_a_dot :
  isValidDomain "localhost" = false /\ isValidDomain "com" = false.
Proof. split; vm_compute; reflexivity. Qed.

(** Case does not matter, and a name is tested as it is, spaces
    included. *)
Lemma isValidDomain_examples :
  isValidDomain "example.com" = true /\ isValidDomain "EXAMPLE.Com" = true /\
  isValidDomain "not a domain" = false /\ isValidDomain " example.com" = false /\
  isValidDomain "a-b.c-d" = true /\ isValidDomain "-a.com" = false /\
  isValidDomain "a-.com" = false /\ isValidDomain "a..com" = false.
Proof. repeat split; vm_compute; reflexivity. Qed.

(** ** Scorer *)

(** C2: the score is the sum of the weights 40/20/0 for DMARC, 30/15/0
    for SPF and 30/15/0 for DKIM; it lies between 0 and 100; and
    replacing one status of the triple by a strictly better one never
    lowers it.  Being a function of the three statuses, it is
    deterministic. *)
Theorem securityScore_weights (d s k : Status) :
  _calculateSecurityScore d s k =
    ((match d with ok => 40 | warning => 20 | error => 0 end)
     + (match s with ok => 30 | warning => 15 | error => 0 end)
     + (match k with ok => 30 | warning => 15 | error => 0 end))%Z /\
  (0 <= _calculateSecurityScore d s k <= 100)%Z /\
  (forall d', strictly_better d' d ->
     (_calculateSecurityScore d s k <= _calculateSecurityScore d' s k)%Z) /\
  (forall s', strictly_better s' s ->
     (_calculateSecurityScore d s k <= _calculateSecurityScore d s' k)%Z) /\
  (forall k', strictly_better k' k ->
     (_calculateSecurityScore d s k <= _calculateSecurityScore d s k')%Z).
Proof.
  split; [destruct d, s, k; reflexivity |].
  split; [destruct d, s, k; cbv; split; discriminate |].
  split; [| split]; intros x Hx; destruct d, s, k, x; try contradiction;
    cbv; discriminate.
Qed.

(** The triple error / warning / ok scores 45, and 65 once DMARC is
    warning. *)
Lemma securityScore_weights_witness :
  _calculateSecurityScore error warning ok = 45%Z /\
  (_calculateSecurityScore error warning ok <= _calculateSecurityScore warning warning ok)%Z.
Proof.
  destruct (securityScore_weights error warning ok) as (Hsum & _ & Hd & _).
  split; [exact Hsum | apply Hd; exact I].
Defined.

(** ** Record parser *)

Lemma first_including_none (token : string) (records : list string) :
  (forall rec, In rec records -> includes token rec = false) ->
  first_including token records = None.
Proof.
  unfold first_including. induction records as [| r rs IH]; simpl; intros H.
  - reflexivity.
  - rewrite (H r) by auto. apply IH. intros rec Hin. apply H. auto.
Qed.

Lemma first_including_first (token : string) (pre : list string) (rec : string)
  (post : list string) :
  (forall x, In x pre -> includes token x = false) ->
  includes token rec = true ->
  first_including token (pre ++ rec :: post) = Some rec.
Proof.
  unfold first_including. induction pre as [| r rs IH]; simpl; intros Hpre Hrec.
  - rewrite Hrec. reflexivity.
  - rewrite (Hpre r) by auto. apply IH; auto.
Qed.

Lemma dnsLookup_resolved (port : Port) (name : string) (type : RecordType)
  (st : State) (a : option (list string)) (w' : World) :
  port name type (snd st) = (Resolved a, w') ->
  dnsLookup port name type st = (Resolved a, (fst st, count_lookup w')).
Proof. unfold dnsLookup. intros ->. reflexivity. Qed.

(** *** The text of a record and the functions that search it *)

Lemma code_fold_case (c : ascii) :
  code (fold_case c) = if is_upper c then (code c + 32)%nat else code c.
Proof.
  unfold fold_case. destruct (is_upper c) eqn:Hu; [| reflexivity].
  unfold code. apply nat_ascii_embedding.
  unfold is_upper, between, code in Hu.
  apply andb_true_iff in Hu as [_ Hu]. apply Nat.leb_le in Hu. lia.
Qed.

Lemma code_inj (a b : ascii) : code a = code b -> a = b.
Proof.
  unfold code. intros H.
  rewrite <- (ascii_nat_embedding a), <- (ascii_nat_embedding b), H. reflexivity.
Qed.

Lemma fold_case_same_letter (a b : ascii) :
  fold_case a = fold_case b <-> same_letter a b.
Proof.
  unfold same_letter. split.
  - intros H. apply (f_equal code) in H. rewrite !code_fold_case in H.
    unfold is_upper, between in H.
    destruct (65 <=? code a)%nat eqn:A1; destruct (code a <=? 90)%nat eqn:A2;
      destruct (65 <=? code b)%nat eqn:B1; destruct (code b <=? 90)%nat eqn:B2;
      cbn [andb] in H;
      repeat match goal with
             | E : (_ <=? _)%nat = true |- _ => apply Nat.leb_le in E
             | E : (_ <=? _)%nat = false |- _ => apply Nat.leb_gt in E
             end;
      first [ left; apply code_inj; lia | right; left; lia | right; right; lia ].
  - intros [-> | [[Ha Hb] | [Hb Ha]]]; [reflexivity | |];
      apply code_inj; rewrite !code_fold_case; unfold is_upper, between.
    + replace (65 <=? code a)%nat with true by (symmetry; apply Nat.leb_le; lia).
      replace (code a <=? 90)%nat with true by (symmetry; apply Nat.leb_le; lia).
      replace (code b <=? 90)%nat with false by (symmetry; apply Nat.leb_gt; lia).
      rewrite andb_false_r. cbn [andb]. lia.
    + replace (65 <=? code b)%nat with true by (symmetry; apply Nat.leb_le; lia).
      replace (code b <=? 90)%nat with true by (symmetry; apply Nat.leb_le; lia).
      replace (code a <=? 90)%nat with false by (symmetry; apply Nat.leb_gt; lia).
      rewrite andb_false_r. cbn [andb]. lia.
Qed.

Lemma same_ci_spelled (t lit : string) : same_ci t lit <-> spelled t lit.
Proof.
  unfold same_ci, spelled. revert lit.
  induction t as [| a t IH]; intros [| b lit]; cbn [list_ascii_of_string map].
  - split; [constructor | reflexivity].
  - split; [discriminate | intros H; inversion H].
  - split; [discriminate | intros H; inversion H].
  - split.
    + intros H. injection H as Hab Hrest. constructor.
      * apply fold_case_same_letter. assumption.
      * apply IH. assumption.
    + intros H. inversion H as [| ? ? ? ? Hab Hrest]; subst.
      apply fold_case_same_letter in Hab. apply IH in Hrest. congruence.
Qed.




Section Classes.

(** A class of the engine and the set of characters it stands for. *)
Variable cls : ascii -> bool.
Variable P : ascii -> Prop.
Hypothesis cls_P : forall c, cls c = true <-> P c.

Lemma all_in_Forall (v : string) :
  all_in cls v <-> Forall P (list_ascii_of_string v).
Proof.
  unfold all_in. rewrite forallb_forall, List.Forall_forall.
  split; intros H c Hc; apply cls_P, H, Hc.
Qed.

Lemma stops_ends_run (post : string) : stops cls post <-> ends_run P post.
Proof.
  destruct post as [| c post]; cbn [stops ends_run]; [tauto |].
  rewrite <- cls_P. destruct (cls c); split; congruence.
Qed.

(** The pattern matches after [pre] exactly when it succeeds at the
    head of what follows [pre]. *)
Lemma captured_at_capture_here (lit s pre v : string) :
  captured_at lit P s pre v <->
  exists rest, s = pre +:+ rest /\ capture_here lit cls rest = Some v.
Proof.
  unfold captured_at. split.
  - intros (t & post & -> & Ht & Hv & Hall & Hstop).
    exists (t +:+ v +:+ post). split; [reflexivity |].
    apply capture_here_spec. exists t, post.
    split; [reflexivity |]. split; [apply same_ci_spelled; assumption |].
    split; [assumption |].
    split; [apply all_in_Forall | apply stops_ends_run]; assumption.
  - intros (rest & -> & Hh).
    apply capture_here_spec in Hh as (t & post & -> & Ht & Hv & Hall & Hstop).
    exists t, post. split; [reflexivity |].
    split; [apply same_ci_spelled; assumption |].
    split; [assumption |].
    split; [apply all_in_Forall | apply stops_ends_run]; assumption.
Qed.

(** [match_capture] computes what [captures] describes. *)
Lemma captures_match_capture (lit s : string) (o : option string) :
  captures lit P s o <-> match_capture lit cls s = o.
Proof.
  destruct o as [v |]; cbn [captures]; split.
  - intros (pre & Hat & Hfirst).
    apply captured_at_capture_here in Hat as (rest & E & Hh).
    apply match_capture_leftmost. exists pre, rest.
    split; [assumption |]. split; [assumption |].
    intros pre' rest' E' Hlt.
    destruct (capture_here lit cls rest') as [v' |] eqn:Hh'; [| reflexivity].
    assert (Hat' : captured_at lit P s pre' v')
      by (apply captured_at_capture_here; eauto).
    apply Hfirst in Hat'. lia.
  - intros H. apply match_capture_leftmost in H as (pre & rest & E & Hh & Hleft).
    exists pre. split; [apply captured_at_capture_here; eauto |].
    intros pre' v' Hat'.
    apply captured_at_capture_here in Hat' as (rest' & E' & Hh').
    destruct (le_lt_dec (String.length pre) (String.length pre')) as [Hle | Hlt];
      [assumption |].
    rewrite (Hleft pre' rest' E' Hlt) in Hh'. discriminate.
  - intros Hnone. apply match_capture_nowhere. intros pre rest E.
    destruct (capture_here lit cls rest) as [v |] eqn:Hh; [| reflexivity].
    exfalso. apply (Hnone pre v). apply captured_at_capture_here. eauto.
  - intros H pre v Hat.
    apply captured_at_capture_here in Hat as (rest & E & Hh).
    rewrite (proj1 (match_capture_nowhere lit cls s) H pre rest E) in Hh.
    discriminate.
Qed.

(** A text has one reading. *)
Lemma captures_unique (lit s : string) (o o' : option string) :
  captures lit P s o -> captures lit P s o' -> o = o'.
Proof.
  intros H H'. apply captures_match_capture in H, H'. congruence.
Qed.

End Classes.








(** C4: [_checkSpf] on the TXT records of the domain itself.  Without a
    record that contains [v=spf1] (an empty answer included) the status
    is [error].  Otherwise the first such record is the SPF record and
    its status follows this order: [?all] gives [warning]; else [+all]
    gives [warning]; else neither [-all] nor [~all] gives [warning];
    else [ok]. *)
Theorem checkSpf_precedence (port : Port) (domain : string) (st : State)
  (records : list string) (w' : World) :
  port domain TXT (snd st) = (Resolved (Some records), w') ->
  exists r,
    _checkSpf port domain st = (Resolved r, (fst st, count_lookup w')) /\
    ((forall rec, In rec records -> includes "v=spf1" rec = false) ->
       spf_status r = error /\ spf_record r = "") /\
    (forall pre rec post,
       records = pre ++ rec :: post ->
       (forall x, In x pre -> includes "v=spf1" x = false) ->
       includes "v=spf1" rec = true ->
       spf_record r = rec /\
       (includes "?all" rec = true -> spf_status r = warning) /\
       (includes "?all" rec = false -> includes "+all" rec = true ->
          spf_status r = warning) /\
       (includes "?all" rec = false -> includes "+all" rec = false ->
          includes "-all" rec = false -> includes "~all" rec = false ->
          spf_status r = warning) /\
       (includes "?all" rec = false -> includes "+all" rec = false ->
          includes "-all" rec = true \/ includes "~all" rec = true ->
          spf_status r = ok)).
Proof.
  intros Hport. exists (analyzeSpf (Some records)).
  split; [| split].
  - unfold _checkSpf, try_catch, bind, ret.
    rewrite (dnsLookup_resolved _ _ _ _ _ _ Hport). reflexivity.
  - intros Hnone. unfold analyzeSpf.
    rewrite (first_including_none _ _ Hnone). destruct records; auto.
  - intros pre rec post -> Hpre Hrec. unfold analyzeSpf.
    rewrite (first_including_first _ _ _ _ Hpre Hrec).
    assert (Hshape : match pre ++ rec :: post with
                     | [] => mkSpf error "" None
                     | _ :: _ => match Some rec with
                                 | Some "" | None => mkSpf error "" None
                                 | Some spfRecord => spf_of_record spfRecord
                                 end
                     end = spf_of_record rec).
    { destruct pre; simpl; (destruct rec; [discriminate Hrec | reflexivity]). }
    rewrite Hshape. clear Hshape. unfold spf_of_record. simpl.
    split; [reflexivity |].
    split; [intros ->; reflexivity |].
    split; [intros -> ->; reflexivity |].
    split; [intros -> -> -> ->; reflexivity |].
    intros -> -> [-> | ->]; simpl; [reflexivity |].
    rewrite andb_false_r. reflexivity.
Qed.

(** The record that the source's lookup returns for [example.com]. *)
Lemma checkSpf_precedence_witness :
  exists r,
    _checkSpf _dnsLookup "example.com" (new_client, constant_world 0)
      = (Resolved r, (new_client, count_lookup (constant_world 0))) /\
    spf_record r = "v=spf1 include:_spf.example.com -all" /\
    spf_status r = ok.
Proof.
  destruct (checkSpf_precedence _dnsLookup "example.com"
              (new_client, constant_world 0)
              ["v=spf1 include:_spf.example.com -all"]
              (constant_world 0) eq_refl) as (r & Hrun & _ & Hfound).
  destruct (Hfound [] "v=spf1 include:_spf.example.com -all" []
              eq_refl (fun x (H : In x []) => match H with end) eq_refl)
    as (Hrec & _ & _ & _ & Hok).
  exists r. split; [exact Hrun |]. split; [exact Hrec |].
  apply Hok; [reflexivity | reflexivity | left; reflexivity].
Defined.

Lemma selector_found_answer (a : option (list string)) :
  selector_found a = answer_found (Resolved a).
Proof.
  destruct a as [[| r rs] |]; reflexivity.
Qed.

Lemma probe_selector_answer (port : Port) (domain selector : string) (st : State) :
  probe_selector port domain selector st =
    let (o, w) := port (selector +:+ "._domainkey." +:+ domain) TXT (snd st) in
    (Resolved (answer_found o), (fst st, count_lookup w)).
Proof.
  unfold probe_selector, try_catch, bind, ret, dnsLookup.
  destruct (port _ TXT (snd st)) as [[a | msg] w]; simpl.
  - rewrite selector_found_answer. reflexivity.
  - reflexivity.
Qed.

Lemma probe_selectors_answers (port : Port) (domain : string) (selectors : list string) :
  forall (foundSelectors : list string) (st : State),
    probe_selectors port domain selectors foundSelectors st =
      let (os, w) := answers port
                       (map (fun sel => sel +:+ "._domainkey." +:+ domain) selectors)
                       TXT (snd st) in
      (Resolved (foundSelectors
                 ++ map fst (List.filter (fun p => answer_found (snd p))
                                         (combine selectors os))),
       (fst st, w)).
Proof.
  induction selectors as [| sel rest IH]; intros found st; simpl.
  - unfold ret. rewrite app_nil_r. destruct st; reflexivity.
  - unfold bind. rewrite probe_selector_answer.
    destruct (port _ TXT (snd st)) as [o w1]. rewrite IH. simpl.
    destruct (answers port _ TXT (count_lookup w1)) as [os w2]. simpl.
    destruct (answer_found o); simpl; [rewrite <- app_assoc |]; reflexivity.
Qed.

(** The test that the loop makes on a record, said on its text. *)
Lemma is_dkim_record_occurs (record : string) :
  is_dkim_record record = true <->
  occurs "v=DKIM1" record \/ occurs "k=rsa" record \/ occurs "p=" record.
Proof.
  unfold is_dkim_record, occurs.
  rewrite !orb_true_iff, !includes_occurs. tauto.
Qed.

Lemma answer_found_shows_key (o : Outcome (option (list string))) :
  answer_found o = true <-> shows_key o.
Proof.
  unfold shows_key. split.
  - destruct o as [[records |] | msg]; cbn [answer_found]; try discriminate.
    intros H. apply existsb_exists in H as (rec & Hin & Hrec).
    exists records, rec. split; [reflexivity |]. split; [assumption |].
    apply is_dkim_record_occurs. assumption.
  - intros (records & rec & -> & Hin & Hrec). cbn [answer_found].
    apply existsb_exists. exists rec. split; [assumption |].
    apply is_dkim_record_occurs. assumption.
Qed.

(** The selectors that the loop collects are those whose answer shows
    a key, and no other list is. *)
Lemma found_among_filter (sels : list string)
  (os : list (Outcome (option (list string)))) :
  length os = length sels ->
  found_among sels os
    (map fst (List.filter (fun p => answer_found (snd p)) (combine sels os))).
Proof.
  revert os. induction sels as [| sel sels IH]; intros [| o os] Hlen;
    try discriminate Hlen.
  - constructor.
  - injection Hlen as Hlen. cbn [combine List.filter snd].
    destruct (answer_found o) eqn:Ho; cbn [map fst].
    + apply found_here; [apply answer_found_shows_key; assumption | auto].
    + apply found_skip; [| auto].
      intros H. apply answer_found_shows_key in H. congruence.
Qed.

Lemma found_among_unique (sels : list string)
  (os : list (Outcome (option (list string)))) (found : list string) :
  found_among sels os found ->
  found = map fst (List.filter (fun p => answer_found (snd p)) (combine sels os)).
Proof.
  induction 1 as [| sel sels o os found Ho _ IH | sel sels o os found Ho _ IH];
    cbn [combine List.filter snd].
  - reflexivity.
  - apply answer_found_shows_key in Ho. rewrite Ho. cbn [map fst]. congruence.
  - destruct (answer_found o) eqn:E; [| assumption].
    exfalso. apply Ho, answer_found_shows_key. assumption.
Qed.

Lemma answers_length (port : Port) (names : list string) (type : RecordType) :
  forall w, length (fst (answers port names type w)) = length names.
Proof.
  induction names as [| name rest IH]; intros w; cbn [answers]; [reflexivity |].
  destruct (port name type w) as [o w1]. specialize (IH (count_lookup w1)).
  destruct (answers port rest type (count_lookup w1)) as [os w2].
  cbn [fst length] in *. congruence.
Qed.

(** C5: [_checkDkim] asks for the selectors default, google, selector1,
    selector2, k1, dkim in this order, each at
    [<selector>._domainkey.<domain>], and every one of them whatever
    the answers before it.  A selector is found when its lookup
    resolves with records of which one has [v=DKIM1], [k=rsa] or [p=]
    in its text; a failed lookup counts as not found and the check goes
    on.  The result lists the found selectors in the order asked, with
    status [error] for none, [warning] for one and [ok] for two or
    more. *)
Theorem checkDkim_selectors (port : Port) (domain : string) (st : State)
  (os : list (Outcome (option (list string)))) (w : World) :
  answers port
          (map (fun sel => sel +:+ "._domainkey." +:+ domain)
               ["default"; "google"; "selector1"; "selector2"; "k1"; "dkim"])
          TXT (snd st) = (os, w) ->
  exists found,
    found_among ["default"; "google"; "selector1"; "selector2"; "k1"; "dkim"] os found /\
    _checkDkim port domain st =
      (Resolved (mkDkim (match length found with
                         | O => error
                         | 1%nat => warning
                         | _ => ok
                         end) found None),
       (fst st, w)).
Proof.
  intros Hos.
  exists (map fst (List.filter (fun p => answer_found (snd p))
                               (combine commonSelectors os))).
  split.
  - apply found_among_filter.
    pose proof (answers_length port
                  (map (fun sel => sel +:+ "._domainkey." +:+ domain) commonSelectors)
                  TXT (snd st)) as Hlen.
    unfold commonSelectors in Hlen at 1. rewrite Hos in Hlen. exact Hlen.
  - unfold _checkDkim, try_catch, bind. rewrite probe_selectors_answers.
    unfold commonSelectors at 1. rewrite Hos. simpl.
    unfold ret. do 2 f_equal. unfold dkim_status_of.
    destruct (map fst _) as [| a [| b l]]; reflexivity.
Qed.

(** A domain with keys under [google], [k1] and [dkim], whose lookup of
    [selector1] fails: the three selectors are found, in the order
    asked, the status is [ok], and six lookups were made. *)
Lemma checkDkim_selectors_witness :
  _checkDkim dkim_port "example.com" (new_client, constant_world 0)
    = (Resolved (mkDkim ok ["google"; "k1"; "dkim"] None),
       (new_client, mkWorld (fun _ => 0%Z) 0 6 0)).
Proof.
  edestruct (checkDkim_selectors dkim_port "example.com" (new_client, constant_world 0))
    as (found & Hfound & Hrun); [vm_compute; reflexivity |].
  apply found_among_unique in Hfound. vm_compute in Hfound. subst found.
  exact Hrun.
Defined.

(** One found selector gives [warning], none gives [error]; a record
    counts for its text alone, wherever the token stands in it. *)
Lemma dkim_examples :
  fst (_checkDkim (fun name _ w =>
                     if startsWith "selector2." name
                     then (Resolved (Some ["v=DKIM1; k=rsa; p=MIGfMA0"]), w)
                     else (Resolved (Some []), w))
                  "example.com" (new_client, constant_world 0))
    = Resolved (mkDkim warning ["selector2"] None) /\
  fst (_checkDkim (constant_port ["v=spf1 -all"]) "example.com"
                  (new_client, constant_world 0))
    = Resolved (mkDkim error [] None) /\
  fst (_checkDkim failing_port "example.com" (new_client, constant_world 0))
    = Resolved (mkDkim error [] None) /\
  fst (_checkDkim (constant_port ["v=spf1 ip4:192.0.2.1 -all"; "exp=explain"])
                  "example.com" (new_client, constant_world 0))
    = Resolved (mkDkim ok commonSelectors None).
Proof. repeat split; vm_compute; reflexivity. Qed.

(** ** Mode selection *)

(** C6, as the code has it: the offline availability check makes a test
    TXT lookup for [example.com] and answers true exactly when the
    lookup resolves with an array, whether it holds records or not; a
    failed lookup and an answer that is no array give false. *)
Theorem offline_available_iff_array (port : Port) (st : State) :
  fst (checkOfflineModeAvailability port st) =
    Resolved (match fst (port "example.com" TXT (snd st)) with
              | Resolved (Some _) => true
              | _ => false
              end).
Proof.
  unfold checkOfflineModeAvailability, try_catch, bind, ret, dnsLookup.
  destruct (port "example.com" TXT (snd st)) as [[[records |] | msg] w]; reflexivity.
Qed.

(** C6, counterexample: the test lookup returns the empty list and the
    check answers true. *)
Lemma offline_available_on_empty_answer :
  fst (constant_port [] "example.com" TXT (constant_world 0)) = Resolved (Some []) /\
  fst (checkOfflineModeAvailability (constant_port []) (new_client, constant_world 0))
    = Resolved true.
Proof. split; reflexivity. Qed.

(** ** Single domain checks *)

Lemma try_catch_resolves {A} (c : M A) (f : string -> A) (st : State) :
  exists a st', try_catch c (fun msg => ret (f msg)) st = (Resolved a, st').
Proof.
  unfold try_catch, ret. destruct (c st) as [[a | msg] st']; eauto.
Qed.

Lemma keeps_ret {A} (a : A) : keeps_client (ret a).
Proof. intros st. reflexivity. Qed.

Lemma keeps_bind {A B} (c : M A) (k : A -> M B) :
  keeps_client c -> (forall a, keeps_client (k a)) -> keeps_client (bind c k).
Proof.
  intros Hc Hk st. unfold bind. specialize (Hc st).
  destruct (c st) as [[a | msg] st']; simpl in *; [| assumption].
  rewrite Hk. assumption.
Qed.

Lemma keeps_try_catch {A} (c : M A) (h : string -> M A) :
  keeps_client c -> (forall msg, keeps_client (h msg)) -> keeps_client (try_catch c h).
Proof.
  intros Hc Hh st. unfold try_catch. specialize (Hc st).
  destruct (c st) as [[a | msg] st']; simpl in *; [assumption |].
  rewrite Hh. assumption.
Qed.

Lemma keeps_lift_world {A} (f : World -> A * World) : keeps_client (lift_world f).
Proof. intros st. unfold lift_world. destruct (f (snd st)). reflexivity. Qed.

Lemma keeps_dnsLookup (port : Port) (name : string) (type : RecordType) :
  keeps_client (dnsLookup port name type).
Proof. intros st. unfold dnsLookup. destruct (port name type (snd st)). reflexivity. Qed.

Lemma keeps_probe_selectors (port : Port) (domain : string) (selectors : list string) :
  forall found, keeps_client (probe_selectors port domain selectors found).
Proof.
  induction selectors as [| sel rest IH]; intros found; simpl.
  - apply keeps_ret.
  - apply keeps_bind; [| intros b; apply IH].
    apply keeps_try_catch; [| intros; apply keeps_ret].
    apply keeps_bind; [apply keeps_dnsLookup | intros; apply keeps_ret].
Qed.

Ltac keeps :=
  repeat first
    [ apply keeps_ret
    | apply keeps_lift_world
    | apply keeps_dnsLookup
    | apply keeps_probe_selectors
    | apply keeps_try_catch; [| intros ?]
    | apply keeps_bind; [| intros ?]
    | match goal with |- keeps_client (match ?x with _ => _ end) => destruct x end ].

Lemma keeps_simulate (d : string) : keeps_client (_simulateDomainCheck d).
Proof. unfold _simulateDomainCheck. keeps. Qed.

Lemma keeps_offline (port : Port) (d : string) : keeps_client (_checkDomainOffline port d).
Proof.
  unfold _checkDomainOffline, _getMxRecords, _checkDmarc, _checkSpf, _checkDkim. keeps.
Qed.

Lemma keeps_mode_strategy (port : Port) (m d : string) :
  keeps_client (mode_strategy port m d).
Proof.
  unfold mode_strategy, _checkDomainViaApi, _checkDomainViaWeb.
  apply keeps_bind; [apply keeps_lift_world | intros _].
  repeat match goal with |- keeps_client (if ?b then _ else _) => destruct b end;
    first [apply keeps_simulate | apply keeps_offline].
Qed.

Lemma mode_strategy_resolves (port : Port) (m d : string) (st : State) :
  exists r w, mode_strategy port m d st = (Resolved r, (fst st, w)).
Proof.
  pose proof (keeps_mode_strategy port m d st) as Hkeep.
  assert (H : exists r st', mode_strategy port m d st = (Resolved r, st')).
  { unfold mode_strategy, bind, lift_world. simpl.
    unfold _checkDomainViaApi, _checkDomainViaWeb.
    repeat match goal with |- context [if ?b then _ else _] => destruct b end;
      apply try_catch_resolves. }
  destruct H as (r & [c w] & E). rewrite E in Hkeep. simpl in Hkeep. subst c.
  exists r, w. assumption.
Qed.

(** What [checkDomain] does before its first [await]: it reads the
    client and changes nothing. *)
Lemma checkDomain_begin_run (v : JsValue) (st : State) :
  checkDomain_begin v st =
    (Resolved
       (if negb (truthy v) || negb (is_string v) then
          inl (_getErrorResult "unknown" "Не указан домен для проверки")
        else if negb (isValidDomain (normalized v)) then
          inl (_getErrorResult (normalized v) "Некорректный формат доменного имени")
        else if cacheEnabled (fst st) then
          match cache (fst st) !! normalized v with
          | Some cached => inl cached
          | None => inr (mode (fst st), normalized v)
          end
        else inr (mode (fst st), normalized v)),
     st).
Proof.
  unfold checkDomain_begin.
  destruct (negb (truthy v) || negb (is_string v)); [reflexivity |].
  destruct (negb (isValidDomain (normalized v))); [reflexivity |].
  unfold bind, get_client.
  destruct (cacheEnabled (fst st)); [| reflexivity].
  destruct (cache (fst st) !! normalized v); reflexivity.
Qed.

(** The strategy resolves, and its result goes into the cache when
    caching is on. *)
Lemma checkDomain_finish_run (port : Port) (m d : string) (st : State) :
  exists r w,
    mode_strategy port m d st = (Resolved r, (fst st, w)) /\
    checkDomain_finish port m d st =
      (Resolved r,
       ((if cacheEnabled (fst st)
         then set_cache (<[d := r]> (cache (fst st))) (fst st)
         else fst st), w)).
Proof.
  destruct (mode_strategy_resolves port m d st) as (r & w & E).
  exists r, w. split; [assumption |].
  unfold checkDomain_finish, bind. rewrite E. unfold get_client. simpl.
  destruct (cacheEnabled (fst st)); reflexivity.
Qed.

Lemma error_result_is_error (d msg : string) :
  msg <> "" -> is_error_result (_getErrorResult d msg).
Proof.
  intros Hmsg. unfold is_error_result, _getErrorResult. simpl.
  split; [exists msg; auto | auto 6].
Qed.

(** C10: [checkDomain] resolves on every input and never rejects.  An
    input that is missing, empty or no string gives an error result for
    the domain ["unknown"], and a name of invalid format gives an error
    result as well; neither touches the client.  An error result has a
    message, [error] for the three statuses, empty record, policy,
    selectors and mx, and the score 0. *)
Theorem checkDomain_total (port : Port) (v : JsValue) (st : State) :
  exists r st',
    checkDomain port v st = (Resolved r, st') /\
    (truthy v = false \/ is_string v = false ->
       st' = st /\ domain r = "unknown" /\ is_error_result r) /\
    (isValidDomain (normalized v) = false ->
       st' = st /\ is_error_result r) /\
    (forall d msg,
       dmarc (_getErrorResult d msg) = mkDmarc error "" "" None /\
       spf (_getErrorResult d msg) = mkSpf error "" None /\
       dkim (_getErrorResult d msg) = mkDkim error [] None /\
       mx (_getErrorResult d msg) = [] /\
       securityScore (_getErrorResult d msg) = 0%Z /\
       domain (_getErrorResult d msg) = d /\
       errorMessage (_getErrorResult d msg) = Some msg).
Proof.
  unfold checkDomain, try_catch, bind. rewrite checkDomain_begin_run.
  destruct (negb (truthy v) || negb (is_string v)) eqn:Hmissing.
  { eexists _, st. split; [reflexivity |].
    split; [intros _ | split; [intros _ | intros; repeat split]];
      (split; [reflexivity |]); try (split; [reflexivity |]);
      apply error_result_is_error; discriminate. }
  apply orb_false_iff in Hmissing as [Ht Hs].
  apply negb_false_iff in Ht, Hs.
  destruct (isValidDomain (normalized v)) eqn:Hvalid; simpl.
  2:{ eexists _, st. split; [reflexivity |].
      split; [intros [H | H]; congruence |].
      split; [intros _ | intros; repeat split].
      split; [reflexivity |]. apply error_result_is_error. discriminate. }
  assert (Hrest : (truthy v = false \/ is_string v = false -> False) /\
                  (true = false -> False)).
  { split; [intros [H | H]; congruence | discriminate]. }
  destruct Hrest as [H1 H2].
  destruct (checkDomain_finish_run port (mode (fst st)) (normalized v) st)
    as (r & w & _ & Hfin).
  destruct (cacheEnabled (fst st)); [destruct (cache (fst st) !! normalized v) |];
    try rewrite Hfin; unfold ret;
    eexists _, _; (split; [reflexivity |]);
    (split; [intros H; destruct (H1 H) |]);
    (split; [intros H; destruct (H2 H) | intros; repeat split]).
Qed.

(** [checkDomain(null)] *)
Lemma checkDomain_total_witness :
  exists r,
    checkDomain _dnsLookup JsNull (new_client, constant_world 0)
      = (Resolved r, (new_client, constant_world 0)) /\
    domain r = "unknown" /\ is_error_result r.
Proof.
  destruct (checkDomain_total _dnsLookup JsNull (new_client, constant_world 0))
    as (r & st' & Hrun & Hmissing & _).
  destruct (Hmissing (or_introl eq_refl)) as (Hst & Hdom & Herr).
  exists r. rewrite Hst in Hrun. auto.
Defined.

(** ** The worker pool runs to its end *)

Lemma first_live_None (ws : list Phase) :
  first_live ws = None <-> Forall (fun ph => is_exited ph = true) ws.
Proof.
  induction ws as [| ph ws IH]; simpl.
  - split; [constructor | reflexivity].
  - destruct (is_exited ph) eqn:E.
    + destruct (first_live ws); simpl.
      * split; [discriminate |]. intros H. inversion H; subst.
        apply IH in H3. discriminate.
      * split; [| reflexivity]. intros _. constructor; [assumption | apply IH; reflexivity].
    + split; [discriminate |]. intros H. inversion H; congruence.
Qed.

Lemma first_live_Some (ws : list Phase) (i : nat) :
  first_live ws = Some i -> exists ph, ws !! i = Some ph /\ is_exited ph = false.
Proof.
  revert i. induction ws as [| ph ws IH]; simpl; intros i H; [discriminate |].
  destruct (is_exited ph) eqn:E.
  - destruct (first_live ws) as [j |]; [| discriminate]. injection H as <-.
    destruct (IH j eq_refl) as (ph' & Hl & He). exists ph'. auto.
  - injection H as <-. exists ph. auto.
Qed.

Lemma weight_insert (ws : list Phase) (i : nat) (ph ph' : Phase) :
  ws !! i = Some ph ->
  (list_sum (map weight (<[i := ph']> ws)) + weight ph
   = list_sum (map weight ws) + weight ph')%nat.
Proof.
  revert i. induction ws as [| x ws IH]; intros [| i] H; simpl in *; try discriminate.
  - injection H as ->. lia.
  - specialize (IH i H). lia.
Qed.

Lemma worker_step_measure (port : Port) (cb : bool) (total : nat) (i : nat)
  (p : Pool) (st : State) (ph : Phase) :
  workers p !! i = Some ph -> is_exited ph = false ->
  (pool_measure (fst (worker_step port cb total i (p, st))) < pool_measure p)%nat.
Proof.
  intros Hi Hlive. unfold worker_step. rewrite Hi.
  pose proof (fun ph' => weight_insert (workers p) i ph ph' Hi) as Hw.
  destruct ph as [| d m n | d [r | msg] | |]; try discriminate Hlive; simpl in Hw.
  - destruct (shouldStop (fst st)).
    { unfold pool_measure. simpl. specialize (Hw Exited). simpl in Hw. lia. }
    destruct (domainQueue p) as [| d q] eqn:Hq.
    { unfold pool_measure. simpl. specialize (Hw Exited). simpl in Hw. lia. }
    destruct (String.eqb d "").
    { unfold pool_measure. simpl. rewrite Hq. specialize (Hw Exited). simpl in *. lia. }
    unfold try_catch. rewrite checkDomain_begin_run.
    match goal with
    | |- context [match ?x with inl _ => _ | inr _ => _ end] =>
        destruct x as [r | [m n]]
    end; unfold pool_measure; simpl; rewrite Hq.
    + specialize (Hw (Settled d (Resolved r))). simpl in *. lia.
    + specialize (Hw (Checking d m n)). simpl in *. lia.
  - destruct (try_catch _ _ st) as [o st'].
    unfold pool_measure. simpl. specialize (Hw (Settled d o)). simpl in Hw. lia.
  - unfold pool_measure. simpl. specialize (Hw Sleeping). simpl in Hw. lia.
  - unfold pool_measure. simpl. specialize (Hw Ready). simpl in Hw. lia.
  - unfold pool_measure. simpl. specialize (Hw Ready). simpl in Hw. lia.
Qed.

Lemma drain_all_exited (port : Port) (cb : bool) (total : nat) (fuel : nat) :
  forall ps, (pool_measure (fst ps) <= fuel)%nat ->
             first_live (workers (fst (drain port cb total fuel ps))) = None.
Proof.
  induction fuel as [| fuel IH]; intros [p st] Hfuel; cbn [drain fst] in *.
  - destruct (first_live (workers p)) as [i |] eqn:Hlive; [| reflexivity].
    apply first_live_Some in Hlive as (ph & Hi & He).
    pose proof (worker_step_measure port cb total i p st ph Hi He). lia.
  - destruct (first_live (workers p)) as [i |] eqn:Hlive; [| assumption].
    apply first_live_Some in Hlive as (ph & Hi & He).
    apply IH.
    pose proof (worker_step_measure port cb total i p st ph Hi He). lia.
Qed.

(** Whatever the schedule, every worker of a scan returns. *)
Lemma run_workers_all_exited (port : Port) (cb : bool) (total n : nat)
  (schedule : list Event) (ps : Pool * State) :
  first_live (workers (fst (run_workers port cb total n schedule ps))) = None.
Proof.
  unfold run_workers. apply drain_all_exited. lia.
Qed.


(** ** Batch scans *)

Lemma resultMap_domain (results : list DomainCheckResult) :
  forall m : gmap string DomainCheckResult,
    (forall k r, m !! k = Some r -> domain r = k) ->
    forall k r,
      fold_left (fun m result => <[domain result := result]> m) results m !! k = Some r ->
      domain r = k.
Proof.
  induction results as [| x results IH]; intros m Hm k r; simpl.
  - apply Hm.
  - apply IH. intros k' r' H.
    destruct (decide (domain x = k')) as [<- | Hne].
    + rewrite lookup_insert_eq in H. congruence.
    + rewrite lookup_insert_ne in H by assumption. apply Hm. assumption.
Qed.

(** The list that [_sortResultsByOriginalOrder] returns names the
    domains it was given, one result each, in the order given. *)
Lemma sorted_results_domains (results : list DomainCheckResult) (ds : list string) :
  map domain (_sortResultsByOriginalOrder results ds) = ds.
Proof.
  unfold _sortResultsByOriginalOrder. rewrite map_map.
  rewrite <- (map_id ds) at 2. apply map_ext. intros d.
  destruct (fold_left _ results ∅ !! d) as [r |] eqn:E; [| reflexivity].
  eapply resultMap_domain; [| exact E].
  intros k r' H. rewrite lookup_empty in H. discriminate.
Qed.

(** Whatever the workers do, a scan that resolves returns the invalid
    entries first and the valid entries after them. *)
Lemma checkDomains_domains (port : Port) (domains : list string) (cb : bool)
  (schedule : list Event) (st : State) (rs : list DomainCheckResult) (st' : State) :
  checkDomains port domains cb schedule st = (Resolved rs, st') ->
  map domain rs = invalidDomains domains ++ validDomains domains.
Proof.
  unfold checkDomains. destruct (isScanning (fst st)); [discriminate |].
  destruct (length (validDomains domains) =? 0)%nat; [discriminate |].
  intros H. injection H as <- _. apply sorted_results_domains.
Qed.

(** An idle client given at least one valid domain: the scan resolves
    with one result per entry that is not blank and leaves the client
    idle. *)
Lemma checkDomains_resolves (port : Port) (domains : list string) (cb : bool)
  (schedule : list Event) (st : State) :
  isScanning (fst st) = false -> validDomains domains <> [] ->
  exists rs st',
    checkDomains port domains cb schedule st = (Resolved rs, st') /\
    isScanning (fst st') = false /\
    length rs = (length (invalidDomains domains) + length (validDomains domains))%nat.
Proof.
  unfold checkDomains. intros -> Hvalid.
  destruct (validDomains domains) as [| d ds] eqn:E; [contradiction |].
  cbn [length Nat.eqb]. eexists _, _. split; [reflexivity |].
  split; [reflexivity |].
  unfold _sortResultsByOriginalOrder. rewrite length_map, length_app. reflexivity.
Qed.

(** C7: [checkDomains] fails at once, leaving the client and the world
    as they were (so no worker has started, no lookup was made and
    [isScanning] keeps its value), when a scan is in progress and when
    the input holds no valid domain; in every other case it resolves,
    with [isScanning] false at the end. *)
Theorem checkDomains_fails_fast (port : Port) (domains : list string) (cb : bool)
  (schedule : list Event) (st : State) :
  (isScanning (fst st) = true ->
     checkDomains port domains cb schedule st
       = (Rejected "Сканирование уже выполняется", st)) /\
  (isScanning (fst st) = false -> validDomains domains = [] ->
     checkDomains port domains cb schedule st
       = (Rejected "Список не содержит корректных доменов для сканирования", st)) /\
  (isScanning (fst st) = false -> validDomains domains <> [] ->
     exists rs st',
       checkDomains port domains cb schedule st = (Resolved rs, st') /\
       isScanning (fst st') = false /\
       length rs = (length (invalidDomains domains) + length (validDomains domains))%nat).
Proof.
  split; [| split].
  - unfold checkDomains. intros ->. reflexivity.
  - unfold checkDomains. intros -> ->. reflexivity.
  - apply checkDomains_resolves.
Qed.

(** A batch without a valid domain, on a fresh client. *)
Lemma checkDomains_fails_fast_witness :
  checkDomains _dnsLookup ["not a domain"; "  "] true [Tick 0; Stop]
               (new_client, constant_world 0)
    = (Rejected "Список не содержит корректных доменов для сканирования",
       (new_client, constant_world 0)).
Proof.
  destruct (checkDomains_fails_fast _dnsLookup ["not a domain"; "  "] true
              [Tick 0; Stop] (new_client, constant_world 0)) as (_ & Hempty & _).
  apply Hempty; reflexivity.
Defined.

(** C1, on the code: for the input
    [["example.com"; "not a domain"; "gmail.com"]] the scan returns
    three results whose first entry is the invalid one, under every
    lookup port, every schedule of the workers and from every idle
    client; and with the lookup of the source in offline mode the middle
    entry is the result for [example.com], without error and with the
    score 70. *)
Theorem checkDomains_invalid_entry_first (port : Port) (cb : bool)
  (schedule : list Event) (c : Client) (w : World) :
  (exists r1 r2 r3 st',
     checkDomains port ["example.com"; "not a domain"; "gmail.com"] cb schedule
                  (set_isScanning false c, w)
       = (Resolved [r1; r2; r3], st') /\
     domain r1 = "not a domain" /\ domain r2 = "example.com" /\
     domain r3 = "gmail.com") /\
  (exists r2 r3,
     fst (checkDomains _dnsLookup ["example.com"; "not a domain"; "gmail.com"]
                       true [] (set_mode "offline" new_client, constant_world 0))
       = Resolved [_getErrorResult "not a domain" "Некорректный формат доменного имени";
                   r2; r3] /\
     domain r2 = "example.com" /\ errorMessage r2 = None /\
     securityScore r2 = 70%Z).
Proof.
  split.
  - destruct (checkDomains_resolves port ["example.com"; "not a domain"; "gmail.com"]
                cb schedule (set_isScanning false c, w)) as (rs & st' & Hrun & _ & Hlen);
      [reflexivity | vm_compute; discriminate |].
    pose proof (checkDomains_domains _ _ _ _ _ _ _ Hrun) as Hdom.
    change (invalidDomains _ ++ validDomains _)
      with ["not a domain"; "example.com"; "gmail.com"] in Hdom.
    destruct rs as [| r1 [| r2 [| r3 [| r4 rs]]]]; try discriminate Hdom.
    injection Hdom as H1 H2 H3. exists r1, r2, r3, st'. auto.
  - eexists _, _. split; [vm_compute; reflexivity |]. repeat split.
Qed.

(** ** The cache *)

Lemma valid_name_truthy (s : string) :
  isValidDomain (normalized (JsStr s)) = true -> truthy (JsStr s) = true.
Proof.
  destruct s; [vm_compute; discriminate | reflexivity].
Qed.

(** A cache hit: the stored result comes back and nothing else happens. *)
Lemma checkDomain_cache_hit (port : Port) (s : string) (r : DomainCheckResult)
  (st : State) :
  cacheEnabled (fst st) = true ->
  isValidDomain (normalized (JsStr s)) = true ->
  cache (fst st) !! normalized (JsStr s) = Some r ->
  checkDomain port (JsStr s) st = (Resolved r, st).
Proof.
  intros Hon Hvalid Hhit. unfold checkDomain, try_catch, bind.
  rewrite checkDomain_begin_run, (valid_name_truthy s Hvalid), Hvalid, Hon, Hhit.
  reflexivity.
Qed.

(** A cache miss: the strategy runs once and its result is stored. *)
Lemma checkDomain_cache_miss (port : Port) (s : string) (st : State) :
  isValidDomain (normalized (JsStr s)) = true ->
  cacheEnabled (fst st) = false \/ cache (fst st) !! normalized (JsStr s) = None ->
  exists r w,
    mode_strategy port (mode (fst st)) (normalized (JsStr s)) st
      = (Resolved r, (fst st, w)) /\
    checkDomain port (JsStr s) st =
      (Resolved r,
       ((if cacheEnabled (fst st)
         then set_cache (<[normalized (JsStr s) := r]> (cache (fst st))) (fst st)
         else fst st), w)).
Proof.
  intros Hvalid Hmiss. unfold checkDomain, try_catch, bind.
  rewrite checkDomain_begin_run, (valid_name_truthy s Hvalid), Hvalid.
  destruct (checkDomain_finish_run port (mode (fst st)) (normalized (JsStr s)) st)
    as (r & w & Hstrat & Hfin).
  exists r, w. split; [assumption |].
  cbn [negb orb is_string].
  destruct (cacheEnabled (fst st)) eqn:Hon.
  - destruct Hmiss as [H | ->]; [discriminate | rewrite Hfin; reflexivity].
  - rewrite Hfin. reflexivity.
Qed.

Lemma checkDomain_keeps_entry (port : Port) (v : JsValue) (st : State)
  (k : string) (r : DomainCheckResult) :
  cache (fst st) !! k = Some r ->
  cache (fst (snd (checkDomain port v st))) !! k = Some r.
Proof.
  intros Hk. unfold checkDomain, try_catch, bind. rewrite checkDomain_begin_run.
  destruct (negb (truthy v) || negb (is_string v)); [assumption |].
  destruct (negb (isValidDomain (normalized v))); [assumption |].
  destruct (checkDomain_finish_run port (mode (fst st)) (normalized v) st)
    as (r' & w & _ & Hfin).
  destruct (cacheEnabled (fst st)) eqn:Hon.
  - destruct (cache (fst st) !! normalized v) eqn:Hv; [assumption |].
    rewrite Hfin. simpl. apply lookup_insert_Some. right. split; [congruence | assumption].
  - rewrite Hfin. assumption.
Qed.

Lemma entry_safe_set_worker (k : string) (r : DomainCheckResult) (i : nat)
  (ph : Phase) (p : Pool) (st : State) :
  entry_safe k r (p, st) -> not_checking k ph ->
  entry_safe k r (set_worker i ph p, st).
Proof.
  intros [Hk Hws] Hph. split; [assumption |]. intros Hon. simpl.
  apply Forall_insert; auto.
Qed.

Lemma worker_step_entry_safe (port : Port) (cb : bool) (total : nat) (i : nat)
  (k : string) (r : DomainCheckResult) (ps : Pool * State) :
  entry_safe k r ps -> entry_safe k r (worker_step port cb total i ps).
Proof.
  destruct ps as [p st]. intros Hinv. unfold worker_step.
  destruct (workers p !! i) as [ph |] eqn:Hi; [| assumption].
  destruct ph as [| d m n | d [res | msg] | |].
  - destruct (shouldStop (fst st)); [apply entry_safe_set_worker; simpl; auto |].
    destruct (domainQueue p) as [| d q]; [apply entry_safe_set_worker; simpl; auto |].
    assert (Hq : entry_safe k r (set_queue q p, st)) by exact Hinv.
    destruct (String.eqb d ""); [apply entry_safe_set_worker; simpl; auto |].
    unfold try_catch. rewrite checkDomain_begin_run.
    destruct (negb (truthy (JsStr d)) || negb (is_string (JsStr d)));
      [apply entry_safe_set_worker; simpl; auto |].
    destruct (negb (isValidDomain (normalized (JsStr d))));
      [apply entry_safe_set_worker; simpl; auto |].
    destruct (cacheEnabled (fst st)) eqn:Hon.
    + destruct (cache (fst st) !! normalized (JsStr d)) eqn:Hd;
        apply entry_safe_set_worker; simpl; auto.
      destruct Hinv as [Hk _]. simpl in Hk, Hd. intros E. rewrite E in Hd. congruence.
    + destruct Hinv as [Hk _]. split; [assumption |]. simpl. congruence.
  - unfold try_catch.
    destruct (checkDomain_finish_run port m n st) as (res & w & _ & ->).
    destruct Hinv as [Hk Hws]. simpl in Hk, Hws.
    destruct (cacheEnabled (fst st)) eqn:Hon.
    + specialize (Hws eq_refl).
      pose proof (Forall_lookup_1 _ _ _ _ Hws Hi) as Hn. simpl in Hn.
      split; simpl.
      * apply lookup_insert_Some. right. auto.
      * intros _. apply Forall_insert; simpl; auto.
    + split; simpl; [assumption | congruence].
  - apply entry_safe_set_worker; simpl; auto.
  - apply entry_safe_set_worker; simpl; auto.
  - apply entry_safe_set_worker; simpl; auto.
  - assumption.
Qed.

Lemma run_workers_entry_safe (port : Port) (cb : bool) (total n : nat)
  (schedule : list Event) (k : string) (r : DomainCheckResult) (ps : Pool * State) :
  entry_safe k r ps -> entry_safe k r (run_workers port cb total n schedule ps).
Proof.
  intros Hinv. unfold run_workers.
  assert (Hstart : entry_safe k r (Nat.iter n (start_worker port cb total) ps)).
  { induction n as [| n IH]; simpl; [assumption |].
    destruct (Nat.iter n _ ps) as [p st]. unfold start_worker.
    assert (Hadd : entry_safe k r (add_worker p, st)).
    { destruct IH as [Hk Hws]. split; [assumption |]. intros Hon. simpl.
      apply Forall_app. split; [auto | repeat constructor]. }
    pose proof (worker_step_entry_safe port cb total (length (workers p)) k r _ Hadd) as H.
    destruct (worker_step _ _ _ _ _) as [p' st']. exact H. }
  assert (Hsched : forall ps0, entry_safe k r ps0 ->
                     entry_safe k r (run_schedule port cb total schedule ps0)).
  { induction schedule as [| e rest IH]; intros ps0 H0; simpl; [assumption |].
    destruct (first_live _); [| assumption]. apply IH.
    destruct e as [i |]; simpl.
    - apply worker_step_entry_safe. assumption.
    - destruct ps0 as [p0 st0]. unfold stopScan, bind, get_client. simpl.
      destruct (negb (isScanning (fst st0))); exact H0. }
  assert (Hdrain : forall fuel ps0, entry_safe k r ps0 ->
                     entry_safe k r (drain port cb total fuel ps0)).
  { induction fuel as [| fuel IH]; intros ps0 H0; simpl; [assumption |].
    destruct (first_live _); [| assumption].
    apply IH, worker_step_entry_safe. assumption. }
  apply Hdrain, Hsched, Hstart.
Qed.

Lemma checkDomains_keeps_entry (port : Port) (domains : list string) (cb : bool)
  (schedule : list Event) (st : State) (k : string) (r : DomainCheckResult) :
  cache (fst st) !! k = Some r ->
  cache (fst (snd (checkDomains port domains cb schedule st))) !! k = Some r.
Proof.
  intros Hk. unfold checkDomains.
  destruct (isScanning (fst st)); [assumption |].
  destruct (length (validDomains domains) =? 0)%nat; [assumption |]. simpl.
  match goal with
  | |- context [run_workers port cb ?total ?n schedule ?ps] =>
      destruct (run_workers_entry_safe port cb total n schedule k r ps) as [H _]
  end.
  - split; [exact Hk |]. intros _.
    match goal with
    | |- Forall _ (workers (fst (fold_left ?f ?l ?p0, _))) =>
        assert (Hw : forall l0 p, workers (fold_left f l0 p) = workers p)
          by (induction l0; intros; simpl; [reflexivity | rewrite IHl0; reflexivity]);
        simpl; rewrite Hw
    end.
    constructor.
  - exact H.
Qed.

Lemma keeps_cache_ret {A} (a : A) : keeps_cache (ret a).
Proof. intros st. reflexivity. Qed.

Lemma keeps_cache_bind {A B} (c : M A) (k : A -> M B) :
  keeps_cache c -> (forall a, keeps_cache (k a)) -> keeps_cache (bind c k).
Proof.
  intros Hc Hk st. unfold bind. specialize (Hc st).
  destruct (c st) as [[a | msg] st']; simpl in *; [| assumption].
  rewrite Hk. assumption.
Qed.

Lemma keeps_cache_try_catch {A} (c : M A) (h : string -> M A) :
  keeps_cache c -> (forall msg, keeps_cache (h msg)) -> keeps_cache (try_catch c h).
Proof.
  intros Hc Hh st. unfold try_catch. specialize (Hc st).
  destruct (c st) as [[a | msg] st']; simpl in *; [assumption |].
  rewrite Hh. assumption.
Qed.

Lemma keeps_cache_of_client {A} (c : M A) : keeps_client c -> keeps_cache c.
Proof. intros H st. rewrite H. reflexivity. Qed.

Lemma keeps_cache_get_client : keeps_cache get_client.
Proof. intros st. reflexivity. Qed.

Lemma keeps_cache_modify (f : Client -> Client) :
  (forall c, cache (f c) = cache c) -> keeps_cache (modify_client f).
Proof. intros Hf st. apply Hf. Qed.

Lemma keeps_cache_setMode (m : string) : keeps_cache (setMode m).
Proof.
  unfold setMode. apply keeps_cache_bind; [| intros; apply keeps_cache_ret].
  apply keeps_cache_modify. reflexivity.
Qed.

Lemma keeps_cache_selectBestAvailableMode (port : Port) :
  keeps_cache (selectBestAvailableMode port).
Proof.
  unfold selectBestAvailableMode, checkApiModeAvailability, checkWebModeAvailability,
    checkOfflineModeAvailability.
  repeat first
    [ apply keeps_cache_ret
    | apply keeps_cache_setMode
    | apply keeps_cache_get_client
    | apply keeps_cache_of_client, keeps_dnsLookup
    | apply keeps_cache_try_catch; [| intros ?]
    | apply keeps_cache_bind; [| intros ?]
    | match goal with |- keeps_cache (if ?b then _ else _) => destruct b end
    | match goal with |- keeps_cache (match ?x with _ => _ end) => destruct x end ].
Qed.

Lemma keeps_cache_stopScan : keeps_cache stopScan.
Proof.
  unfold stopScan. apply keeps_cache_bind; [apply keeps_cache_get_client | intros this].
  destruct (negb (isScanning this)); [apply keeps_cache_ret |].
  apply keeps_cache_modify. reflexivity.
Qed.

Lemma run_call_keeps_entry (port : Port) (call : ApiCall) (st : State)
  (k : string) (r : DomainCheckResult) :
  is_clearCache call = false ->
  cache (fst st) !! k = Some r ->
  cache (fst (run_call port call st)) !! k = Some r.
Proof.
  intros Hcall Hk. destruct call; simpl; try discriminate Hcall; try assumption.
  - apply checkDomain_keeps_entry. assumption.
  - apply checkDomains_keeps_entry. assumption.
  - rewrite keeps_cache_selectBestAvailableMode. assumption.
  - rewrite keeps_cache_stopScan. assumption.
Qed.

Lemma run_calls_keeps_entry (port : Port) (calls : list ApiCall) :
  forall (st : State) (k : string) (r : DomainCheckResult),
    forallb (fun call => negb (is_clearCache call)) calls = true ->
    cache (fst st) !! k = Some r ->
    cache (fst (run_calls port calls st)) !! k = Some r.
Proof.
  unfold run_calls. induction calls as [| call calls IH]; intros st k r Hcalls Hk; simpl.
  - assumption.
  - simpl in Hcalls. apply andb_true_iff in Hcalls as [Hcall Hcalls].
    apply negb_true_iff in Hcall.
    apply IH; [assumption |]. apply run_call_keeps_entry; assumption.
Qed.

(** C8: with caching on, a call of [checkDomain] for a valid name leaves
    its result in the cache under the normalized name; after any further
    calls of the client other than [clearCache] the entry is still
    there, and, caching being on, [checkDomain] for that name returns it
    as it is and leaves the client and the world untouched: no strategy
    runs and no lookup is made.  [clearCache] empties the cache. *)
Theorem cache_hit_verbatim (port : Port) (s : string) (st0 : State)
  (calls : list ApiCall) :
  cacheEnabled (fst st0) = true ->
  isValidDomain (normalized (JsStr s)) = true ->
  forallb (fun call => negb (is_clearCache call)) calls = true ->
  exists r,
    fst (checkDomain port (JsStr s) st0) = Resolved r /\
    let st1 := snd (checkDomain port (JsStr s) st0) in
    let st2 := run_calls port calls st1 in
    cache (fst st1) !! normalized (JsStr s) = Some r /\
    cache (fst st2) !! normalized (JsStr s) = Some r /\
    (cacheEnabled (fst st2) = true ->
       checkDomain port (JsStr s) st2 = (Resolved r, st2) /\
       dnsCalls (snd (snd (checkDomain port (JsStr s) st2))) = dnsCalls (snd st2) /\
       strategyCalls (snd (snd (checkDomain port (JsStr s) st2)))
         = strategyCalls (snd st2)) /\
    cache (fst (snd (clearCache st2))) = ∅.
Proof.
  intros Hon Hvalid Hcalls.
  assert (Hfirst : exists r, fst (checkDomain port (JsStr s) st0) = Resolved r /\
                     cache (fst (snd (checkDomain port (JsStr s) st0)))
                       !! normalized (JsStr s) = Some r).
  { destruct (cache (fst st0) !! normalized (JsStr s)) as [r |] eqn:Hc.
    - exists r. rewrite (checkDomain_cache_hit port s r st0 Hon Hvalid Hc). auto.
    - destruct (checkDomain_cache_miss port s st0 Hvalid (or_intror Hc))
        as (r & w & _ & ->).
      exists r. rewrite Hon. split; [reflexivity |]. simpl. apply lookup_insert_eq. }
  destruct Hfirst as (r & Hr & Hstored). exists r. split; [assumption |].
  cbv zeta. split; [assumption |].
  pose proof (run_calls_keeps_entry port calls _ _ _ Hcalls Hstored) as Hkept.
  split; [assumption |]. split; [| reflexivity].
  intros Hon2.
  rewrite (checkDomain_cache_hit port s r _ Hon2 Hvalid Hkept). auto.
Qed.

(** A check of [" Example.COM"] in offline mode, other calls, a batch scan
    among them, and the same check again. *)
Lemma cache_hit_verbatim_witness :
  exists r,
    let st2 :=
      run_calls _dnsLookup
        [CallSetMode "simulation"; CallCheckDomain (JsStr "gmail.com");
         CallCheckDomains ["gmail.com"; "x y"; "example.org"] true [Tick 1; Stop; Tick 0];
         CallSetCacheEnabled false; CallSetCacheEnabled true]
        (snd (checkDomain _dnsLookup (JsStr " Example.COM")
                (set_mode "offline" new_client, constant_world 0))) in
    fst (checkDomain _dnsLookup (JsStr " Example.COM")
           (set_mode "offline" new_client, constant_world 0)) = Resolved r /\
    checkDomain _dnsLookup (JsStr " Example.COM") st2 = (Resolved r, st2).
Proof.
  destruct (cache_hit_verbatim _dnsLookup " Example.COM"
              (set_mode "offline" new_client, constant_world 0)
              [CallSetMode "simulation"; CallCheckDomain (JsStr "gmail.com");
               CallCheckDomains ["gmail.com"; "x y"; "example.org"] true
                 [Tick 1; Stop; Tick 0];
               CallSetCacheEnabled false; CallSetCacheEnabled true]
              eq_refl eq_refl eq_refl) as (r & Hfirst & _ & _ & Hhit & _).
  exists r. cbv zeta. split; [exact Hfirst |].
  apply Hhit. vm_compute. reflexivity.
Defined.

(** ** The workers and [checkDomain] agree *)

Lemma checkDomain_by_parts (port : Port) (v : JsValue) (st : State) :
  checkDomain port v st =
    match fst (checkDomain_begin v st) with
    | Resolved (inl result) => (Resolved result, st)
    | Resolved (inr (mode, name)) => checkDomain_finish port mode name st
    | Rejected msg => (Resolved (_getErrorResult (normalized v) msg), st)
    end.
Proof.
  unfold checkDomain, try_catch, bind. rewrite checkDomain_begin_run. cbn [fst].
  match goal with
  | |- context [match ?x with inl _ => _ | inr _ => _ end] =>
      destruct x as [r | [m nm]]
  end; [reflexivity |].
  destruct (checkDomain_finish_run port m nm st) as (r & w & _ & ->). reflexivity.
Qed.

(** A worker that pops a domain and is not interrupted goes through
    [checkDomain] as a single call does: after one or two stretches it
    holds the outcome of [checkDomain] and has left the state that
    [checkDomain] leaves. *)
Lemma worker_runs_checkDomain (port : Port) (cb : bool) (total i : nat)
  (p : Pool) (st : State) (d : string) (q : list string) :
  workers p !! i = Some Ready ->
  shouldStop (fst st) = false ->
  domainQueue p = d :: q ->
  d <> "" ->
  exists n,
    (n = 1 \/ n = 2)%nat /\
    Nat.iter n (worker_step port cb total i) (p, st) =
      (set_worker i (Settled d (fst (checkDomain port (JsStr d) st))) (set_queue q p),
       snd (checkDomain port (JsStr d) st)).
Proof.
  intros Hi Hstop Hq Hd.
  assert (Hlen : (i < length (workers p))%nat) by (eapply lookup_lt_Some; eassumption).
  assert (Hfirst : worker_step port cb total i (p, st) =
            match fst (checkDomain_begin (JsStr d) st) with
            | Resolved (inl result) =>
                (set_worker i (Settled d (Resolved result)) (set_queue q p), st)
            | Resolved (inr (mode, name)) =>
                (set_worker i (Checking d mode name) (set_queue q p), st)
            | Rejected msg =>
                (set_worker i (Settled d (Rejected msg)) (set_queue q p), st)
            end).
  { unfold worker_step. rewrite Hi, Hstop, Hq.
    destruct (String.eqb_spec d ""); [contradiction |].
    unfold try_catch. rewrite checkDomain_begin_run. reflexivity. }
  rewrite checkDomain_by_parts.
  destruct (fst (checkDomain_begin (JsStr d) st)) as [[r | [m nm]] | msg] eqn:Hbegin.
  - exists 1%nat. split; [auto |]. unfold Nat.iter. cbn [nat_rect].
    rewrite Hfirst. reflexivity.
  - exists 2%nat. split; [auto |]. unfold Nat.iter. cbn [nat_rect]. rewrite Hfirst.
    unfold worker_step. cbn [workers set_worker set_queue].
    rewrite list_lookup_insert_eq by assumption.
    unfold try_catch.
    destruct (checkDomain_finish_run port m nm st) as (r & w & _ & ->).
    cbn [fst snd]. unfold set_worker. cbn [workers domainQueue results completedCount progress].
    rewrite list_insert_insert_eq. reflexivity.
  - rewrite checkDomain_begin_run in Hbegin. discriminate Hbegin.
Qed.

(** ** The examples of the specification *)

(** [p=reject], a report address and [pct=100] give [ok]; [pct=50] or no
    [rua=] give [warning], with the policy still [reject]. *)
Lemma dmarc_examples :
  analyzeDmarc (Some ["v=DMARC1; p=reject; rua=mailto:a@b.com; pct=100"])
    = mkDmarc ok "v=DMARC1; p=reject; rua=mailto:a@b.com; pct=100" "reject" None /\
  analyzeDmarc (Some ["v=DMARC1; p=reject; rua=mailto:a@b.com; pct=50"])
    = mkDmarc warning "v=DMARC1; p=reject; rua=mailto:a@b.com; pct=50" "reject" None /\
  analyzeDmarc (Some ["v=DMARC1; p=reject; pct=100"])
    = mkDmarc warning "v=DMARC1; p=reject; pct=100" "reject" None /\
  analyzeDmarc (Some ["google-site-verification=x"; "v=DMARC1; P=None; rua=mailto:a@b.com; pct=100"])
    = mkDmarc warning "v=DMARC1; P=None; rua=mailto:a@b.com; pct=100" "none" None /\
  analyzeDmarc (Some ["google-site-verification=x"]) = mkDmarc error "" "" None.
Proof. repeat split; vm_compute; reflexivity. Qed.

(** The first [p=] of the record gives the policy, also when it is the
    end of another tag. *)
Lemma dmarc_policy_is_first_match :
  analyzeDmarc (Some ["v=DMARC1; sp=reject; p=none; rua=mailto:a@b.com; pct=100"])
    = mkDmarc ok "v=DMARC1; sp=reject; p=none; rua=mailto:a@b.com; pct=100" "reject" None.
Proof. vm_compute. reflexivity. Qed.

Lemma spf_examples :
  spf_status (analyzeSpf (Some ["v=spf1 include:_spf.example.com +all"])) = warning /\
  spf_status (analyzeSpf (Some ["v=spf1 include:_spf.example.com ?all -all"])) = warning /\
  spf_status (analyzeSpf (Some ["v=spf1 include:_spf.example.com"])) = warning /\
  spf_status (analyzeSpf (Some ["v=spf1 include:_spf.example.com ~all"])) = ok /\
  spf_status (analyzeSpf (Some [])) = error.
Proof. repeat split; vm_compute; reflexivity. Qed.

(** With a port whose every lookup fails, the offline check of a domain
    still resolves: no MX, and [error] for the three protocols with the
    message of the failure. *)
Lemma offline_check_survives_failures :
  fst (_checkDomainOffline failing_port "example.com" (new_client, constant_world 0))
    = Resolved (mkResult "example.com" None
                  (mkDmarc error "" "" (Some "network error"))
                  (mkSpf error "" (Some "network error"))
                  (mkDkim error [] None) [] 0) /\
  dnsCalls (snd (snd (_checkDomainOffline failing_port "example.com"
                        (new_client, constant_world 0)))) = 9%nat.
Proof. split; vm_compute; reflexivity. Qed.

(** A valid entry that is not in lower case: [checkDomain] reports it
    under its lower-case name, the final lookup by the name as entered
    finds nothing, and the entry comes back as "Result not found". *)
Lemma checkDomains_mixed_case_not_found :
  fst (checkDomains _dnsLookup ["Example.COM"] false []
         (set_mode "offline" new_client, constant_world 0))
    = Resolved [_getErrorResult "Example.COM" "Result not found"].
Proof. vm_compute. reflexivity. Qed.

(** ** A scan in flight refuses a second scan *)

Lemma worker_step_isScanning (port : Port) (cb : bool) (total i : nat)
  (ps : Pool * State) :
  isScanning (fst (snd (worker_step port cb total i ps))) = isScanning (fst (snd ps)).
Proof.
  destruct ps as [p st]. unfold worker_step.
  destruct (workers p !! i) as [[| d m n | d [r | msg] | |] |]; try reflexivity.
  - destruct (shouldStop (fst st)); [reflexivity |].
    destruct (domainQueue p) as [| d q]; [reflexivity |].
    destruct (String.eqb d ""); [reflexivity |].
    unfold try_catch. rewrite checkDomain_begin_run.
    match goal with
    | |- context [match ?x with inl _ => _ | inr _ => _ end] =>
        destruct x as [r | [m n]]
    end; reflexivity.
  - unfold try_catch.
    destruct (checkDomain_finish_run port m n st) as (r & w & _ & ->).
    cbn [fst snd]. destruct (cacheEnabled (fst st)); reflexivity.
Qed.

Lemma start_worker_isScanning (port : Port) (cb : bool) (total : nat)
  (ps : Pool * State) :
  isScanning (fst (snd (start_worker port cb total ps))) = isScanning (fst (snd ps)).
Proof.
  destruct ps as [p st]. unfold start_worker.
  pose proof (worker_step_isScanning port cb total (length (workers p))
                (add_worker p, st)) as H.
  destruct (worker_step _ _ _ _ _) as [p' st']. exact H.
Qed.

(** From the start of the workers to any point of the schedule the
    client stays in the scanning state. *)
Lemma scan_stays_scanning (port : Port) (cb : bool) (total n : nat)
  (schedule : list Event) (ps : Pool * State) :
  isScanning (fst (snd (run_schedule port cb total schedule
                          (Nat.iter n (start_worker port cb total) ps))))
    = isScanning (fst (snd ps)).
Proof.
  assert (Hstart : isScanning (fst (snd (Nat.iter n (start_worker port cb total) ps)))
                   = isScanning (fst (snd ps))).
  { induction n as [| n IH]; [reflexivity |].
    change (Nat.iter (S n) (start_worker port cb total) ps)
      with (start_worker port cb total (Nat.iter n (start_worker port cb total) ps)).
    rewrite start_worker_isScanning. exact IH. }
  rewrite <- Hstart. generalize (Nat.iter n (start_worker port cb total) ps).
  induction schedule as [| e rest IH]; intros ps0; [reflexivity |].
  cbn [run_schedule]. destruct (first_live _); [| reflexivity].
  rewrite IH. destruct e as [i |]; cbn [apply_event].
  - apply worker_step_isScanning.
  - destruct ps0 as [p0 st0]. unfold stopScan, bind, get_client. cbn [fst snd].
    destruct (negb (isScanning (fst st0))); reflexivity.
Qed.

(** A call of [checkDomains] that arrives at any point of a running scan
    is rejected and changes nothing of it. *)
Lemma reentrant_scan_rejected (port : Port) (cb : bool) (total n : nat)
  (schedule : list Event) (p : Pool) (c : Client) (w : World)
  (domains' : list string) (cb' : bool) (schedule' : list Event) :
  let st := snd (run_schedule port cb total schedule
                   (Nat.iter n (start_worker port cb total)
                             (p, (set_isScanning true c, w)))) in
  checkDomains port domains' cb' schedule' st
    = (Rejected "Сканирование уже выполняется", st).
Proof.
  intros st. unfold checkDomains.
  assert (H : isScanning (fst st) = true).
  { unfold st. rewrite scan_stays_scanning. reflexivity. }
  rewrite H. reflexivity.
Qed.

(** * Further properties of the engine *)

(** ** Mode selection *)

Lemma checkOfflineModeAvailability_run (port : Port) (st : State) :
  checkOfflineModeAvailability port st =
    (Resolved (match fst (port "example.com" TXT (snd st)) with
               | Resolved (Some _) => true
               | _ => false
               end),
     (fst st, count_lookup (snd (port "example.com" TXT (snd st))))).
Proof.
  unfold checkOfflineModeAvailability, try_catch, bind, ret, dnsLookup.
  destruct (port "example.com" TXT (snd st)) as [[[records |] | msg] w]; reflexivity.
Qed.

Lemma checkApiModeAvailability_run (st : State) :
  checkApiModeAvailability st = (Resolved false, st).
Proof.
  unfold checkApiModeAvailability, try_catch, bind, get_client.
  destruct (String.eqb (apiKey (fst st)) ""); reflexivity.
Qed.

Lemma selectBestAvailableMode_run (port : Port) (st : State) :
  selectBestAvailableMode port st =
    (let answer := port "example.com" TXT (snd st) in
     let m := match fst answer with
              | Resolved (Some _) => "offline"
              | _ => "simulation"
              end in
     (Resolved m, (set_mode m (fst st), count_lookup (snd answer)))).
Proof.
  unfold selectBestAvailableMode, try_catch at 1, bind at 1.
  rewrite checkApiModeAvailability_run.
  unfold bind at 1, checkWebModeAvailability, try_catch at 1, ret at 1.
  unfold bind at 1. rewrite checkOfflineModeAvailability_run. cbv zeta.
  destruct (port "example.com" TXT (snd st)) as [[[records |] | msg] w]; reflexivity.
Qed.

(** X1: [selectBestAvailableMode] never selects [api] or [web], with or
    without an API key: it makes one test lookup and sets, and returns,
    [offline] when the lookup resolves with an array and [simulation]
    otherwise (a failed lookup included); nothing else of the client
    changes.  With the lookup that the source ships the choice is always
    [offline]. *)
Theorem selectBestAvailableMode_offline_or_simulation (port : Port) (st : State) :
  selectBestAvailableMode port st =
    (let answer := port "example.com" TXT (snd st) in
     let m := match fst answer with
              | Resolved (Some _) => "offline"
              | _ => "simulation"
              end in
     (Resolved m, (set_mode m (fst st), count_lookup (snd answer)))) /\
  selectBestAvailableMode _dnsLookup st =
    (Resolved "offline", (set_mode "offline" (fst st), count_lookup (snd st))).
Proof.
  split; [apply selectBestAvailableMode_run |].
  rewrite selectBestAvailableMode_run. reflexivity.
Qed.

(** ** The lookup of the source *)

Lemma Math_random_range (w : World) :
  (0 <= fst (Math_random w) < two53)%Z /\
  snd (Math_random w) = mkWorld (rnd w) (S (drawn w)) (dnsCalls w) (strategyCalls w).
Proof.
  unfold Math_random. cbn [fst snd]. split; [| reflexivity].
  apply Z.mod_pos_bound. reflexivity.
Qed.

(** Rounding to a double stays below a bound that the number keeps
    away from by the size of the factor. *)
Lemma to_double_bounds (x m : Z) :
  (0 <= x)%Z -> (0 < m)%Z -> (x + m <= m * two53)%Z ->
  (0 <= to_double x < m * two53)%Z.
Proof.
  intros Hx Hm Hxm. unfold to_double.
  destruct (Z.leb_spec (Z.log2 x - 52) 0) as [He | He]; [lia |].
  assert (Hpos : (0 < x)%Z).
  { destruct (Z.eq_dec x 0%Z) as [-> | Hne]; [simpl in He; lia | lia]. }
  destruct (Z.log2_spec x Hpos) as [Hlow _].
  set (e := (Z.log2 x - 52)%Z) in *.
  assert (E1 : (2 ^ e = 2 * 2 ^ (e - 1))%Z).
  { replace e with (Z.succ (e - 1)) at 1 by lia. apply Z.pow_succ_r. lia. }
  assert (E2 : (2 ^ Z.log2 x = 2 ^ (e - 1) * two53)%Z).
  { replace (Z.log2 x) with ((e - 1) + 53)%Z by lia.
    rewrite Z.pow_add_r by lia. reflexivity. }
  assert (HP : (0 < 2 ^ (e - 1))%Z) by (apply Z.pow_pos_nonneg; lia).
  rewrite E1, E2 in *. clear E1 E2.
  set (P := (2 ^ (e - 1))%Z) in *.
  assert (Hlt : (P < m)%Z) by (unfold two53 in *; nia).
  pose proof (Z.div_mod x (2 * P)%Z ltac:(lia)) as Hdiv.
  pose proof (Z.mod_pos_bound x (2 * P)%Z ltac:(lia)) as Hmod.
  assert (Hq : (0 <= x / (2 * P))%Z) by (apply Z.div_pos; lia).
  set (q := (x / (2 * P))%Z) in *. set (r := (x mod (2 * P))%Z) in *.
  destruct (Z.ltb_spec r P) as [H1 | H1]; [nia |].
  destruct (Z.ltb_spec P r) as [H2 | H2]; [nia |].
  destruct (Z.even q); nia.
Qed.

Lemma random_below_lt (n : nat) (w : World) :
  (0 < n)%nat ->
  (fst (random_below n w) < n)%nat /\
  snd (random_below n w) = mkWorld (rnd w) (S (drawn w)) (dnsCalls w) (strategyCalls w).
Proof.
  intros Hn. unfold random_below.
  destruct (Math_random_range w) as [Hk Hw].
  destruct (Math_random w) as [k w']. cbn [fst snd] in *. split; [| assumption].
  destruct (to_double_bounds (k * Z.of_nat n) (Z.of_nat n)) as [H0 H1];
    [nia | lia | nia |].
  assert (Hq : (to_double (k * Z.of_nat n) / two53 < Z.of_nat n)%Z).
  { apply Z.div_lt_upper_bound; [reflexivity | lia]. }
  assert (Hq0 : (0 <= to_double (k * Z.of_nat n) / two53)%Z).
  { apply Z.div_pos; [lia | reflexivity]. }
  lia.
Qed.

(** The product that rounds up: with three items and the random number
    [6004799503160661 / 2^53] the index is 2, where the exact product
    has the integer part 1. *)
Lemma random_below_rounds_up :
  fst (random_below 3 (constant_world 6004799503160661)) = 2%nat /\
  (6004799503160661 * 3 / two53 = 1)%Z.
Proof. split; vm_compute; reflexivity. Qed.

Lemma randomItem_in {A} (dflt : A) (arr : list A) (w : World) :
  arr <> [] ->
  In (fst (randomItem dflt arr w)) arr /\
  snd (randomItem dflt arr w) = mkWorld (rnd w) (S (drawn w)) (dnsCalls w) (strategyCalls w).
Proof.
  intros Harr. unfold randomItem.
  assert (Hlen : (0 < length arr)%nat) by (destruct arr; [contradiction | simpl; lia]).
  destruct (random_below_lt (length arr) w Hlen) as [Hi Hw].
  destruct (random_below (length arr) w) as [i w']. cbn [fst snd] in *.
  split; [apply nth_In; assumption | assumption].
Qed.

Lemma random_above_world (num : Z) (w : World) :
  snd (random_above num w) = mkWorld (rnd w) (S (drawn w)) (dnsCalls w) (strategyCalls w).
Proof. reflexivity. Qed.

(** X3: the lookup that the source ships never fails and always answers
    with an array: two fixed records for the MX of [example.com] and
    [gmail.com], one to three records for any other MX, at most one
    record for a TXT, none for any other type.  It draws at most two
    random numbers and touches nothing else of the world. *)
Theorem dnsLookup_always_answers (name : string) (type : RecordType) (w : World) :
  exists records w',
    _dnsLookup name type w = (Resolved (Some records), w') /\
    rnd w' = rnd w /\ dnsCalls w' = dnsCalls w /\ strategyCalls w' = strategyCalls w /\
    (drawn w <= drawn w' <= drawn w + 2)%nat /\
    match type with
    | MX => (1 <= length records <= 3)%nat
    | TXT => (length records <= 1)%nat
    | OtherType => records = []
    end.
Proof.
  unfold _dnsLookup. destruct type.
  - destruct (String.eqb name "example.com");
      [eexists _, _; split; [reflexivity |]; simpl; repeat split; lia |].
    destruct (String.eqb name "gmail.com");
      [eexists _, _; split; [reflexivity |]; simpl; repeat split; lia |].
    destruct (random_below_lt 3 w) as [Hr Hw]; [lia |].
    destruct (random_below 3 w) as [r w']. cbn [fst snd] in *. subst w'.
    eexists _, _. split; [reflexivity |].
    rewrite length_map, length_seq. simpl. repeat split; lia.
  - repeat match goal with
           | |- context [if String.eqb name ?x then _ else _] =>
               destruct (String.eqb name x);
               [eexists _, _; split; [reflexivity |]; simpl; repeat split; lia |]
           end.
    destruct (includes "_domainkey" name).
    { pose proof (random_above_world (2 ^ 53) w) as Hw.
      destruct (random_above (2 ^ 53) w) as [b w']. cbn [snd] in Hw. subst w'.
      destruct b; eexists _, _; (split; [reflexivity |]); simpl; repeat split; lia. }
    destruct (startsWith "_dmarc." name).
    { destruct (randomItem_in "" ["none"; "quarantine"; "reject"] w) as [_ Hw1];
        [discriminate |].
      destruct (randomItem "" ["none"; "quarantine"; "reject"] w) as [policy w1].
      cbn [snd] in Hw1. subst w1.
      match goal with
      | |- context [random_above ?n ?w0] =>
          pose proof (random_above_world n w0) as Hw2;
          destruct (random_above n w0) as [b w2]
      end.
      cbn [snd] in Hw2. subst w2.
      eexists _, _. split; [reflexivity |]. simpl. repeat split; lia. }
    destruct (randomItem_in "" ["-all"; "~all"; "?all"; "+all"] w) as [_ Hw1];
      [discriminate |].
    destruct (randomItem "" ["-all"; "~all"; "?all"; "+all"] w) as [allMode w1].
    cbn [snd] in Hw1. subst w1.
    eexists _, _. split; [reflexivity |]. simpl. repeat split; lia.
  - eexists _, _. split; [reflexivity |]. repeat split; lia.
Qed.

(** ** The offline check *)

Lemma bind_run {A B} (c : M A) (k : A -> M B) (st st' : State) (a : A) :
  c st = (Resolved a, st') -> bind c k st = k a st'.
Proof. unfold bind. intros ->. reflexivity. Qed.

Lemma try_catch_run {A} (c : M A) (h : string -> M A) (st st' : State) (a : A) :
  c st = (Resolved a, st') -> try_catch c h st = (Resolved a, st').
Proof. unfold try_catch. intros ->. reflexivity. Qed.

Lemma dnsLookup_run (port : Port) (name : string) (type : RecordType) (st : State) :
  exists o w,
    dnsLookup port name type st = (o, (fst st, w)) /\
    (keeps_lookup_count port -> dnsCalls w = S (dnsCalls (snd st))).
Proof.
  unfold dnsLookup. pose proof (fun H : keeps_lookup_count port => H name type (snd st)) as Hk.
  destruct (port name type (snd st)) as [o w]. eexists _, _. split; [reflexivity |].
  intros H. specialize (Hk H). simpl in *. rewrite Hk. reflexivity.
Qed.

Lemma lookup_then_run {A} (port : Port) (name : string) (type : RecordType)
  (f : option (list string) -> A) (h : string -> A) (st : State) :
  exists a w,
    try_catch (let* records := dnsLookup port name type in ret (f records))
              (fun msg => ret (h msg)) st = (Resolved a, (fst st, w)) /\
    (keeps_lookup_count port -> dnsCalls w = S (dnsCalls (snd st))).
Proof.
  destruct (dnsLookup_run port name type st) as (o & w & E & Hn).
  unfold try_catch, bind, ret. rewrite E.
  destruct o as [records | msg]; eexists _, _; (split; [reflexivity | exact Hn]).
Qed.

Lemma probe_selectors_run (port : Port) (domain : string) (selectors : list string) :
  forall found st,
    exists found' w,
      probe_selectors port domain selectors found st = (Resolved found', (fst st, w)) /\
      (keeps_lookup_count port ->
       dnsCalls w = (dnsCalls (snd st) + length selectors)%nat).
Proof.
  induction selectors as [| sel rest IH]; intros found st.
  - exists found, (snd st). destruct st. split; [reflexivity |]. simpl. intros _. lia.
  - cbn [probe_selectors]. unfold probe_selector.
    destruct (lookup_then_run port (sel +:+ "._domainkey." +:+ domain) TXT
                selector_found (fun _ => false) st) as (b & w & E & Hn).
    unfold bind at 1. rewrite E.
    destruct (IH (if b then found ++ [sel] else found) (fst st, w))
      as (found' & w' & E' & Hn').
    rewrite E'. exists found', w'. split; [reflexivity |].
    intros H. rewrite (Hn' H). simpl. rewrite (Hn H). lia.
Qed.

Lemma checkDomainOffline_run (port : Port) (d : string) (st : State) :
  exists mxRecords dmarcResult spfResult dkimResult w,
    _checkDomainOffline port d st =
      (Resolved (mkResult d None dmarcResult spfResult dkimResult mxRecords
                   (_calculateSecurityScore (dmarc_status dmarcResult)
                      (spf_status spfResult) (dkim_status dkimResult))),
       (fst st, w)) /\
    (keeps_lookup_count port -> dnsCalls w = (dnsCalls (snd st) + 9)%nat).
Proof.
  unfold _checkDomainOffline, _getMxRecords, _checkDmarc, _checkSpf, _checkDkim.
  destruct (lookup_then_run port d MX
              (fun mxRecords => match mxRecords with
                                | None | Some [] => []
                                | Some records => records
                                end)
              (fun _ => []) st) as (mxRecords & w1 & E1 & H1).
  destruct (lookup_then_run port ("_dmarc." +:+ d) TXT analyzeDmarc
              (fun msg => mkDmarc error "" "" (Some msg)) (fst st, w1))
    as (dmarcResult & w2 & E2 & H2).
  destruct (lookup_then_run port d TXT analyzeSpf
              (fun msg => mkSpf error "" (Some msg)) (fst st, w2))
    as (spfResult & w3 & E3 & H3).
  destruct (probe_selectors_run port d commonSelectors [] (fst st, w3))
    as (found & w4 & E4 & H4).
  cbn [fst snd] in *.
  exists mxRecords, dmarcResult, spfResult,
    (mkDkim (dkim_status_of found) found None), w4.
  split.
  - apply try_catch_run.
    eapply eq_trans; [eapply bind_run; exact E1 |]. cbv beta.
    eapply eq_trans; [eapply bind_run; exact E2 |]. cbv beta.
    eapply eq_trans; [eapply bind_run; exact E3 |]. cbv beta.
    eapply eq_trans;
      [eapply bind_run; apply try_catch_run; eapply eq_trans;
       [eapply bind_run; exact E4 | reflexivity] |].
    reflexivity.
  - intros H. rewrite (H4 H), (H3 H), (H2 H), (H1 H). simpl. lia.
Qed.

Lemma lookup_then_parts {A} (port : Port) (name : string) (type : RecordType)
  (f : option (list string) -> A) (h : string -> A) (st : State) :
  try_catch (let* records := dnsLookup port name type in ret (f records))
            (fun msg => ret (h msg)) st =
    let (o, w) := port name type (snd st) in
    (Resolved (match o with
               | Resolved records => f records
               | Rejected msg => h msg
               end),
     (fst st, count_lookup w)).
Proof.
  unfold try_catch, bind, ret, dnsLookup.
  destruct (port name type (snd st)) as [[records | msg] w]; reflexivity.
Qed.

(** X4: whatever the lookups resolve with, and also when every one of
    them rejects with an [Error], [_checkDomainOffline] resolves with a
    regular result: it bears the name it was given, has no error
    message, its score is the one of its three statuses, and the client
    is left as it was.  Each of the four checks handles the failure of
    its own lookups, so the handler of [_checkDomainOffline] does not
    run: a rejected MX lookup leaves no MX record, a rejected DMARC or
    SPF lookup leaves the status [error] with the message of its
    [Error], and the DKIM part never bears an error.  A rejection is an
    [Error] with its message, as [Rejected] has it; a lookup that
    rejects with a value that has no message, such as [null], is not
    covered. *)
Theorem checkDomainOffline_never_errors (port : Port) (d : string) (st : State) :
  exists r w,
    _checkDomainOffline port d st = (Resolved r, (fst st, w)) /\
    domain r = d /\
    errorMessage r = None /\
    securityScore r =
      _calculateSecurityScore (dmarc_status (dmarc r)) (spf_status (spf r))
                              (dkim_status (dkim r)) /\
    dkim_error (dkim r) = None /\
    let (o1, w1) := port d MX (snd st) in
    let (o2, w2) := port ("_dmarc." +:+ d) TXT (count_lookup w1) in
    let (o3, w3) := port d TXT (count_lookup w2) in
    (forall msg, o1 = Rejected msg -> mx r = []) /\
    (forall msg, o2 = Rejected msg -> dmarc r = mkDmarc error "" "" (Some msg)) /\
    (forall msg, o3 = Rejected msg -> spf r = mkSpf error "" (Some msg)).
Proof.
  pose proof (lookup_then_parts port d MX
                (fun mxRecords => match mxRecords with
                                  | None | Some [] => []
                                  | Some records => records
                                  end)
                (fun _ => []) st) as R1.
  destruct (port d MX (snd st)) as [o1 w1].
  pose proof (lookup_then_parts port ("_dmarc." +:+ d) TXT analyzeDmarc
                (fun msg => mkDmarc error "" "" (Some msg))
                (fst st, count_lookup w1)) as R2.
  cbn [fst snd] in R2.
  destruct (port ("_dmarc." +:+ d) TXT (count_lookup w1)) as [o2 w2].
  pose proof (lookup_then_parts port d TXT analyzeSpf
                (fun msg => mkSpf error "" (Some msg))
                (fst st, count_lookup w2)) as R3.
  cbn [fst snd] in R3.
  destruct (port d TXT (count_lookup w2)) as [o3 w3].
  destruct (probe_selectors_run port d commonSelectors [] (fst st, count_lookup w3))
    as (found & w4 & R4 & _).
  cbn [fst snd] in R4.
  eexists _, w4. split.
  - unfold _checkDomainOffline, _getMxRecords, _checkDmarc, _checkSpf, _checkDkim.
    apply try_catch_run.
    eapply eq_trans; [eapply bind_run; exact R1 |]. cbv beta.
    eapply eq_trans; [eapply bind_run; exact R2 |]. cbv beta.
    eapply eq_trans; [eapply bind_run; exact R3 |]. cbv beta.
    eapply eq_trans;
      [eapply bind_run; apply try_catch_run; eapply eq_trans;
       [eapply bind_run; exact R4 | reflexivity] |].
    reflexivity.
  - cbn [domain errorMessage securityScore dmarc spf dkim mx dkim_error].
    repeat split; intros msg ->; reflexivity.
Qed.

(** X5: one offline check makes exactly nine lookups: one for the MX
    records, one for the DMARC record, one for the SPF record and one
    for each of the six selectors, whether they resolve or reject with
    an [Error].  A rejection is an [Error] with its message, as
    [Rejected] has it; a lookup that rejects with a value that has no
    message, such as [null], is not covered. *)
Theorem checkDomainOffline_nine_lookups (port : Port) (d : string) (st : State)
  (Hport : keeps_lookup_count port) :
  dnsCalls (snd (snd (_checkDomainOffline port d st))) = (dnsCalls (snd st) + 9)%nat.
Proof.
  destruct (checkDomainOffline_run port d st)
    as (mxRecords & dmarcResult & spfResult & dkimResult & w & E & Hn).
  rewrite E. exact (Hn Hport).
Qed.

Lemma dnsLookup_keeps_lookup_count : keeps_lookup_count _dnsLookup.
Proof.
  intros name type w. unfold _dnsLookup, randomItem, random_below, random_above, Math_random.
  destruct type;
    repeat match goal with
           | |- context [if ?b then _ else _] => destruct b
           end;
    reflexivity.
Qed.

Lemma checkDomainOffline_nine_lookups_witness :
  keeps_lookup_count _dnsLookup /\
  dnsCalls (snd (snd (_checkDomainOffline _dnsLookup "example.org"
                        (new_client, constant_world 0)))) = 9%nat.
Proof.
  split; [exact dnsLookup_keeps_lookup_count |].
  exact (checkDomainOffline_nine_lookups _dnsLookup "example.org"
           (new_client, constant_world 0) dnsLookup_keeps_lookup_count).
Defined.

(** ** The simulated check *)

Lemma randomItem_world {A} (dflt : A) (arr : list A) (w : World) :
  snd (randomItem dflt arr w) = mkWorld (rnd w) (S (drawn w)) (dnsCalls w) (strategyCalls w).
Proof.
  unfold randomItem, random_below, Math_random. reflexivity.
Qed.

(** X6: [_simulateDomainCheck] never fails and makes no lookup; it
    draws three random numbers, and a fourth exactly when the DMARC
    status came out [ok].  Its result bears the name it was given and no
    error message, and its parts agree with each other: the DKIM status
    is the one that the number of selectors gives in the real check, the
    DMARC and SPF records are empty exactly under status [error], a
    policy is present exactly under DMARC status [ok], and the score is
    the one of the three statuses.  The DMARC record does not bear out
    the status [ok]: it has no [rua=], so the analysis of the offline
    check grades it [warning]. *)
Theorem simulateDomainCheck_consistent (d : string) (st : State) :
  exists r w,
    _simulateDomainCheck d st = (Resolved r, (fst st, w)) /\
    domain r = d /\ errorMessage r = None /\
    mx r = ["mx1." +:+ d; "mx2." +:+ d] /\
    dkim_status (dkim r) = dkim_status_of (dkim_selectors (dkim r)) /\
    (dmarc_record (dmarc r) = "" <-> dmarc_status (dmarc r) = error) /\
    (spf_record (spf r) = "" <-> spf_status (spf r) = error) /\
    (dmarc_policy (dmarc r) <> "" <-> dmarc_status (dmarc r) = ok) /\
    dmarc_status (analyzeDmarc (Some [dmarc_record (dmarc r)])) =
      match dmarc_status (dmarc r) with
      | error => error
      | _ => warning
      end /\
    securityScore r =
      _calculateSecurityScore (dmarc_status (dmarc r)) (spf_status (spf r))
                              (dkim_status (dkim r)) /\
    dnsCalls w = dnsCalls (snd st) /\ strategyCalls w = strategyCalls (snd st) /\
    drawn w = (drawn (snd st) +
               match dmarc_status (dmarc r) with ok => 4 | _ => 3 end)%nat.
Proof.
  destruct st as [c w0].
  unfold _simulateDomainCheck, try_catch, bind, lift_world, ret. cbn [fst snd].
  pose proof (randomItem_world error [ok; warning; error] w0) as H1.
  destruct (randomItem error [ok; warning; error] w0) as [dmarcStatus w1].
  cbn [fst snd] in *. subst w1.
  match goal with
  | |- context [randomItem error [ok; warning; error] ?w] =>
      pose proof (randomItem_world error [ok; warning; error] w) as H2;
      destruct (randomItem error [ok; warning; error] w) as [spfStatus w2]
  end.
  cbn [fst snd] in *. subst w2.
  match goal with
  | |- context [randomItem error [ok; warning; error] ?w] =>
      pose proof (randomItem_world error [ok; warning; error] w) as H3;
      destruct (randomItem error [ok; warning; error] w) as [dkimStatus w3]
  end.
  cbn [fst snd] in *. subst w3.
  destruct dmarcStatus.
  - match goal with
    | |- context [randomItem ?dflt ?arr ?w] =>
        destruct (randomItem_in dflt arr w) as [Hin Hw]; [discriminate |];
        destruct (randomItem dflt arr w) as [policy w4]
    end.
    cbn [fst snd] in *. subst w4.
    assert (Hpol : policy <> "").
    { destruct Hin as [<- | [<- | [<- | []]]]; discriminate. }
    eexists _, _. split; [reflexivity |]. cbn.
    repeat split; try discriminate; try congruence; try lia;
      try (destruct dkimStatus; reflexivity);
      try (destruct spfStatus; try discriminate; try reflexivity; intros H;
           exfalso; revert H; discriminate);
      try (destruct Hin as [<- | [<- | [<- | []]]]; vm_compute; reflexivity).
  - eexists _, _. split; [reflexivity |]. cbn.
    repeat split; try discriminate; try congruence; try lia;
      try (destruct dkimStatus; reflexivity);
      try (destruct spfStatus; try discriminate; try reflexivity; intros H;
           exfalso; revert H; discriminate).
  - eexists _, _. split; [reflexivity |]. cbn.
    repeat split; try discriminate; try congruence; try lia;
      try (destruct dkimStatus; reflexivity);
      try (destruct spfStatus; try discriminate; try reflexivity; intros H;
           exfalso; revert H; discriminate).
Qed.

(** ** Modes and lookups *)

Lemma mode_strategy_port_free (port port' : Port) (m d : string) :
  m <> "offline" -> mode_strategy port m d = mode_strategy port' m d.
Proof.
  intros Hm. unfold mode_strategy.
  apply String.eqb_neq in Hm. rewrite Hm. reflexivity.
Qed.

(** X7: only the [offline] mode consults the lookup.  In every other
    mode, the unknown ones included, [checkDomain] gives the same
    outcome and leaves the same state whatever the lookup would
    answer. *)
Theorem checkDomain_lookup_only_offline (port port' : Port) (v : JsValue) (st : State)
  (Hmode : mode (fst st) <> "offline") :
  checkDomain port v st = checkDomain port' v st.
Proof.
  rewrite !checkDomain_by_parts, checkDomain_begin_run. cbn [fst].
  repeat match goal with
         | |- context [if ?b then _ else _] => destruct b
         | |- context [match ?x with Some _ => _ | None => _ end] => destruct x
         end;
    try reflexivity;
    unfold checkDomain_finish;
    rewrite (mode_strategy_port_free port port' _ _ Hmode); reflexivity.
Qed.

Lemma checkDomain_lookup_only_offline_witness :
  mode (fst (new_client, constant_world 0)) <> "offline" /\
  checkDomain failing_port (JsStr "example.org") (new_client, constant_world 0) =
  checkDomain _dnsLookup (JsStr "example.org") (new_client, constant_world 0).
Proof.
  split; [discriminate |].
  apply (checkDomain_lookup_only_offline failing_port _dnsLookup (JsStr "example.org")
           (new_client, constant_world 0)).
  discriminate.
Defined.

(** ** Normalisation of names *)

Lemma is_space_lower_char (c : ascii) : is_space (lower_char c) = is_space c.
Proof. destruct c as [[] [] [] [] [] [] [] []]; reflexivity. Qed.

Lemma lower_char_idempotent (c : ascii) : lower_char (lower_char c) = lower_char c.
Proof. destruct c as [[] [] [] [] [] [] [] []]; reflexivity. Qed.

Lemma toLowerCase_idempotent (s : string) : toLowerCase (toLowerCase s) = toLowerCase s.
Proof.
  induction s as [| c s IH]; simpl; [reflexivity |].
  rewrite lower_char_idempotent, IH. reflexivity.
Qed.

Lemma toLowerCase_empty (s : string) : toLowerCase s = "" <-> s = "".
Proof. destruct s; simpl; split; intros H; try reflexivity; discriminate. Qed.

Lemma trimStart_toLowerCase (s : string) :
  trimStart (toLowerCase s) = toLowerCase (trimStart s).
Proof.
  induction s as [| c s IH]; simpl; [reflexivity |].
  rewrite is_space_lower_char. destruct (is_space c); [exact IH | reflexivity].
Qed.

Lemma trimEnd_toLowerCase (s : string) :
  trimEnd (toLowerCase s) = toLowerCase (trimEnd s).
Proof.
  induction s as [| c s IH]; simpl; [reflexivity |].
  rewrite IH, is_space_lower_char.
  destruct (trimEnd s) as [| c' t]; simpl; [| reflexivity].
  destruct (is_space c); reflexivity.
Qed.

Lemma trim_toLowerCase (s : string) : trim (toLowerCase s) = toLowerCase (trim s).
Proof. unfold trim. rewrite trimStart_toLowerCase, trimEnd_toLowerCase. reflexivity. Qed.

Lemma trimEnd_idempotent (s : string) : trimEnd (trimEnd s) = trimEnd s.
Proof.
  induction s as [| c s IH]; simpl; [reflexivity |].
  destruct (trimEnd s) as [| c' t] eqn:E.
  - destruct (is_space c) eqn:Ec; simpl; [reflexivity |]. rewrite Ec. reflexivity.
  - change (trimEnd (String c (String c' t)))
      with (match trimEnd (String c' t) with
            | EmptyString => if is_space c then EmptyString else String c EmptyString
            | u => String c u
            end).
    rewrite IH. reflexivity.
Qed.

Lemma head_ok_trimStart (s : string) : head_ok (trimStart s).
Proof.
  induction s as [| c s IH]; simpl; [exact I |].
  destruct (is_space c) eqn:Ec; [exact IH | exact Ec].
Qed.

Lemma head_ok_trimEnd (s : string) : head_ok s -> head_ok (trimEnd s).
Proof.
  destruct s as [| c s]; simpl; [trivial |]. intros Hc.
  destruct (trimEnd s); [rewrite Hc |]; exact Hc.
Qed.

Lemma trimStart_head_ok (s : string) : head_ok s -> trimStart s = s.
Proof. destruct s as [| c s]; simpl; [trivial |]. intros ->. reflexivity. Qed.

Lemma trim_idempotent (s : string) : trim (trim s) = trim s.
Proof.
  unfold trim.
  rewrite (trimStart_head_ok (trimEnd (trimStart s))).
  - apply trimEnd_idempotent.
  - apply head_ok_trimEnd, head_ok_trimStart.
Qed.

Lemma normalized_idempotent (s : string) :
  normalized (JsStr (normalized (JsStr s))) = normalized (JsStr s).
Proof.
  unfold normalized.
  rewrite (trim_toLowerCase (trim s)), trim_idempotent, toLowerCase_idempotent.
  reflexivity.
Qed.

(** X8: [checkDomain] depends on a string only through its normal form,
    the string trimmed and in lower case, as long as trimming leaves
    something: checking the normal form gives the same outcome and the
    same state as checking the string itself.  (A string of white space
    alone is refused as an invalid name, the empty string as a missing
    one.) *)
Theorem checkDomain_normal_form (port : Port) (s : string) (st : State)
  (Hs : trim s <> "") :
  checkDomain port (JsStr (toLowerCase (trim s))) st = checkDomain port (JsStr s) st.
Proof.
  assert (Hn : toLowerCase (trim s) <> "") by (rewrite toLowerCase_empty; exact Hs).
  assert (Hs' : s <> "") by (intros ->; apply Hs; reflexivity).
  rewrite !checkDomain_by_parts, !checkDomain_begin_run.
  change (toLowerCase (trim s)) with (normalized (JsStr s)) in *.
  rewrite normalized_idempotent.
  apply String.eqb_neq in Hn, Hs'.
  cbn [truthy is_string fst]. rewrite Hn, Hs'. reflexivity.
Qed.

Lemma checkDomain_normal_form_witness :
  trim "  Example.ORG " <> "" /\
  checkDomain _dnsLookup (JsStr "example.org") (new_client, constant_world 0) =
  checkDomain _dnsLookup (JsStr "  Example.ORG ") (new_client, constant_world 0).
Proof.
  split; [vm_compute; discriminate |].
  apply (checkDomain_normal_form _dnsLookup "  Example.ORG " (new_client, constant_world 0)).
  vm_compute. discriminate.
Defined.

(** ** The validator and the normal form *)

Lemma classes_cat' (P : (ascii -> bool) -> Prop) (r1 r2 : Regex.regex) :
  classes P r1 -> classes P r2 -> classes P (Regex.cat' r1 r2).
Proof. destruct r1; simpl; tauto. Qed.

Lemma classes_alt' (P : (ascii -> bool) -> Prop) (r1 r2 : Regex.regex) :
  classes P r1 -> classes P r2 -> classes P (Regex.alt' r1 r2).
Proof. destruct r1, r2; simpl; tauto. Qed.

Lemma classes_deriv (P : (ascii -> bool) -> Prop) (a : ascii) (r : Regex.regex) :
  classes P r -> classes P (Regex.deriv a r).
Proof.
  induction r as [| | p | r1 IH1 r2 IH2 | r1 IH1 r2 IH2 | r1 IH1]; simpl; try tauto.
  - intros _. destruct (p a); exact I.
  - intros [H1 H2]. destruct (Regex.nullable r1).
    + apply classes_alt'; [apply classes_cat' |]; auto.
    + apply classes_cat'; auto.
  - intros [H1 H2]. apply classes_alt'; auto.
  - intros H. apply classes_cat'; auto.
Qed.

Lemma classes_Upto (P : (ascii -> bool) -> Prop) (n : nat) (r : Regex.regex) :
  classes P r -> classes P (Regex.Upto n r).
Proof. intros H. induction n as [| n IH]; simpl; tauto. Qed.

Lemma classes_domainRegex (P : (ascii -> bool) -> Prop) :
  P alnum -> P alnum_hyphen -> P is_dot -> classes P domainRegex.
Proof.
  intros Ha Hh Hd.
  assert (Hu : classes P (Regex.Upto 61 (Regex.Cls alnum_hyphen)))
    by (apply classes_Upto; exact Hh).
  unfold domainRegex, labelRegex, tldRegex, Regex.Plus, Regex.Opt.
  cbn [classes]. tauto.
Qed.

Lemma deriv_invariant (f : ascii -> ascii) (a : ascii) (r : Regex.regex) :
  classes (fun p => forall c, p (f c) = p c) r ->
  Regex.deriv (f a) r = Regex.deriv a r.
Proof.
  induction r as [| | p | r1 IH1 r2 IH2 | r1 IH1 r2 IH2 | r1 IH1]; simpl;
    try reflexivity.
  - intros ->. reflexivity.
  - intros [H1 H2]. rewrite IH1, IH2 by assumption. reflexivity.
  - intros [H1 H2]. rewrite IH1, IH2 by assumption. reflexivity.
  - intros H. rewrite IH1 by assumption. reflexivity.
Qed.

Lemma matches_invariant (f : ascii -> ascii) (w : list ascii) :
  forall r, classes (fun p => forall c, p (f c) = p c) r ->
            Regex.matches r (map f w) = Regex.matches r w.
Proof.
  induction w as [| a w IH]; intros r Hr; simpl; [reflexivity |].
  rewrite deriv_invariant by assumption.
  apply IH, classes_deriv, Hr.
Qed.

Lemma classes_lang_Forall (q : ascii -> bool) (r : Regex.regex) :
  classes (fun p => forall c, p c = true -> q c = true) r ->
  forall w, Regex.lang r w -> Forall (fun c => q c = true) w.
Proof.
  induction r as [| | p | r1 IH1 r2 IH2 | r1 IH1 r2 IH2 | r1 IH1]; simpl; intros Hr w Hw.
  - contradiction.
  - subst w. constructor.
  - destruct Hw as (a & -> & Ha). repeat constructor. apply Hr, Ha.
  - destruct Hr as [H1 H2]. destruct Hw as (w1 & w2 & -> & Hw1 & Hw2).
    apply Forall_app. split; [apply IH1 | apply IH2]; assumption.
  - destruct Hr as [H1 H2]. destruct Hw as [Hw | Hw]; [apply IH1 | apply IH2]; assumption.
  - destruct Hw as (ws & -> & Hws).
    induction Hws as [| u ws Hu Hws IH]; simpl; [constructor |].
    apply Forall_app. split; [apply IH1; assumption | exact IH].
Qed.

Lemma list_ascii_toLowerCase (s : string) :
  list_ascii_of_string (toLowerCase s) = map lower_char (list_ascii_of_string s).
Proof. induction s as [| c s IH]; simpl; [reflexivity |]. rewrite IH. reflexivity. Qed.

Lemma alnum_lower_char (c : ascii) : alnum (lower_char c) = alnum c.
Proof. destruct c as [[] [] [] [] [] [] [] []]; reflexivity. Qed.

Lemma alnum_hyphen_lower_char (c : ascii) : alnum_hyphen (lower_char c) = alnum_hyphen c.
Proof. destruct c as [[] [] [] [] [] [] [] []]; reflexivity. Qed.

Lemma is_dot_lower_char (c : ascii) : is_dot (lower_char c) = is_dot c.
Proof. destruct c as [[] [] [] [] [] [] [] []]; reflexivity. Qed.

Lemma name_char_no_space (c : ascii) :
  (alnum c = true -> negb (is_space c) = true) /\
  (alnum_hyphen c = true -> negb (is_space c) = true) /\
  (is_dot c = true -> negb (is_space c) = true).
Proof.
  destruct c as [[] [] [] [] [] [] [] []]; vm_compute; repeat split; congruence.
Qed.

Lemma isValidDomain_toLowerCase (s : string) :
  isValidDomain (toLowerCase s) = isValidDomain s.
Proof.
  unfold isValidDomain, Regex.test. rewrite list_ascii_toLowerCase.
  apply matches_invariant, classes_domainRegex.
  - exact alnum_lower_char.
  - exact alnum_hyphen_lower_char.
  - exact is_dot_lower_char.
Qed.

Lemma trimEnd_no_space (s : string) :
  Forall (fun c => negb (is_space c) = true) (list_ascii_of_string s) -> trimEnd s = s.
Proof.
  induction s as [| c s IH]; simpl; [reflexivity |].
  intros H. inversion H as [| c' l Hc Hs]; subst.
  rewrite (IH Hs). apply negb_true_iff in Hc. rewrite Hc.
  destruct s; reflexivity.
Qed.

Lemma isValidDomain_trim (s : string) : isValidDomain s = true -> trim s = s.
Proof.
  unfold isValidDomain, Regex.test. rewrite matches_lang. intros Hl.
  assert (Hs : Forall (fun c => negb (is_space c) = true) (list_ascii_of_string s)).
  { revert Hl. apply classes_lang_Forall, classes_domainRegex;
      intros c; apply name_char_no_space. }
  unfold trim. rewrite trimStart_head_ok; [apply trimEnd_no_space, Hs |].
  destruct s as [| c s]; simpl; [exact I |].
  inversion Hs as [| c' l Hc _]; subst. apply negb_true_iff, Hc.
Qed.

Lemma name_char_classes (c : ascii) :
  (alnum c = true -> name_char c) /\
  (alnum_hyphen c = true -> name_char c) /\
  (is_dot c = true -> name_char c).
Proof.
  assert (Ha : alnum c = true -> name_char c).
  { unfold alnum, is_lower, is_upper, is_digit, between, name_char.
    rewrite !orb_true_iff, !andb_true_iff, !Nat.leb_le. tauto. }
  split; [exact Ha |]. split.
  - unfold alnum_hyphen. rewrite orb_true_iff. intros [H | H]; [exact (Ha H) |].
    apply Ascii.eqb_eq in H. unfold name_char. tauto.
  - unfold is_dot. intros H. apply Ascii.eqb_eq in H. unfold name_char. tauto.
Qed.

Lemma name_char_ascii (c : ascii) : name_char c -> (code c < 128)%nat.
Proof.
  unfold name_char. intros [H | [H | [H | [-> | ->]]]]; try lia; vm_compute; lia.
Qed.

Lemma isValidDomain_name_chars (s : string) :
  isValidDomain s = true -> Forall name_char (list_ascii_of_string s).
Proof.
  unfold isValidDomain, Regex.test. rewrite matches_lang. intros Hl.
  assert (H : Forall (fun c => alnum_hyphen c || is_dot c = true)
                     (list_ascii_of_string s)).
  { revert Hl. apply classes_lang_Forall, classes_domainRegex; intros c H.
    - unfold alnum_hyphen. rewrite H. reflexivity.
    - rewrite H. reflexivity.
    - rewrite H. apply orb_true_r. }
  eapply List.Forall_impl; [| exact H]. intros c Hc. cbv beta in Hc.
  destruct (name_char_classes c) as (_ & Hh & Hd).
  apply orb_true_iff in Hc as [Hc | Hc]; auto.
Qed.

(** X9: what the validator accepts.  A valid name is made of ASCII
    letters, digits, hyphens and dots and of nothing else; so it is not
    empty, it has no white space for [trim] to drop, and its lower-case
    form, which is the form under which [checkDomain] checks it, is a
    valid name as well. *)
Theorem isValidDomain_case_and_space (s : string)
  (Hvalid : isValidDomain s = true) :
  Forall name_char (list_ascii_of_string s) /\
  ascii_only s /\
  s <> "" /\
  trim s = s /\
  normalized (JsStr s) = toLowerCase s /\
  isValidDomain (toLowerCase s) = true.
Proof.
  pose proof (isValidDomain_name_chars s Hvalid) as Hchars.
  pose proof (isValidDomain_trim s Hvalid) as Htrim.
  split; [exact Hchars |].
  split; [eapply List.Forall_impl; [| exact Hchars]; exact name_char_ascii |].
  split; [intros ->; vm_compute in Hvalid; discriminate |].
  split; [exact Htrim |].
  split; [unfold normalized; rewrite Htrim; reflexivity |].
  rewrite isValidDomain_toLowerCase. exact Hvalid.
Qed.

Lemma isValidDomain_case_and_space_witness :
  isValidDomain "Mail-1.Example.COM" = true /\
  Forall name_char (list_ascii_of_string "Mail-1.Example.COM") /\
  trim "Mail-1.Example.COM" = "Mail-1.Example.COM" /\
  normalized (JsStr "Mail-1.Example.COM") = "mail-1.example.com" /\
  isValidDomain "mail-1.example.com" = true.
Proof.
  assert (H : isValidDomain "Mail-1.Example.COM" = true) by (vm_compute; reflexivity).
  destruct (isValidDomain_case_and_space "Mail-1.Example.COM" H)
    as (Hchars & _ & _ & Htrim & Hnorm & Hlower).
  split; [exact H |]. split; [exact Hchars |]. split; [exact Htrim |].
  split; [exact Hnorm | exact Hlower].
Defined.

(** X10: [checkDomains] and [checkDomain] on what a valid name is.
    Every name that [checkDomains] puts in its queue is not empty and
    passes the validation that [checkDomain] makes on its normal form,
    which is the name in lower case.  Every entry of ASCII characters
    that [checkDomains] sets aside as invalid is refused by
    [checkDomain] too.  And the two lists share out the trimmed entries
    that are not empty. *)
Theorem checkDomains_validation_agrees (domains : list string) :
  Forall (fun d => d <> "" /\ normalized (JsStr d) = toLowerCase d /\
                   isValidDomain (normalized (JsStr d)) = true)
         (validDomains domains) /\
  Forall (fun d => d <> "" /\
                   (ascii_only d -> isValidDomain (normalized (JsStr d)) = false))
         (invalidDomains domains) /\
  (length (validDomains domains) + length (invalidDomains domains) =
   length (List.filter (fun d => negb (String.eqb d "")) (map trim domains)))%nat.
Proof.
  unfold validDomains, invalidDomains. split; [| split].
  - apply List.Forall_forall. intros d Hd.
    apply List.filter_In in Hd as [_ Hd]. apply andb_true_iff in Hd as [Hlen Hv].
    assert (Ht : trim d = d) by (apply isValidDomain_trim, Hv).
    unfold normalized. rewrite Ht, isValidDomain_toLowerCase.
    repeat split; [| exact Hv]. intros ->. discriminate.
  - apply List.Forall_forall. intros d Hd.
    apply List.filter_In in Hd as [Hin Hd]. apply andb_true_iff in Hd as [Hlen Hv].
    apply negb_true_iff in Hv.
    apply List.in_map_iff in Hin as (x & <- & _).
    split; [intros E; rewrite E in Hlen; discriminate |]. intros _.
    unfold normalized. rewrite trim_idempotent, isValidDomain_toLowerCase.
    exact Hv.
  - induction (map trim domains) as [| d l IH]; simpl; [reflexivity |].
    destruct d as [| c d]; simpl; [exact IH |].
    destruct (isValidDomain (String c d)); simpl; lia.
Qed.

(** ** The scan, step by step *)

(** [checkDomains] in terms of the pool that its workers leave. *)
Lemma checkDomains_scan_end (port : Port) (domains : list string) (cb : bool)
  (schedule : list Event) (st : State) :
  isScanning (fst st) = false -> validDomains domains <> [] ->
  checkDomains port domains cb schedule st =
    (Resolved (_sortResultsByOriginalOrder
                 (results (fst (scan_end port domains cb schedule st)))
                 (invalidDomains domains ++ validDomains domains)),
     (set_activeScanTasks 0
        (set_isScanning false (fst (snd (scan_end port domains cb schedule st)))),
      snd (snd (scan_end port domains cb schedule st)))).
Proof.
  intros Hscan Hvalid. unfold checkDomains. rewrite Hscan.
  destruct (length (validDomains domains) =? 0)%nat eqn:E; [| reflexivity].
  apply Nat.eqb_eq in E. destruct (validDomains domains); [contradiction | discriminate].
Qed.

(** The cases of one step of a worker. *)
Lemma worker_step_cases (port : Port) (cb : bool) (total : nat)
  (I : Pool * State -> Prop) (i : nat) (p : Pool) (st : State) :
  (workers p !! i = None \/ workers p !! i = Some Exited -> I (p, st)) ->
  (workers p !! i = Some Ready ->
   shouldStop (fst st) = true \/ domainQueue p = [] ->
   I (set_worker i Exited p, st)) ->
  (forall q, workers p !! i = Some Ready -> shouldStop (fst st) = false ->
             domainQueue p = "" :: q ->
             I (set_worker i Exited (set_queue q p), st)) ->
  (forall d q, workers p !! i = Some Ready -> shouldStop (fst st) = false ->
               domainQueue p = d :: q -> d <> "" ->
               I (set_worker i
                    (if negb (isValidDomain (normalized (JsStr d))) then
                       Settled d (Resolved (_getErrorResult (normalized (JsStr d))
                                              "Некорректный формат доменного имени"))
                     else if cacheEnabled (fst st) then
                       match cache (fst st) !! normalized (JsStr d) with
                       | Some cached => Settled d (Resolved cached)
                       | None => Checking d (mode (fst st)) (normalized (JsStr d))
                       end
                     else Checking d (mode (fst st)) (normalized (JsStr d)))
                    (set_queue q p), st)) ->
  (forall d m n r w, workers p !! i = Some (Checking d m n) ->
                     mode_strategy port m n st = (Resolved r, (fst st, w)) ->
                     I (set_worker i (Settled d (Resolved r)) p,
                        ((if cacheEnabled (fst st)
                          then set_cache (<[n := r]> (cache (fst st))) (fst st)
                          else fst st), w))) ->
  (forall d r, workers p !! i = Some (Settled d (Resolved r)) ->
               I (set_worker i Sleeping (report cb total r p), st)) ->
  (forall d msg, workers p !! i = Some (Settled d (Rejected msg)) ->
                 I (set_worker i Ready (report cb total (_getErrorResult d msg) p), st)) ->
  (workers p !! i = Some Sleeping -> I (set_worker i Ready p, st)) ->
  I (worker_step port cb total i (p, st)).
Proof.
  intros Hidle Hexit Hempty Hpop Hcheck Hpush Herr Hwake. unfold worker_step.
  destruct (workers p !! i) as [[| d m n | d [r | msg] | |] |] eqn:Hi;
    [| | | | apply Hwake; reflexivity | apply Hidle; right; reflexivity
     | apply Hidle; left; reflexivity].
  - destruct (shouldStop (fst st)) eqn:Hs; [auto |].
    destruct (domainQueue p) as [| d q] eqn:Hq; [auto |].
    destruct (String.eqb d "") eqn:Hd.
    { apply String.eqb_eq in Hd. subst d. auto. }
    apply String.eqb_neq in Hd.
    unfold try_catch. rewrite checkDomain_begin_run.
    specialize (Hpop d q eq_refl eq_refl eq_refl Hd).
    assert (Ht : negb (truthy (JsStr d)) || negb (is_string (JsStr d)) = false).
    { cbn [truthy is_string]. apply String.eqb_neq in Hd. rewrite Hd. reflexivity. }
    rewrite Ht.
    destruct (negb (isValidDomain (normalized (JsStr d)))); [exact Hpop |].
    destruct (cacheEnabled (fst st)); [| exact Hpop].
    destruct (cache (fst st) !! normalized (JsStr d)); exact Hpop.
  - unfold try_catch.
    destruct (checkDomain_finish_run port m n st) as (r & w & Hm & ->).
    eapply Hcheck; [reflexivity | exact Hm].
  - eapply Hpush. reflexivity.
  - eapply Herr. reflexivity.
Qed.

(** A property that every step of a scan keeps holds when the workers
    have returned. *)
Lemma run_schedule_preserves (port : Port) (cb : bool) (total : nat)
  (I : Pool * State -> Prop) (schedule : list Event) :
  (forall i ps, I ps -> I (worker_step port cb total i ps)) ->
  (In Stop schedule -> forall ps, I ps -> I (fst ps, snd (stopScan (snd ps)))) ->
  forall ps, I ps -> I (run_schedule port cb total schedule ps).
Proof.
  intros Hstep. induction schedule as [| e rest IH]; intros Hstop ps H; simpl; [exact H |].
  destruct (first_live _); [| exact H].
  apply IH; [intros Hin; apply Hstop; right; exact Hin |].
  destruct e as [i |]; simpl; [apply Hstep, H |].
  apply Hstop; [left; reflexivity | exact H].
Qed.

Lemma drain_preserves (port : Port) (cb : bool) (total : nat)
  (I : Pool * State -> Prop) (fuel : nat) :
  (forall i ps, I ps -> I (worker_step port cb total i ps)) ->
  forall ps, I ps -> I (drain port cb total fuel ps).
Proof.
  intros Hstep. induction fuel as [| fuel IH]; intros ps H; simpl; [exact H |].
  destruct (first_live _); [| exact H]. apply IH, Hstep, H.
Qed.

Lemma start_workers_preserves (port : Port) (cb : bool) (total : nat)
  (I : Pool * State -> Prop) (n : nat) :
  (forall i ps, I ps -> I (worker_step port cb total i ps)) ->
  (forall p st, I (p, st) -> I (add_worker p, st)) ->
  (forall p st k, I (p, st) -> I (p, (set_activeScanTasks k (fst st), snd st))) ->
  forall ps, I ps -> I (Nat.iter n (start_worker port cb total) ps).
Proof.
  intros Hstep Hadd Htasks ps H. induction n as [| n IH]; [exact H |].
  change (Nat.iter (S n) (start_worker port cb total) ps)
    with (start_worker port cb total (Nat.iter n (start_worker port cb total) ps)).
  destruct (Nat.iter n _ ps) as [p st]. unfold start_worker.
  pose proof (Hstep (length (workers p)) _ (Hadd p st IH)) as H'.
  destruct (worker_step _ _ _ _ _) as [p' st']. apply Htasks, H'.
Qed.

Lemma run_workers_preserves (port : Port) (cb : bool) (total : nat)
  (I : Pool * State -> Prop) (n : nat) (schedule : list Event) :
  (forall i ps, I ps -> I (worker_step port cb total i ps)) ->
  (forall p st, I (p, st) -> I (add_worker p, st)) ->
  (forall p st k, I (p, st) -> I (p, (set_activeScanTasks k (fst st), snd st))) ->
  (In Stop schedule -> forall ps, I ps -> I (fst ps, snd (stopScan (snd ps)))) ->
  forall ps, I ps -> I (run_workers port cb total n schedule ps).
Proof.
  intros Hstep Hadd Htasks Hstop ps H. unfold run_workers.
  apply drain_preserves; [exact Hstep |].
  apply run_schedule_preserves; [exact Hstep | exact Hstop |].
  apply start_workers_preserves; assumption.
Qed.

Lemma scan_end_after (port : Port) (domains : list string) (cb : bool)
  (schedule : list Event) (st : State) :
  scan_end port domains cb schedule st =
    drain port cb (scan_total domains)
      (pool_measure (fst (scan_after port domains cb schedule st)))
      (scan_after port domains cb schedule st).
Proof. reflexivity. Qed.

(** ** The books of a scan *)

Lemma sum_insert {A} (f : A -> nat) (l : list A) (i : nat) (x y : A) :
  l !! i = Some x ->
  (list_sum (map f (<[i := y]> l)) + f x = list_sum (map f l) + f y)%nat.
Proof.
  revert i. induction l as [| a l IH]; intros [| i] H; simpl in *; try discriminate.
  - injection H as ->. lia.
  - specialize (IH i H). lia.
Qed.

Lemma number_from_app (n total : nat) (rs : list DomainCheckResult)
  (r : DomainCheckResult) :
  number_from n total (rs ++ [r]) =
  number_from n total rs ++ [((n + length rs)%nat, total, r)].
Proof.
  revert n. induction rs as [| r' rs IH]; intros n; simpl.
  - rewrite Nat.add_0_r. reflexivity.
  - rewrite IH. replace (S n + length rs)%nat with (n + S (length rs))%nat by lia.
    reflexivity.
Qed.

Lemma number_from_length (n total : nat) (rs : list DomainCheckResult) :
  length (number_from n total rs) = length rs.
Proof. revert n. induction rs as [| r rs IH]; intros n; simpl; [| rewrite IH]; reflexivity. Qed.

Lemma books_report (cb : bool) (total : nat) (r : DomainCheckResult) (p : Pool) :
  completedCount p = length (results p) ->
  progress p = (if cb then number_from 1 total (results p) else []) ->
  completedCount (report cb total r p) = length (results (report cb total r p)) /\
  progress (report cb total r p) =
    (if cb then number_from 1 total (results (report cb total r p)) else []).
Proof.
  intros Hc Hp. unfold report. cbn [completedCount results progress].
  rewrite length_app. cbn [length]. split; [lia |].
  destruct cb; [| exact Hp].
  rewrite number_from_app, Hp, Hc. reflexivity.
Qed.

Lemma worker_step_books (port : Port) (cb : bool) (total i : nat) (ps : Pool * State) :
  books_ok cb total (fst ps) -> books_ok cb total (fst (worker_step port cb total i ps)).
Proof.
  destruct ps as [p st]. cbn [fst]. intros (Hc & Hp & Hq & Hsum).
  pose proof (fun x y => sum_insert in_flight (workers p) i x y) as Hins.
  apply (worker_step_cases port cb total (fun ps => books_ok cb total (fst ps)));
    cbn [fst].
  - intros _. repeat split; assumption.
  - intros Hi _. specialize (Hins Ready Exited Hi). simpl in Hins.
    repeat split; try assumption. simpl. lia.
  - intros q _ _ E. rewrite E in Hq. inversion Hq. congruence.
  - intros d q Hi _ E Hd. rewrite E in Hq, Hsum. inversion Hq; subst.
    match goal with
    | |- books_ok _ _ (set_worker i ?ph _) =>
        assert (Hph : in_flight ph = 1%nat)
          by (repeat match goal with
                     | |- context [if ?b then _ else _] => destruct b
                     | |- context [match ?x with Some _ => _ | None => _ end] =>
                         destruct x
                     end; reflexivity);
        specialize (Hins Ready ph Hi); rewrite Hph in Hins
    end.
    repeat split; try assumption. simpl in *. lia.
  - intros d m n r w Hi _.
    specialize (Hins (Checking d m n) (Settled d (Resolved r)) Hi). simpl in Hins.
    repeat split; try assumption. simpl. lia.
  - intros d r Hi.
    specialize (Hins (Settled d (Resolved r)) Sleeping Hi). simpl in Hins.
    destruct (books_report cb total r p Hc Hp) as [Hc' Hp'].
    repeat split; try assumption. simpl. rewrite length_app. simpl. lia.
  - intros d msg Hi.
    specialize (Hins (Settled d (Rejected msg)) Ready Hi). simpl in Hins.
    destruct (books_report cb total (_getErrorResult d msg) p Hc Hp) as [Hc' Hp'].
    repeat split; try assumption. simpl. rewrite length_app. simpl. lia.
  - intros Hi. specialize (Hins Sleeping Ready Hi). simpl in Hins.
    repeat split; try assumption. simpl. lia.
Qed.

Lemma fold_report_results (cb : bool) (total : nat) (msg : string) (ds : list string) :
  forall p,
    let p' := fold_left (fun p d => report cb total (_getErrorResult d msg) p) ds p in
    results p' = results p ++ map (fun d => _getErrorResult d msg) ds /\
    domainQueue p' = domainQueue p /\ workers p' = workers p /\
    (completedCount p = length (results p) ->
     progress p = (if cb then number_from 1 total (results p) else []) ->
     completedCount p' = length (results p') /\
     progress p' = (if cb then number_from 1 total (results p') else [])).
Proof.
  induction ds as [| d ds IH]; intros p; cbn [fold_left map].
  - rewrite app_nil_r. auto.
  - destruct (IH (report cb total (_getErrorResult d msg) p)) as (Hr & Hq & Hw & Hb).
    cbv zeta. split; [rewrite Hr; cbn [results report]; rewrite <- app_assoc; reflexivity |].
    split; [rewrite Hq; reflexivity |]. split; [rewrite Hw; reflexivity |].
    intros Hc Hp. destruct (books_report cb total (_getErrorResult d msg) p Hc Hp).
    apply Hb; assumption.
Qed.

Lemma validDomains_nonempty (domains : list string) :
  Forall (fun d => d <> "") (validDomains domains).
Proof.
  apply List.Forall_forall. intros d Hd. unfold validDomains in Hd.
  apply List.filter_In in Hd as [_ Hd]. apply andb_true_iff in Hd as [Hlen _].
  intros ->. discriminate.
Qed.

Lemma scan_start_books (domains : list string) (cb : bool) (st : State) :
  books_ok cb (scan_total domains) (fst (scan_start domains cb st)).
Proof.
  unfold scan_start. cbn [fst].
  destruct (fold_report_results cb (scan_total domains)
              "Некорректный формат доменного имени" (invalidDomains domains)
              (mkPool (validDomains domains) [] 0 [] []))
    as (Hr & Hq & Hw & Hb).
  cbv zeta in *. cbn [results domainQueue workers completedCount progress] in *.
  destruct Hb as [Hc Hp]; [reflexivity | destruct cb; reflexivity |].
  repeat split; try assumption.
  - rewrite Hq. apply validDomains_nonempty.
  - rewrite Hr, Hq, Hw. cbn [app]. rewrite length_map. unfold scan_total. simpl. lia.
Qed.

Lemma scan_after_books (port : Port) (domains : list string) (cb : bool)
  (schedule : list Event) (st : State) :
  books_ok cb (scan_total domains) (fst (scan_after port domains cb schedule st)).
Proof.
  unfold scan_after.
  apply (run_schedule_preserves port cb (scan_total domains)
           (fun ps => books_ok cb (scan_total domains) (fst ps))).
  - apply worker_step_books.
  - intros _ ps H. exact H.
  - apply (start_workers_preserves port cb (scan_total domains)
             (fun ps => books_ok cb (scan_total domains) (fst ps))).
    + apply worker_step_books.
    + intros p st0 (Hc & Hp & Hq & Hsum). repeat split; try assumption.
      cbn [fst add_worker workers results domainQueue] in *.
      rewrite map_app, list_sum_app. simpl. lia.
    + intros p st0 k H. exact H.
    + apply scan_start_books.
Qed.

Lemma scan_end_books (port : Port) (domains : list string) (cb : bool)
  (schedule : list Event) (st : State) :
  books_ok cb (scan_total domains) (fst (scan_end port domains cb schedule st)).
Proof.
  rewrite scan_end_after.
  apply (drain_preserves port cb (scan_total domains)
           (fun ps => books_ok cb (scan_total domains) (fst ps))).
  - apply worker_step_books.
  - apply scan_after_books.
Qed.

Lemma exited_none_in_flight (ws : list Phase) :
  first_live ws = None -> list_sum (map in_flight ws) = 0%nat.
Proof.
  rewrite first_live_None. induction 1 as [| ph ws Hph _ IH]; simpl; [reflexivity |].
  destruct ph; try discriminate. simpl. exact IH.
Qed.

Lemma scan_end_all_exited (port : Port) (domains : list string) (cb : bool)
  (schedule : list Event) (st : State) :
  first_live (workers (fst (scan_end port domains cb schedule st))) = None.
Proof. apply run_workers_all_exited. Qed.

(** X11: at every moment of a scan the counter that [checkDomains]
    hands to the progress callback is the number of results pushed so
    far, and the calls made so far are one for each result, in the order
    of the results, numbered 1, 2, 3 and so on, each with the same
    total, the number of entries; without a callback there is no call.
    The counter never exceeds the total. *)
Theorem scan_progress_numbered (port : Port) (domains : list string) (cb : bool)
  (schedule : list Event) (st : State) :
  let p := fst (scan_after port domains cb schedule st) in
  completedCount p = length (results p) /\
  progress p = (if cb then number_from 1 (scan_total domains) (results p) else []) /\
  (completedCount p <= scan_total domains)%nat.
Proof.
  destruct (scan_after_books port domains cb schedule st) as (Hc & Hp & _ & Hsum).
  cbv zeta. repeat split; [exact Hc | exact Hp | lia].
Qed.

(** X12: when the workers of a scan have all returned, every entry is
    accounted for: the counter is the number of results, and the results
    and the names left in the queue are together as many as the entries,
    whatever the schedule and whether or not the scan was stopped; the
    progress calls are as many as the results. *)
Theorem scan_accounts_for_every_entry (port : Port) (domains : list string) (cb : bool)
  (schedule : list Event) (st : State) :
  let p := fst (scan_end port domains cb schedule st) in
  completedCount p = length (results p) /\
  (length (results p) + length (domainQueue p) = scan_total domains)%nat /\
  (if cb then length (progress p) = length (results p) else progress p = []).
Proof.
  destruct (scan_end_books port domains cb schedule st) as (Hc & Hp & _ & Hsum).
  pose proof (exited_none_in_flight _ (scan_end_all_exited port domains cb schedule st)) as H0.
  cbv zeta. repeat split; [exact Hc | lia |].
  destruct cb; [rewrite Hp; apply number_from_length | exact Hp].
Qed.

(** ** A scan that nobody stops *)

Lemma worker_step_unstopped (port : Port) (cb : bool) (total i : nat)
  (ps : Pool * State) :
  unstopped ps -> unstopped (worker_step port cb total i ps).
Proof.
  destruct ps as [p st]. intros (Hs & Hq & Hw). cbn [fst snd] in *.
  apply (worker_step_cases port cb total unstopped); unfold unstopped; cbn [fst snd].
  - intros _. auto.
  - intros _ [Hstop | Hempty]; [congruence |].
    repeat split; try assumption. left. exact Hempty.
  - intros q _ _ E. rewrite E in Hq. inversion Hq. congruence.
  - intros d q _ _ E _. rewrite E in Hq, Hw. inversion Hq; subst.
    destruct Hw as [Hw | Hw]; [discriminate |].
    repeat split; try assumption. right. cbn [set_worker set_queue workers].
    apply Forall_insert; [exact Hw |].
    repeat match goal with
           | |- context [if ?b then _ else _] => destruct b
           | |- context [match ?x with Some _ => _ | None => _ end] => destruct x
           end; reflexivity.
  - intros d m n r w _ _. split; [destruct (cacheEnabled (fst st)); exact Hs |].
    split; [exact Hq |]. destruct Hw as [Hw | Hw]; [left; exact Hw | right].
    apply Forall_insert; [exact Hw | reflexivity].
  - intros d r _. repeat split; try assumption.
    destruct Hw as [Hw | Hw]; [left; exact Hw | right].
    apply Forall_insert; [exact Hw | reflexivity].
  - intros d msg _. repeat split; try assumption.
    destruct Hw as [Hw | Hw]; [left; exact Hw | right].
    apply Forall_insert; [exact Hw | reflexivity].
  - intros _. repeat split; try assumption.
    destruct Hw as [Hw | Hw]; [left; exact Hw | right].
    apply Forall_insert; [exact Hw | reflexivity].
Qed.

Lemma no_stop_not_in (schedule : list Event) : no_stop schedule -> ~ In Stop schedule.
Proof.
  intros H Hin. unfold no_stop in H. rewrite List.Forall_forall in H.
  exact (H Stop Hin eq_refl).
Qed.

Lemma scan_end_unstopped (port : Port) (domains : list string) (cb : bool)
  (schedule : list Event) (st : State) :
  no_stop schedule -> unstopped (scan_end port domains cb schedule st).
Proof.
  intros Hns. unfold scan_end. apply run_workers_preserves.
  - apply worker_step_unstopped.
  - intros p st0 (Hs & Hq & Hw). repeat split; try assumption.
    destruct Hw as [Hw | Hw]; [left; exact Hw | right].
    cbn [fst add_worker workers] in *. apply Forall_app. split; [exact Hw |].
    repeat constructor.
  - intros p st0 k H. exact H.
  - intros Hin. destruct (no_stop_not_in schedule Hns Hin).
  - unfold scan_start, unstopped. cbn [fst snd].
    destruct (fold_report_results cb (scan_total domains)
                "Некорректный формат доменного имени" (invalidDomains domains)
                (mkPool (validDomains domains) [] 0 [] []))
      as (_ & Hq & Hw & _).
    cbv zeta in *. rewrite Hq, Hw. cbn [domainQueue workers].
    repeat split; [apply validDomains_nonempty | right; constructor].
Qed.

Lemma worker_step_workers_length (port : Port) (cb : bool) (total i : nat)
  (ps : Pool * State) :
  length (workers (fst (worker_step port cb total i ps))) = length (workers (fst ps)).
Proof.
  destruct ps as [p st].
  apply (worker_step_cases port cb total
           (fun ps' => length (workers (fst ps')) = length (workers (fst (p, st)))));
    intros; cbn [fst set_worker set_queue report workers];
    rewrite ?length_insert; reflexivity.
Qed.

Lemma run_workers_workers_length (port : Port) (cb : bool) (total n : nat)
  (schedule : list Event) (ps : Pool * State) :
  length (workers (fst (run_workers port cb total n schedule ps))) =
  (length (workers (fst ps)) + n)%nat.
Proof.
  unfold run_workers.
  assert (Hkeep : forall K,
            (forall i ps0, length (workers (fst ps0)) = K ->
                           length (workers (fst (worker_step port cb total i ps0))) = K)).
  { intros K i ps0 <-. apply worker_step_workers_length. }
  apply (drain_preserves port cb total
           (fun ps0 => length (workers (fst ps0)) = (length (workers (fst ps)) + n)%nat));
    [apply Hkeep |].
  apply (run_schedule_preserves port cb total
           (fun ps0 => length (workers (fst ps0)) = (length (workers (fst ps)) + n)%nat));
    [apply Hkeep | intros _ ps0 H; exact H |].
  induction n as [| n IH]; [simpl; lia |].
  change (Nat.iter (S n) (start_worker port cb total) ps)
    with (start_worker port cb total (Nat.iter n (start_worker port cb total) ps)).
  destruct (Nat.iter n _ ps) as [p0 st0]. unfold start_worker.
  pose proof (worker_step_workers_length port cb total (length (workers p0))
                (add_worker p0, st0)) as H.
  destruct (worker_step _ _ _ _ _) as [p' st']. cbn [fst] in *.
  rewrite H. cbn [add_worker workers]. rewrite length_app. simpl. lia.
Qed.

Lemma scan_workerCount_pos (domains : list string) (st : State) :
  validDomains domains <> [] -> (1 <= concurrentRequests (fst st))%Z ->
  (1 <= scan_workerCount domains st)%nat.
Proof.
  intros Hv Hc. unfold scan_workerCount.
  destruct (validDomains domains) as [| d ds]; [contradiction |].
  cbn [length]. lia.
Qed.

Lemma scan_end_queue_empty (port : Port) (domains : list string) (cb : bool)
  (schedule : list Event) (st : State) :
  no_stop schedule -> validDomains domains <> [] ->
  (1 <= concurrentRequests (fst st))%Z ->
  domainQueue (fst (scan_end port domains cb schedule st)) = [].
Proof.
  intros Hns Hv Hc.
  destruct (scan_end_unstopped port domains cb schedule st Hns) as (_ & _ & [Hq | Hw]);
    [exact Hq | exfalso].
  pose proof (scan_end_all_exited port domains cb schedule st) as Hex.
  apply first_live_None in Hex.
  pose proof (run_workers_workers_length port cb (scan_total domains)
                (scan_workerCount domains st) schedule (scan_start domains cb st)) as Hlen.
  pose proof (scan_workerCount_pos domains st Hv Hc) as Hpos.
  fold (scan_end port domains cb schedule st) in Hlen.
  destruct (workers (fst (scan_end port domains cb schedule st))) as [| ph ws];
    [simpl in Hlen; lia |].
  inversion Hex; subst. inversion Hw; subst. congruence.
Qed.

(** X13: a scan that nobody stops and that has at least one worker
    comes to the end of its queue: when its workers have returned the
    queue is empty, and the number of results, the counter and (with a
    callback) the number of progress calls are all the number of
    entries, under every interleaving of the workers. *)
Theorem scan_completes (port : Port) (domains : list string) (cb : bool)
  (schedule : list Event) (st : State)
  (Hstop : no_stop schedule)
  (Hvalid : validDomains domains <> [])
  (Hworkers : (1 <= concurrentRequests (fst st))%Z) :
  let p := fst (scan_end port domains cb schedule st) in
  domainQueue p = [] /\
  length (results p) = scan_total domains /\
  completedCount p = scan_total domains /\
  (if cb then length (progress p) = scan_total domains else progress p = []).
Proof.
  pose proof (scan_end_queue_empty port domains cb schedule st Hstop Hvalid Hworkers) as Hq.
  destruct (scan_end_books port domains cb schedule st) as (Hc & Hp & _ & Hsum).
  pose proof (exited_none_in_flight _ (scan_end_all_exited port domains cb schedule st)) as H0.
  cbv zeta. rewrite Hq in *. cbn [length] in Hsum.
  repeat split; [lia | lia |].
  destruct cb; [rewrite Hp, number_from_length; lia | exact Hp].
Qed.

Lemma scan_completes_witness :
  no_stop [Tick 0; Tick 1; Tick 0] /\
  validDomains ["example.com"; "not a domain"; "example.org"] <> [] /\
  (1 <= concurrentRequests (fst (new_client, constant_world 0)))%Z /\
  let p := fst (scan_end _dnsLookup ["example.com"; "not a domain"; "example.org"] true
                  [Tick 0; Tick 1; Tick 0] (new_client, constant_world 0)) in
  domainQueue p = [] /\
  length (results p) = scan_total ["example.com"; "not a domain"; "example.org"] /\
  completedCount p = scan_total ["example.com"; "not a domain"; "example.org"] /\
  length (progress p) = scan_total ["example.com"; "not a domain"; "example.org"].
Proof.
  assert (H1 : no_stop [Tick 0; Tick 1; Tick 0]) by (repeat constructor; discriminate).
  assert (H2 : validDomains ["example.com"; "not a domain"; "example.org"] <> [])
    by (vm_compute; discriminate).
  assert (H3 : (1 <= concurrentRequests (fst (new_client, constant_world 0)))%Z)
    by (simpl; lia).
  split; [exact H1 |]. split; [exact H2 |]. split; [exact H3 |].
  exact (scan_completes _dnsLookup ["example.com"; "not a domain"; "example.org"] true
           [Tick 0; Tick 1; Tick 0] (new_client, constant_world 0) H1 H2 H3).
Defined.

(** ** The shape of the results of a scan *)

Lemma valid_name_facts (d : string) :
  isValidDomain d = true ->
  d <> "" /\ normalized (JsStr d) = toLowerCase d /\
  isValidDomain (toLowerCase d) = true.
Proof.
  intros Hd. split; [intros ->; vm_compute in Hd; discriminate |].
  unfold normalized. rewrite (isValidDomain_trim d Hd), isValidDomain_toLowerCase. auto.
Qed.

Lemma simulateDomainCheck_regular (d : string) (st : State) :
  exists r w,
    _simulateDomainCheck d st = (Resolved r, (fst st, w)) /\
    domain r = d /\ regular r /\ dnsCalls w = dnsCalls (snd st).
Proof.
  destruct st as [c w0].
  unfold _simulateDomainCheck, try_catch, bind, lift_world, ret. cbn [fst snd].
  repeat match goal with
         | |- context [randomItem error [ok; warning; error] ?w] =>
             let H := fresh "H" in
             let s := fresh "status" in
             let w' := fresh "w" in
             pose proof (randomItem_world error [ok; warning; error] w) as H;
             destruct (randomItem error [ok; warning; error] w) as [s w'];
             cbn [fst snd] in *; subst w'
         end.
  match goal with
  | |- context [match ?s with ok => _ | _ => _ end] => destruct s
  end;
    try match goal with
        | |- context [randomItem ?dflt ?arr ?w] =>
            pose proof (randomItem_world dflt arr w) as Hp;
            destruct (randomItem dflt arr w) as [policy w4];
            cbn [fst snd] in *; subst w4
        end;
    eexists _, _; (split; [reflexivity |]); repeat split.
Qed.

Lemma mode_strategy_regular (port : Port) (m d : string) (st : State)
  (r : DomainCheckResult) (st' : State) :
  mode_strategy port m d st = (Resolved r, st') ->
  domain r = d /\ regular r.
Proof.
  unfold mode_strategy, bind, lift_world, _checkDomainViaApi, _checkDomainViaWeb.
  cbn [fst snd].
  set (st1 := (fst st, count_strategy (snd st))).
  destruct (simulateDomainCheck_regular d st1) as (rs & ws & Es & Hds & Hes & _).
  destruct (checkDomainOffline_run port d st1)
    as (mx & dm & sp & dk & wo & Eo & _).
  repeat match goal with
         | |- context [if ?b then _ else _] => destruct b
         end;
    rewrite ?Es, ?Eo; intros H; injection H as <- _; auto; repeat split.
Qed.

Lemma cache_wf_insert (c : gmap string DomainCheckResult) (n : string)
  (r : DomainCheckResult) :
  cache_wf c -> domain r = n -> regular r ->
  isValidDomain n = true -> toLowerCase n = n ->
  cache_wf (<[n := r]> c).
Proof.
  intros Hc Hd He Hv Hl k r' Hk.
  apply lookup_insert_Some in Hk as [[<- <-] | [_ Hk]]; [auto | apply Hc, Hk].
Qed.

Lemma holds_insert_cases (ws : list Phase) (i : nat) (x y : Phase) (d : string) :
  ws !! i = Some x ->
  (exists j ph, ws !! j = Some ph /\ holds d ph) ->
  holds d x \/ exists j ph, <[i := y]> ws !! j = Some ph /\ holds d ph.
Proof.
  intros Hi (j & ph & Hj & Hh).
  destruct (decide (i = j)) as [<- | Hne].
  - left. congruence.
  - right. exists j, ph. rewrite list_lookup_insert_ne by exact Hne. auto.
Qed.

Lemma holds_insert_same (ws : list Phase) (i : nat) (x y : Phase) (d : string) :
  ws !! i = Some x -> holds d y ->
  exists j ph, <[i := y]> ws !! j = Some ph /\ holds d ph.
Proof.
  intros Hi Hh. exists i, y. split; [| exact Hh].
  apply list_lookup_insert_Some. left. apply lookup_lt_Some in Hi. auto.
Qed.

Lemma holds_insert_keep (ws : list Phase) (i : nat) (x y : Phase) (d : string) :
  ws !! i = Some x -> (holds d x -> holds d y) ->
  (exists j ph, ws !! j = Some ph /\ holds d ph) ->
  exists j ph, <[i := y]> ws !! j = Some ph /\ holds d ph.
Proof.
  intros Hi Hxy H.
  destruct (holds_insert_cases ws i x y d Hi H) as [Hx | H']; [| exact H'].
  apply (holds_insert_same ws i x y d Hi), Hxy, Hx.
Qed.

Ltac split6 := split; [| split; [| split; [| split; [| split]]]].

Lemma worker_step_scan_ok (port : Port) (cb : bool) (total i : nat)
  (valid invalid : list string) (ps : Pool * State) :
  scan_ok valid invalid ps -> scan_ok valid invalid (worker_step port cb total i ps).
Proof.
  destruct ps as [p st]. intros (Hc & Hq & Hw & Hr & Hv & Hinv). cbn [fst snd] in *.
  apply (worker_step_cases port cb total (scan_ok valid invalid));
    unfold scan_ok; cbn [fst snd set_worker set_queue report workers results domainQueue].
  - intros _. split6; assumption.
  - intros Hi _. split6; try assumption.
    + apply Forall_insert; [exact Hw | exact I].
    + intros d Hd. destruct (Hv d Hd) as [H | [H | H]]; auto.
      right. left. apply (holds_insert_keep _ _ Ready _ _ Hi); [intros [] | exact H].
  - intros q _ _ E. rewrite E in Hq. inversion Hq as [| ? ? Hbad _]. 
    vm_compute in Hbad. discriminate.
  - intros d q Hi _ E _. rewrite E in Hq. inversion Hq as [| ? ? Hd Hq']; subst.
    destruct (valid_name_facts d Hd) as (_ & Hn & Hvn). rewrite Hn, Hvn. cbn [negb].
    match goal with
    | |- _ /\ _ /\ Forall _ (<[i := ?ph]> _) /\ _ =>
        assert (Hph : phase_ok ph /\ holds d ph)
    end.
    { destruct (cacheEnabled (fst st)); [| simpl; auto].
      destruct (cache (fst st) !! toLowerCase d) as [cached |] eqn:Ec; [| simpl; auto].
      destruct (Hc _ _ Ec) as (Hdc & Hec & _). simpl. auto. }
    destruct Hph as [Hok Hholds].
    split6; try assumption.
    + apply Forall_insert; assumption.
    + intros d0 Hd0. destruct (Hv d0 Hd0) as [H | [H | H]]; auto.
      * rewrite E in H. destruct H as [<- | H]; [| auto].
        right. left. apply (holds_insert_same _ _ Ready _ _ Hi), Hholds.
      * right. left. apply (holds_insert_keep _ _ Ready _ _ Hi); [intros [] | exact H].
  - intros d m n r w Hi Hm.
    pose proof (Forall_lookup_1 _ _ _ _ Hw Hi) as [Hd Hn]. simpl in Hd, Hn.
    destruct (mode_strategy_regular port m n st r _ Hm) as [Hdr Her].
    destruct (valid_name_facts d Hd) as (_ & _ & Hvn).
    split6; try assumption.
    + destruct (cacheEnabled (fst st)); [| exact Hc]. cbn [cache set_cache].
      apply cache_wf_insert; try assumption; subst n;
        [exact Hvn | apply toLowerCase_idempotent].
    + apply Forall_insert; [exact Hw |]. simpl. subst n. auto.
    + intros d0 Hd0. destruct (Hv d0 Hd0) as [H | [H | H]]; auto.
      right. left. apply (holds_insert_keep _ _ (Checking d m n) _ _ Hi); [| exact H].
      simpl. auto.
  - intros d r Hi.
    pose proof (Forall_lookup_1 _ _ _ _ Hw Hi) as (Hd & Hdr & Her). 
    destruct (valid_name_facts d Hd) as (_ & _ & Hvn).
    split6; try assumption.
    + apply Forall_insert; [exact Hw | exact I].
    + apply Forall_app. split; [exact Hr |]. constructor; [| constructor].
      left. unfold served. rewrite Hdr, toLowerCase_idempotent. auto.
    + intros d0 Hd0. destruct (Hv d0 Hd0) as [H | [H | (r0 & H & H0)]]; auto.
      * destruct (holds_insert_cases _ i _ Sleeping d0 Hi H) as [Hx | H'];
          [| right; left; exact H'].
        simpl in Hx. subst d0. right. right. exists r. split; [| exact Hdr].
        apply in_or_app. right. left. reflexivity.
      * right. right. exists r0. split; [apply in_or_app; left; exact H | exact H0].
    + intros d0 Hd0. apply in_or_app. left. apply Hinv, Hd0.
  - intros d msg Hi. destruct (Forall_lookup_1 _ _ _ _ Hw Hi).
  - intros Hi. split6; try assumption.
    + apply Forall_insert; [exact Hw | exact I].
    + intros d Hd. destruct (Hv d Hd) as [H | [H | H]]; auto.
      right. left. apply (holds_insert_keep _ _ Sleeping _ _ Hi); [intros [] | exact H].
Qed.

Lemma cache_wf_empty : cache_wf ∅.
Proof. intros k r H. rewrite lookup_empty in H. discriminate. Qed.

Lemma invalidDomains_invalid (domains : list string) (d : string) :
  In d (invalidDomains domains) -> isValidDomain d = false.
Proof.
  unfold invalidDomains. intros Hd. apply List.filter_In in Hd as [_ Hd].
  apply andb_true_iff in Hd as [_ Hd]. apply negb_true_iff, Hd.
Qed.

Lemma validDomains_valid (domains : list string) (d : string) :
  In d (validDomains domains) -> isValidDomain d = true.
Proof.
  unfold validDomains. intros Hd. apply List.filter_In in Hd as [_ Hd].
  apply andb_true_iff in Hd as [_ Hd]. exact Hd.
Qed.

Lemma scan_start_scan_ok (domains : list string) (cb : bool) (st : State) :
  cache_wf (cache (fst st)) ->
  scan_ok (validDomains domains) (invalidDomains domains) (scan_start domains cb st).
Proof.
  intros Hc. unfold scan_start, scan_ok. cbn [fst snd].
  destruct (fold_report_results cb (scan_total domains)
              "Некорректный формат доменного имени" (invalidDomains domains)
              (mkPool (validDomains domains) [] 0 [] []))
    as (Hr & Hq & Hw & _).
  cbv zeta in *. rewrite Hr, Hq, Hw. cbn [results domainQueue workers app].
  split6.
  - exact Hc.
  - apply List.Forall_forall. apply validDomains_valid.
  - constructor.
  - apply List.Forall_forall. intros r Hin.
    apply List.in_map_iff in Hin as (d & <- & Hd). right. split; [| reflexivity].
    apply (invalidDomains_invalid domains), Hd.
  - intros d Hd. left. exact Hd.
  - intros d Hd.
    apply (List.in_map (fun d => _getErrorResult d "Некорректный формат доменного имени")).
    exact Hd.
Qed.

Lemma scan_end_scan_ok (port : Port) (domains : list string) (cb : bool)
  (schedule : list Event) (st : State) :
  cache_wf (cache (fst st)) ->
  scan_ok (validDomains domains) (invalidDomains domains)
          (scan_end port domains cb schedule st).
Proof.
  intros Hc. unfold scan_end. apply run_workers_preserves.
  - intros i ps. apply worker_step_scan_ok.
  - intros p st0 (H1 & H2 & H3 & H4 & H5 & H6). cbn [fst snd] in *.
    split6; try assumption; cbn [fst snd add_worker workers domainQueue results].
    + apply Forall_app. split; [exact H3 |]. constructor; [exact I | constructor].
    + intros d Hd. destruct (H5 d Hd) as [H | [(j & ph & Hj & Hh) | H]]; auto.
      right. left. exists j, ph. split; [| exact Hh].
      rewrite lookup_app_l; [exact Hj | apply lookup_lt_Some in Hj; exact Hj].
  - intros p st0 k H. exact H.
  - intros _ [p0 st0] H. unfold stopScan, bind, get_client, modify_client.
    cbn [fst snd]. destruct (negb (isScanning (fst st0))); exact H.
  - apply scan_start_scan_ok, Hc.
Qed.

Lemma resultMap_lookup (rs : list DomainCheckResult) (k : string) :
  forall m : gmap string DomainCheckResult,
    match fold_left (fun m result => <[domain result := result]> m) rs m !! k with
    | Some r => (In r rs /\ domain r = k) \/ m !! k = Some r
    | None => (forall r, In r rs -> domain r <> k) /\ m !! k = None
    end.
Proof.
  induction rs as [| r0 rs IH]; intros m; cbn [fold_left].
  - destruct (m !! k); [right; reflexivity | split; [intros r [] | reflexivity]].
  - specialize (IH (<[domain r0 := r0]> m)).
    destruct (fold_left _ rs _ !! k) as [r |].
    + destruct IH as [[Hin Hd] | Hm]; [left; split; [right |]; assumption |].
      apply lookup_insert_Some in Hm as [[Hk <-] | [_ Hm]]; [| right; exact Hm].
      left. split; [left; reflexivity | exact Hk].
    + destruct IH as [Hrs Hm]. apply lookup_insert_None in Hm as [Hm Hk].
      split; [| exact Hm]. intros r [<- | Hin]; [exact Hk | apply Hrs, Hin].
Qed.

Lemma exited_none_holds (ws : list Phase) (d : string) :
  first_live ws = None -> ~ exists j ph, ws !! j = Some ph /\ holds d ph.
Proof.
  rewrite first_live_None. intros Hex (j & ph & Hj & Hh).
  pose proof (Forall_lookup_1 _ _ _ _ Hex Hj) as He.
  destruct ph; try discriminate. exact Hh.
Qed.

(** What [checkDomains] returns, entry by entry. *)
Lemma checkDomains_entries (port : Port) (domains : list string) (cb : bool)
  (schedule : list Event) (st : State) :
  isScanning (fst st) = false -> validDomains domains <> [] ->
  cache_wf (cache (fst st)) ->
  exists rs st',
    checkDomains port domains cb schedule st = (Resolved rs, st') /\
    map domain rs = invalidDomains domains ++ validDomains domains /\
    cache_wf (cache (fst st')) /\
    Forall (fun r =>
              if isValidDomain (domain r) then
                if String.eqb (toLowerCase (domain r)) (domain r) then
                  (regular r \/
                   r = _getErrorResult (domain r) "Result not found") /\
                  (domainQueue (fst (scan_end port domains cb schedule st)) = [] ->
                   regular r)
                else r = _getErrorResult (domain r) "Result not found"
              else r = _getErrorResult (domain r) "Некорректный формат доменного имени")
           rs.
Proof.
  intros Hscan Hvalid Hcache.
  rewrite (checkDomains_scan_end port domains cb schedule st Hscan Hvalid).
  destruct (scan_end_scan_ok port domains cb schedule st Hcache)
    as (Hc & _ & _ & Hr & Hv & Hinv).
  pose proof (scan_end_all_exited port domains cb schedule st) as Hex.
  set (ps := scan_end port domains cb schedule st) in *.
  eexists _, _. split; [reflexivity |].
  split; [apply sorted_results_domains |]. split; [exact Hc |].
  unfold _sortResultsByOriginalOrder. apply List.Forall_forall. intros r Hin.
  apply List.in_map_iff in Hin as (d & <- & Hd).
  pose proof (resultMap_lookup (results (fst ps)) d ∅) as Hm.
  rewrite List.Forall_forall in Hr.
  destruct (fold_left _ (results (fst ps)) ∅ !! d) as [r |] eqn:E.
  - destruct Hm as [[Hin Hdr] | Hm]; [| rewrite lookup_empty in Hm; discriminate].
    rewrite Hdr.
    destruct (Hr r Hin) as [(Hv1 & Hl & He) | (Hv1 & Hre)]; rewrite Hdr in *.
    + rewrite Hv1. apply String.eqb_eq in Hl. rewrite Hl. auto.
    + rewrite Hv1. exact Hre.
  - destruct Hm as [Hnone _]. cbn [domain _getErrorResult].
    apply in_app_or in Hd as [Hd | Hd].
    + destruct (Hnone _ (Hinv d Hd)). reflexivity.
    + rewrite (validDomains_valid domains d Hd).
      destruct (String.eqb (toLowerCase d) d) eqn:Hl; [| reflexivity].
      split; [right; reflexivity |]. intros Hq. exfalso.
      apply String.eqb_eq in Hl.
      destruct (Hv d Hd) as [H | [H | (r & Hin & Hdr)]].
      * rewrite Hq in H. destruct H.
      * exact (exited_none_holds _ d Hex H).
      * apply (Hnone r Hin). congruence.
Qed.

(** X14: what [checkDomains] returns, entry by entry, however its
    workers interleave and whether or not it is stopped.  The results
    bear the names of the entries, the invalid ones first.  An invalid
    entry has the error result of an invalid format.  A valid entry
    written in lower case has a regular result or, when the scan did not
    get to it, the error result [Result not found].  A valid entry that
    has a capital letter always has the error result [Result not found],
    since its check is filed under the lower-case name.  Every result
    has the score of its three statuses, and the cache is left well
    formed. *)
Theorem checkDomains_results_by_entry (port : Port) (domains : list string) (cb : bool)
  (schedule : list Event) (st : State)
  (Hscan : isScanning (fst st) = false)
  (Hvalid : validDomains domains <> [])
  (Hcache : cache_wf (cache (fst st))) :
  exists rs st',
    checkDomains port domains cb schedule st = (Resolved rs, st') /\
    map domain rs = invalidDomains domains ++ validDomains domains /\
    cache_wf (cache (fst st')) /\
    Forall scored rs /\
    Forall (fun r =>
              if isValidDomain (domain r) then
                if String.eqb (toLowerCase (domain r)) (domain r) then
                  regular r \/
                  r = _getErrorResult (domain r) "Result not found"
                else r = _getErrorResult (domain r) "Result not found"
              else r = _getErrorResult (domain r) "Некорректный формат доменного имени")
           rs.
Proof.
  destruct (checkDomains_entries port domains cb schedule st Hscan Hvalid Hcache)
    as (rs & st' & E & Hd & Hc & Hrs).
  exists rs, st'. split; [exact E |]. split; [exact Hd |]. split; [exact Hc |].
  split; eapply Forall_impl; try exact Hrs; intros r Hr; cbv beta in *.
  - destruct (isValidDomain (domain r)); [| rewrite Hr; reflexivity].
    destruct (String.eqb (toLowerCase (domain r)) (domain r));
      [| rewrite Hr; reflexivity].
    destruct Hr as [[Hr | Hr] _]; [apply Hr | rewrite Hr; reflexivity].
  - destruct (isValidDomain (domain r)); [| exact Hr].
    destruct (String.eqb (toLowerCase (domain r)) (domain r)); [apply Hr | exact Hr].
Qed.

Lemma checkDomains_results_by_entry_witness :
  isScanning (fst (new_client, constant_world 0)) = false /\
  validDomains ["Example.COM"; "bad name"; "example.org"] <> [] /\
  cache_wf (cache (fst (new_client, constant_world 0))) /\
  exists rs st',
    checkDomains _dnsLookup ["Example.COM"; "bad name"; "example.org"] false [Stop]
      (new_client, constant_world 0) = (Resolved rs, st') /\
    map domain rs = invalidDomains ["Example.COM"; "bad name"; "example.org"]
                    ++ validDomains ["Example.COM"; "bad name"; "example.org"] /\
    cache_wf (cache (fst st')) /\
    Forall scored rs /\
    Forall (fun r =>
              if isValidDomain (domain r) then
                if String.eqb (toLowerCase (domain r)) (domain r) then
                  regular r \/
                  r = _getErrorResult (domain r) "Result not found"
                else r = _getErrorResult (domain r) "Result not found"
              else r = _getErrorResult (domain r) "Некорректный формат доменного имени")
           rs.
Proof.
  assert (H1 : isScanning (fst (new_client, constant_world 0)) = false) by reflexivity.
  assert (H2 : validDomains ["Example.COM"; "bad name"; "example.org"] <> [])
    by (vm_compute; discriminate).
  assert (H3 : cache_wf (cache (fst (new_client, constant_world 0))))
    by exact cache_wf_empty.
  split; [exact H1 |]. split; [exact H2 |]. split; [exact H3 |].
  exact (checkDomains_results_by_entry _dnsLookup
           ["Example.COM"; "bad name"; "example.org"] false [Stop]
           (new_client, constant_world 0) H1 H2 H3).
Defined.

(** X15: a scan that nobody stops and that has at least one worker
    serves every valid entry written in lower case: each has a regular
    result, under every interleaving of the workers.  Only the valid
    entries with a capital letter come back as [Result not found]. *)
Theorem checkDomains_complete_scan (port : Port) (domains : list string) (cb : bool)
  (schedule : list Event) (st : State)
  (Hscan : isScanning (fst st) = false)
  (Hvalid : validDomains domains <> [])
  (Hcache : cache_wf (cache (fst st)))
  (Hstop : no_stop schedule)
  (Hworkers : (1 <= concurrentRequests (fst st))%Z) :
  exists rs st',
    checkDomains port domains cb schedule st = (Resolved rs, st') /\
    Forall (fun r =>
              if isValidDomain (domain r) then
                if String.eqb (toLowerCase (domain r)) (domain r)
                then regular r
                else r = _getErrorResult (domain r) "Result not found"
              else r = _getErrorResult (domain r) "Некорректный формат доменного имени")
           rs.
Proof.
  destruct (checkDomains_entries port domains cb schedule st Hscan Hvalid Hcache)
    as (rs & st' & E & Hd & Hc & Hrs).
  pose proof (scan_end_queue_empty port domains cb schedule st Hstop Hvalid Hworkers) as Hq.
  exists rs, st'. split; [exact E |].
  eapply Forall_impl; [exact Hrs |]. intros r Hr. cbv beta in *.
  destruct (isValidDomain (domain r)); [| exact Hr].
  destruct (String.eqb (toLowerCase (domain r)) (domain r)); [apply Hr, Hq | exact Hr].
Qed.

Lemma checkDomains_complete_scan_witness :
  isScanning (fst (new_client, constant_world 0)) = false /\
  validDomains ["Example.COM"; "bad name"; "example.org"] <> [] /\
  cache_wf (cache (fst (new_client, constant_world 0))) /\
  no_stop [Tick 1; Tick 0] /\
  (1 <= concurrentRequests (fst (new_client, constant_world 0)))%Z /\
  exists rs st',
    checkDomains _dnsLookup ["Example.COM"; "bad name"; "example.org"] true
      [Tick 1; Tick 0] (new_client, constant_world 0) = (Resolved rs, st') /\
    Forall (fun r =>
              if isValidDomain (domain r) then
                if String.eqb (toLowerCase (domain r)) (domain r)
                then regular r
                else r = _getErrorResult (domain r) "Result not found"
              else r = _getErrorResult (domain r) "Некорректный формат доменного имени")
           rs.
Proof.
  assert (H1 : isScanning (fst (new_client, constant_world 0)) = false) by reflexivity.
  assert (H2 : validDomains ["Example.COM"; "bad name"; "example.org"] <> [])
    by (vm_compute; discriminate).
  assert (H3 : cache_wf (cache (fst (new_client, constant_world 0))))
    by exact cache_wf_empty.
  assert (H4 : no_stop [Tick 1; Tick 0]) by (repeat constructor; discriminate).
  assert (H5 : (1 <= concurrentRequests (fst (new_client, constant_world 0)))%Z)
    by (simpl; lia).
  split; [exact H1 |]. split; [exact H2 |]. split; [exact H3 |].
  split; [exact H4 |]. split; [exact H5 |].
  exact (checkDomains_complete_scan _dnsLookup
           ["Example.COM"; "bad name"; "example.org"] true [Tick 1; Tick 0]
           (new_client, constant_world 0) H1 H2 H3 H4 H5).
Defined.

(** ** What the cache holds *)

Lemma normalized_lower (v : JsValue) : toLowerCase (normalized v) = normalized v.
Proof. destruct v; try reflexivity. apply toLowerCase_idempotent. Qed.

(** The outcome of [checkDomain] on a string that is not empty. *)
Lemma checkDomain_shape (port : Port) (s : string) (st : State) :
  cache_wf (cache (fst st)) -> s <> "" ->
  exists r st',
    checkDomain port (JsStr s) st = (Resolved r, st') /\
    domain r = normalized (JsStr s) /\
    (if isValidDomain (normalized (JsStr s)) then regular r
     else r = _getErrorResult (normalized (JsStr s)) "Некорректный формат доменного имени") /\
    cache_wf (cache (fst st')).
Proof.
  intros Hc Hs. rewrite checkDomain_by_parts, checkDomain_begin_run. cbn [fst].
  assert (Ht : negb (truthy (JsStr s)) || negb (is_string (JsStr s)) = false).
  { cbn [truthy is_string]. apply String.eqb_neq in Hs. rewrite Hs. reflexivity. }
  rewrite Ht. set (n := normalized (JsStr s)).
  destruct (isValidDomain n) eqn:Hv; cbn [negb].
  2: { eexists _, _. split; [reflexivity |]. auto. }
  assert (Hfin : exists r st',
             checkDomain_finish port (mode (fst st)) n st = (Resolved r, st') /\
             domain r = n /\ regular r /\ cache_wf (cache (fst st'))).
  { destruct (checkDomain_finish_run port (mode (fst st)) n st) as (r & w & Hm & ->).
    destruct (mode_strategy_regular port _ n st r _ Hm) as [Hd He].
    eexists _, _. split; [reflexivity |]. split; [exact Hd |]. split; [exact He |].
    cbn [fst]. destruct (cacheEnabled (fst st)); [| exact Hc]. cbn [cache set_cache].
    apply cache_wf_insert; try assumption. apply normalized_lower. }
  destruct (cacheEnabled (fst st)); [| exact Hfin].
  destruct (cache (fst st) !! n) as [cached |] eqn:E; [| exact Hfin].
  destruct (Hc _ _ E) as (Hd & He & _).
  eexists _, _. split; [reflexivity |]. auto.
Qed.

Lemma checkDomain_cache_wf (port : Port) (v : JsValue) (st : State) :
  cache_wf (cache (fst st)) -> cache_wf (cache (fst (snd (checkDomain port v st)))).
Proof.
  intros Hc.
  destruct (negb (truthy v) || negb (is_string v)) eqn:Ht.
  - rewrite checkDomain_by_parts, checkDomain_begin_run. cbn [fst]. rewrite Ht. exact Hc.
  - destruct v as [| | b | z | s |]; cbn [is_string negb] in Ht;
      rewrite ?orb_true_r in Ht; try discriminate Ht.
    assert (Hs : s <> "").
    { intros ->. discriminate Ht. }
    destruct (checkDomain_shape port s st Hc Hs) as (r & st' & -> & _ & _ & Hc').
    exact Hc'.
Qed.

Lemma checkDomains_cache_wf (port : Port) (domains : list string) (cb : bool)
  (schedule : list Event) (st : State) :
  cache_wf (cache (fst st)) ->
  cache_wf (cache (fst (snd (checkDomains port domains cb schedule st)))).
Proof.
  intros Hc.
  destruct (isScanning (fst st)) eqn:Hscan;
    [unfold checkDomains; rewrite Hscan; exact Hc |].
  destruct (length (validDomains domains) =? 0)%nat eqn:Hlen;
    [unfold checkDomains; rewrite Hscan, Hlen; exact Hc |].
  assert (Hvalid : validDomains domains <> []).
  { intros E. rewrite E in Hlen. discriminate. }
  rewrite (checkDomains_scan_end port domains cb schedule st Hscan Hvalid).
  destruct (scan_end_scan_ok port domains cb schedule st Hc) as (Hc' & _).
  exact Hc'.
Qed.

Lemma run_call_cache_wf (port : Port) (call : ApiCall) (st : State) :
  cache_wf (cache (fst st)) -> cache_wf (cache (fst (run_call port call st))).
Proof.
  intros Hc. destruct call; cbn [run_call].
  - apply checkDomain_cache_wf, Hc.
  - apply checkDomains_cache_wf, Hc.
  - rewrite keeps_cache_setMode. exact Hc.
  - rewrite keeps_cache_selectBestAvailableMode. exact Hc.
  - rewrite keeps_cache_stopScan. exact Hc.
  - exact cache_wf_empty.
  - exact Hc.
  - exact Hc.
  - exact Hc.
Qed.

(** X16: whatever calls are made on a client that starts with an empty
    cache, in whatever order and with scans stopped or not, its cache
    holds regular results only, never an error result, each under the
    name it bears, and every key is a valid name in lower case. *)
Theorem cache_holds_regular_results (port : Port) (calls : list ApiCall)
  (this : Client) (w : World) :
  cache_wf (cache (fst (run_calls port calls (set_cache ∅ this, w)))).
Proof.
  unfold run_calls.
  assert (H : forall st, cache_wf (cache (fst st)) ->
                         cache_wf (cache (fst (fold_left
                                                 (fun st call => run_call port call st)
                                                 calls st)))).
  { induction calls as [| call calls IH]; intros st Hc; cbn [fold_left]; [exact Hc |].
    apply IH, run_call_cache_wf, Hc. }
  apply H. exact cache_wf_empty.
Qed.

(** X17: on a string that is not empty and with a well-formed cache,
    [checkDomain] reports under the normal form of the string, and its
    result is an error result exactly when that normal form is not a
    valid name; the error is then the one of an invalid format.  The
    lookups may resolve with anything or reject with an [Error]: that
    does not turn the result of a valid name into an error result.  A
    rejection is an [Error] with its message, as [Rejected] has it; a
    lookup that rejects with a value that has no message, such as
    [null], is not covered. *)
Theorem checkDomain_error_iff_invalid (port : Port) (s : string) (st : State)
  (Hcache : cache_wf (cache (fst st)))
  (Hs : s <> "") :
  exists r st',
    checkDomain port (JsStr s) st = (Resolved r, st') /\
    domain r = toLowerCase (trim s) /\
    (if isValidDomain (toLowerCase (trim s)) then regular r
     else r = _getErrorResult (toLowerCase (trim s))
                "Некорректный формат доменного имени").
Proof.
  destruct (checkDomain_shape port s st Hcache Hs) as (r & st' & E & Hd & Hr & _).
  exists r, st'. auto.
Qed.

Lemma checkDomain_error_iff_invalid_witness :
  cache_wf (cache (fst (set_mode "offline" new_client, constant_world 0))) /\
  " Example.COM" <> "" /\
  exists r st',
    checkDomain failing_port (JsStr " Example.COM")
      (set_mode "offline" new_client, constant_world 0) = (Resolved r, st') /\
    domain r = toLowerCase (trim " Example.COM") /\
    (if isValidDomain (toLowerCase (trim " Example.COM")) then regular r
     else r = _getErrorResult (toLowerCase (trim " Example.COM"))
                "Некорректный формат доменного имени").
Proof.
  assert (H1 : cache_wf (cache (fst (set_mode "offline" new_client, constant_world 0))))
    by exact cache_wf_empty.
  assert (H2 : " Example.COM" <> "") by discriminate.
  split; [exact H1 |]. split; [exact H2 |].
  exact (checkDomain_error_iff_invalid failing_port " Example.COM"
           (set_mode "offline" new_client, constant_world 0) H1 H2).
Defined.

(** ** Stopping a scan *)

Lemma run_schedule_app (port : Port) (cb : bool) (total : nat) (s1 s2 : list Event) :
  forall ps,
    run_schedule port cb total (s1 ++ s2) ps =
    run_schedule port cb total s2 (run_schedule port cb total s1 ps).
Proof.
  induction s1 as [| e s1 IH]; intros ps; cbn [app run_schedule]; [reflexivity |].
  destruct (first_live (workers (fst ps))) eqn:E; [apply IH |].
  destruct s2; cbn [run_schedule]; [reflexivity |]. rewrite E. reflexivity.
Qed.

Lemma worker_step_frozen (port : Port) (cb : bool) (total i : nat)
  (queue : list string) (n : nat) (ps : Pool * State) :
  frozen queue n ps -> frozen queue n (worker_step port cb total i ps).
Proof.
  destruct ps as [p st]. intros (Hs & Hq & Hn). cbn [fst snd] in *.
  pose proof (fun x y => sum_insert in_flight (workers p) i x y) as Hins.
  apply (worker_step_cases port cb total (frozen queue n)); unfold frozen;
    cbn [fst snd set_worker set_queue report workers results domainQueue].
  - intros _. auto.
  - intros Hi _. specialize (Hins Ready Exited Hi). simpl in Hins.
    repeat split; try assumption. lia.
  - intros q _ Hfalse _. congruence.
  - intros d q _ Hfalse _ _. congruence.
  - intros d m k r w Hi _.
    specialize (Hins (Checking d m k) (Settled d (Resolved r)) Hi). simpl in Hins.
    split; [destruct (cacheEnabled (fst st)); exact Hs |]. split; [exact Hq | lia].
  - intros d r Hi. specialize (Hins (Settled d (Resolved r)) Sleeping Hi). simpl in Hins.
    repeat split; try assumption. rewrite length_app. simpl. lia.
  - intros d msg Hi. specialize (Hins (Settled d (Rejected msg)) Ready Hi). simpl in Hins.
    repeat split; try assumption. rewrite length_app. simpl. lia.
  - intros Hi. specialize (Hins Sleeping Ready Hi). simpl in Hins.
    repeat split; try assumption. lia.
Qed.

Lemma stopScan_frozen (queue : list string) (n : nat) (ps : Pool * State) :
  frozen queue n ps -> frozen queue n (fst ps, snd (stopScan (snd ps))).
Proof.
  destruct ps as [p st]. intros (Hs & Hq & Hn). unfold stopScan, bind, get_client.
  cbn [fst snd]. destruct (negb (isScanning (fst st))); repeat split; assumption.
Qed.

Lemma scan_after_isScanning (port : Port) (domains : list string) (cb : bool)
  (schedule : list Event) (st : State) :
  isScanning (fst (snd (scan_after port domains cb schedule st))) = true.
Proof. unfold scan_after. rewrite scan_stays_scanning. reflexivity. Qed.

(** X18: a stop takes effect at once on the queue and lets the checks
    under way finish.  When [stopScan] is called while some worker of
    the scan is still running, no name is taken from the queue from then
    on: at the end the queue is what it was at the call, the results are
    those of that moment and one more for each check that was under way,
    and the stop flag is still set. *)
Theorem stopScan_freezes_queue (port : Port) (domains : list string) (cb : bool)
  (before after : list Event) (st : State)
  (Hrunning :
     first_live (workers (fst (scan_after port domains cb before st))) <> None) :
  let mid := scan_after port domains cb before st in
  let fin := scan_end port domains cb (before ++ Stop :: after) st in
  domainQueue (fst fin) = domainQueue (fst mid) /\
  length (results (fst fin)) =
    (length (results (fst mid)) + list_sum (map in_flight (workers (fst mid))))%nat /\
  shouldStop (fst (snd fin)) = true.
Proof.
  cbv zeta. pose proof (scan_after_isScanning port domains cb before st) as Hscan.
  rewrite scan_end_after.
  assert (Hafter : scan_after port domains cb (before ++ Stop :: after) st =
                   run_schedule port cb (scan_total domains) after
                     (apply_event port cb (scan_total domains) Stop
                        (scan_after port domains cb before st))).
  { unfold scan_after. rewrite run_schedule_app. cbn [run_schedule].
    fold (scan_after port domains cb before st).
    destruct (first_live _); [reflexivity | contradiction]. }
  rewrite Hafter.
  set (mid := scan_after port domains cb before st) in *.
  assert (Hfrozen : frozen (domainQueue (fst mid))
                      (length (results (fst mid))
                       + list_sum (map in_flight (workers (fst mid))))
                      (apply_event port cb (scan_total domains) Stop mid)).
  { cbn [apply_event]. unfold stopScan, bind, get_client, modify_client, frozen.
    cbn [fst snd]. rewrite Hscan. cbn [negb fst snd]. auto. }
  match goal with
  | |- context [drain ?port ?cb ?total ?fuel ?ps] =>
      assert (Hfin : frozen (domainQueue (fst mid))
                       (length (results (fst mid))
                        + list_sum (map in_flight (workers (fst mid))))
                       (drain port cb total fuel ps));
      [apply drain_preserves; [intros i ps0; apply worker_step_frozen |];
       apply run_schedule_preserves;
       [intros i ps0; apply worker_step_frozen
       | intros _ ps0; apply stopScan_frozen
       | exact Hfrozen]
      | pose proof (drain_all_exited port cb total fuel ps (le_n _)) as Hex ]
  end.
  destruct Hfin as (Hs & Hq & Hn).
  apply exited_none_in_flight in Hex. rewrite Hex in Hn.
  repeat split; [exact Hq | lia | exact Hs].
Qed.

Lemma stopScan_freezes_queue_witness :
  first_live (workers (fst (scan_after _dnsLookup
                              ["a.example.com"; "b.example.com"; "c.example.com";
                               "d.example.com"; "e.example.com"]
                              false [Tick 0; Tick 0]
                              (set_concurrentRequests 2 new_client, constant_world 0))))
    <> None /\
  let mid := scan_after _dnsLookup
               ["a.example.com"; "b.example.com"; "c.example.com";
                "d.example.com"; "e.example.com"]
               false [Tick 0; Tick 0]
               (set_concurrentRequests 2 new_client, constant_world 0) in
  let fin := scan_end _dnsLookup
               ["a.example.com"; "b.example.com"; "c.example.com";
                "d.example.com"; "e.example.com"]
               false ([Tick 0; Tick 0] ++ Stop :: [Tick 1])
               (set_concurrentRequests 2 new_client, constant_world 0) in
  domainQueue (fst fin) = domainQueue (fst mid) /\
  length (results (fst fin)) =
    (length (results (fst mid)) + list_sum (map in_flight (workers (fst mid))))%nat /\
  shouldStop (fst (snd fin)) = true.
Proof.
  assert (H : first_live (workers (fst (scan_after _dnsLookup
                              ["a.example.com"; "b.example.com"; "c.example.com";
                               "d.example.com"; "e.example.com"]
                              false [Tick 0; Tick 0]
                              (set_concurrentRequests 2 new_client, constant_world 0))))
              <> None) by (vm_compute; discriminate).
  split; [exact H |].
  exact (stopScan_freezes_queue _dnsLookup
           ["a.example.com"; "b.example.com"; "c.example.com";
            "d.example.com"; "e.example.com"]
           false [Tick 0; Tick 0] [Tick 1]
           (set_concurrentRequests 2 new_client, constant_world 0) H).
Defined.

(** ** A scan without workers *)

Lemma run_schedule_no_worker (port : Port) (cb : bool) (total : nat)
  (schedule : list Event) (ps : Pool * State) :
  first_live (workers (fst ps)) = None ->
  run_schedule port cb total schedule ps = ps.
Proof. intros H. destruct schedule; cbn [run_schedule]; [| rewrite H]; reflexivity. Qed.

Lemma drain_no_worker (port : Port) (cb : bool) (total fuel : nat) (ps : Pool * State) :
  first_live (workers (fst ps)) = None -> drain port cb total fuel ps = ps.
Proof. intros H. destruct fuel; cbn [drain]; [| rewrite H]; reflexivity. Qed.

Lemma scan_start_parts (domains : list string) (cb : bool) (st : State) :
  results (fst (scan_start domains cb st)) =
    map (fun d => _getErrorResult d "Некорректный формат доменного имени")
        (invalidDomains domains) /\
  domainQueue (fst (scan_start domains cb st)) = validDomains domains /\
  workers (fst (scan_start domains cb st)) = [].
Proof.
  unfold scan_start. cbn [fst].
  destruct (fold_report_results cb (scan_total domains)
              "Некорректный формат доменного имени" (invalidDomains domains)
              (mkPool (validDomains domains) [] 0 [] []))
    as (Hr & Hq & Hw & _).
  cbv zeta in *. auto.
Qed.

(** X19: a number of concurrent requests that is not positive, which
    [setConcurrentRequests] and the constructor accept, makes a scan
    that checks nothing.  No worker starts, the world is left untouched
    (no lookup, no strategy, no random draw), the cache is unchanged,
    and every valid entry comes back as [Result not found], after the
    error results of the invalid entries. *)
Theorem checkDomains_without_workers (port : Port) (domains : list string) (cb : bool)
  (schedule : list Event) (st : State)
  (Hscan : isScanning (fst st) = false)
  (Hvalid : validDomains domains <> [])
  (Hcount : (concurrentRequests (fst st) <= 0)%Z) :
  checkDomains port domains cb schedule st =
    (Resolved
       (map (fun d => _getErrorResult d "Некорректный формат доменного имени")
            (invalidDomains domains)
        ++ map (fun d => _getErrorResult d "Result not found") (validDomains domains)),
     (set_activeScanTasks 0 (set_shouldStop false (fst st)), snd st)).
Proof.
  rewrite (checkDomains_scan_end port domains cb schedule st Hscan Hvalid).
  assert (Hend : scan_end port domains cb schedule st = scan_start domains cb st).
  { unfold scan_end, run_workers.
    assert (H0 : scan_workerCount domains st = 0%nat)
      by (unfold scan_workerCount; lia).
    rewrite H0. cbn [Nat.iter nat_rect].
    destruct (scan_start_parts domains cb st) as (_ & _ & Hw).
    assert (Hnone : first_live (workers (fst (scan_start domains cb st))) = None)
      by (rewrite Hw; reflexivity).
    rewrite run_schedule_no_worker by exact Hnone.
    apply drain_no_worker, Hnone. }
  rewrite Hend. destruct (scan_start_parts domains cb st) as (Hr & _ & _).
  rewrite Hr. f_equal; [f_equal |].
  - unfold _sortResultsByOriginalOrder. rewrite map_app. f_equal.
    + apply List.map_ext_in. intros d Hd.
      match goal with
      | |- context [fold_left ?f ?rs ∅ !! d] =>
          pose proof (resultMap_lookup rs d ∅) as Hm;
          destruct (fold_left f rs ∅ !! d) as [r |]
      end.
      * destruct Hm as [[Hin Hdr] | Hm]; [| rewrite lookup_empty in Hm; discriminate].
        apply List.in_map_iff in Hin as (d' & <- & _). simpl in Hdr. subst d'. reflexivity.
      * destruct Hm as [Hnone _]. exfalso.
        apply (Hnone (_getErrorResult d "Некорректный формат доменного имени"));
          [| reflexivity].
        apply (List.in_map (fun d => _getErrorResult d _)), Hd.
    + apply List.map_ext_in. intros d Hd.
      match goal with
      | |- context [fold_left ?f ?rs ∅ !! d] =>
          pose proof (resultMap_lookup rs d ∅) as Hm;
          destruct (fold_left f rs ∅ !! d) as [r |]
      end; [| reflexivity].
      destruct Hm as [[Hin Hdr] | Hm]; [| rewrite lookup_empty in Hm; discriminate].
      apply List.in_map_iff in Hin as (d' & <- & Hd'). simpl in Hdr. subst d'.
      apply invalidDomains_invalid in Hd'. apply validDomains_valid in Hd. congruence.
  - unfold scan_start. cbn [fst snd]. destruct (fst st). cbn. rewrite <- Hscan.
    reflexivity.
Qed.

Lemma checkDomains_without_workers_witness :
  isScanning (fst (snd (setConcurrentRequests (Some (-1)%Z)
                          (new_client, constant_world 0)))) = false /\
  validDomains ["example.com"; "bad name"] <> [] /\
  (concurrentRequests (fst (snd (setConcurrentRequests (Some (-1)%Z)
                                   (new_client, constant_world 0)))) <= 0)%Z /\
  checkDomains _dnsLookup ["example.com"; "bad name"] true [Tick 0]
    (snd (setConcurrentRequests (Some (-1)%Z) (new_client, constant_world 0))) =
    (Resolved
       (map (fun d => _getErrorResult d "Некорректный формат доменного имени")
            (invalidDomains ["example.com"; "bad name"])
        ++ map (fun d => _getErrorResult d "Result not found")
               (validDomains ["example.com"; "bad name"])),
     (set_activeScanTasks 0
        (set_shouldStop false
           (fst (snd (setConcurrentRequests (Some (-1)%Z)
                        (new_client, constant_world 0))))),
      snd (snd (setConcurrentRequests (Some (-1)%Z) (new_client, constant_world 0))))).
Proof.
  assert (H1 : isScanning (fst (snd (setConcurrentRequests (Some (-1)%Z)
                                       (new_client, constant_world 0)))) = false)
    by reflexivity.
  assert (H2 : validDomains ["example.com"; "bad name"] <> [])
    by (vm_compute; discriminate).
  assert (H3 : (concurrentRequests (fst (snd (setConcurrentRequests (Some (-1)%Z)
                                   (new_client, constant_world 0)))) <= 0)%Z)
    by (vm_compute; discriminate).
  split; [exact H1 |]. split; [exact H2 |]. split; [exact H3 |].
  exact (checkDomains_without_workers _dnsLookup ["example.com"; "bad name"] true [Tick 0]
           (snd (setConcurrentRequests (Some (-1)%Z) (new_client, constant_world 0)))
           H1 H2 H3).
Defined.

(** ** Scans and the cache *)

Lemma checking_insert_other (ws : list Phase) (i : nat) (x y : Phase)
  (d n : string) :
  ws !! i = Some x -> (forall d' m' n', x <> Checking d' m' n') ->
  (exists j m, ws !! j = Some (Checking d m n)) ->
  exists j m, <[i := y]> ws !! j = Some (Checking d m n).
Proof.
  intros Hi Hx (j & m & Hj).
  destruct (decide (i = j)) as [<- | Hne]; [congruence |].
  exists j, m. rewrite list_lookup_insert_ne by exact Hne. exact Hj.
Qed.

Lemma worker_step_filling (port : Port) (cb : bool) (total i : nat)
  (valid : list string) (ps : Pool * State) :
  filling valid ps -> filling valid (worker_step port cb total i ps).
Proof.
  destruct ps as [p st]. intros (Hon & Hq & Hv). cbn [fst snd] in *.
  apply (worker_step_cases port cb total (filling valid)); unfold filling;
    cbn [fst snd set_worker set_queue report workers results domainQueue].
  - intros _. auto.
  - intros Hi _. split; [exact Hon |]. split; [exact Hq |].
    intros d Hd. destruct (Hv d Hd) as [H | [H | H]]; auto.
    right. left. apply (checking_insert_other _ _ Ready _ _ _ Hi); [discriminate | exact H].
  - intros q _ _ E. rewrite E in Hq. inversion Hq as [| ? ? Hbad _].
    vm_compute in Hbad. discriminate.
  - intros d q Hi _ E _. rewrite E in Hq. inversion Hq as [| ? ? Hd Hq']; subst.
    destruct (valid_name_facts d Hd) as (_ & Hn & Hvn). rewrite Hn, Hvn, Hon. cbn [negb].
    split; [reflexivity |]. split; [exact Hq' |].
    intros d0 Hd0. destruct (Hv d0 Hd0) as [H | [H | H]]; auto.
    + rewrite E in H. destruct H as [<- | H]; [| auto].
      destruct (cache (fst st) !! toLowerCase d) as [cached |] eqn:Ec.
      * right. right. eexists. reflexivity.
      * right. left. exists i, (mode (fst st)).
        apply list_lookup_insert_Some. left. apply lookup_lt_Some in Hi. auto.
    + right. left.
      apply (checking_insert_other _ _ Ready _ _ _ Hi); [discriminate | exact H].
  - intros d m n r w Hi _. rewrite Hon. cbn [cacheEnabled set_cache cache].
    split; [exact Hon |]. split; [exact Hq |].
    intros d0 Hd0. destruct (Hv d0 Hd0) as [H | [(j & m0 & Hj) | H]]; auto.
    + destruct (decide (i = j)) as [<- | Hne].
      * rewrite Hi in Hj. injection Hj as -> -> ->.
        right. right. rewrite lookup_insert_eq. eexists. reflexivity.
      * right. left. exists j, m0. rewrite list_lookup_insert_ne by exact Hne. exact Hj.
    + right. right. apply lookup_insert_is_Some'. right. exact H.
  - intros d r Hi. split; [exact Hon |]. split; [exact Hq |].
    intros d0 Hd0. destruct (Hv d0 Hd0) as [H | [H | H]]; auto.
    right. left.
    apply (checking_insert_other _ _ (Settled d (Resolved r)) _ _ _ Hi);
      [discriminate | exact H].
  - intros d msg Hi. split; [exact Hon |]. split; [exact Hq |].
    intros d0 Hd0. destruct (Hv d0 Hd0) as [H | [H | H]]; auto.
    right. left.
    apply (checking_insert_other _ _ (Settled d (Rejected msg)) _ _ _ Hi);
      [discriminate | exact H].
  - intros Hi. split; [exact Hon |]. split; [exact Hq |].
    intros d0 Hd0. destruct (Hv d0 Hd0) as [H | [H | H]]; auto.
    right. left.
    apply (checking_insert_other _ _ Sleeping _ _ _ Hi); [discriminate | exact H].
Qed.

Lemma scan_end_filling (port : Port) (domains : list string) (cb : bool)
  (schedule : list Event) (st : State) :
  cacheEnabled (fst st) = true ->
  filling (validDomains domains) (scan_end port domains cb schedule st).
Proof.
  intros Hon. unfold scan_end. apply run_workers_preserves.
  - intros i ps. apply worker_step_filling.
  - intros p st0 (H1 & H2 & H3). cbn [fst snd] in *.
    split; [exact H1 |]. split; [exact H2 |].
    intros d Hd. destruct (H3 d Hd) as [H | [(j & m & Hj) | H]]; auto.
    right. left. exists j, m. cbn [fst add_worker workers].
    rewrite lookup_app_l; [exact Hj | apply lookup_lt_Some in Hj; exact Hj].
  - intros p st0 k H. exact H.
  - intros _ [p0 st0] H. unfold stopScan, bind, get_client, modify_client.
    cbn [fst snd]. destruct (negb (isScanning (fst st0))); exact H.
  - destruct (scan_start_parts domains cb st) as (_ & Hq & _).
    unfold filling. rewrite Hq. unfold scan_start. cbn [fst snd].
    split; [exact Hon |].
    split; [apply List.Forall_forall; apply validDomains_valid |].
    intros d Hd. left. exact Hd.
Qed.

(** X20: with caching on, a scan that nobody stops and that has at
    least one worker leaves every valid entry in the cache, under its
    lower-case form, whatever the lookups answered. *)
Theorem complete_scan_fills_cache (port : Port) (domains : list string) (cb : bool)
  (schedule : list Event) (st : State)
  (Hscan : isScanning (fst st) = false)
  (Hvalid : validDomains domains <> [])
  (Hon : cacheEnabled (fst st) = true)
  (Hstop : no_stop schedule)
  (Hworkers : (1 <= concurrentRequests (fst st))%Z) :
  Forall (fun d => is_Some (cache (fst (snd (checkDomains port domains cb schedule st)))
                              !! toLowerCase d))
         (validDomains domains).
Proof.
  rewrite (checkDomains_scan_end port domains cb schedule st Hscan Hvalid). cbn [fst snd].
  destruct (scan_end_filling port domains cb schedule st Hon) as (_ & _ & Hv).
  pose proof (scan_end_queue_empty port domains cb schedule st Hstop Hvalid Hworkers) as Hq.
  pose proof (scan_end_all_exited port domains cb schedule st) as Hex.
  apply first_live_None in Hex.
  apply List.Forall_forall. intros d Hd.
  destruct (Hv d Hd) as [H | [(j & m & Hj) | H]].
  - rewrite Hq in H. destruct H.
  - pose proof (Forall_lookup_1 _ _ _ _ Hex Hj) as He. discriminate He.
  - exact H.
Qed.

Lemma complete_scan_fills_cache_witness :
  isScanning (fst (set_mode "offline" new_client, constant_world 0)) = false /\
  validDomains ["Example.COM"; "bad name"; "example.org"] <> [] /\
  cacheEnabled (fst (set_mode "offline" new_client, constant_world 0)) = true /\
  no_stop [Tick 1; Tick 0] /\
  (1 <= concurrentRequests (fst (set_mode "offline" new_client, constant_world 0)))%Z /\
  Forall (fun d => is_Some (cache (fst (snd (checkDomains failing_port
                                               ["Example.COM"; "bad name"; "example.org"]
                                               false [Tick 1; Tick 0]
                                               (set_mode "offline" new_client,
                                                constant_world 0))))
                              !! toLowerCase d))
         (validDomains ["Example.COM"; "bad name"; "example.org"]).
Proof.
  assert (H1 : isScanning (fst (set_mode "offline" new_client, constant_world 0)) = false)
    by reflexivity.
  assert (H2 : validDomains ["Example.COM"; "bad name"; "example.org"] <> [])
    by (vm_compute; discriminate).
  assert (H3 : cacheEnabled (fst (set_mode "offline" new_client, constant_world 0)) = true)
    by reflexivity.
  assert (H4 : no_stop [Tick 1; Tick 0]) by (repeat constructor; discriminate).
  assert (H5 : (1 <= concurrentRequests
                       (fst (set_mode "offline" new_client, constant_world 0)))%Z)
    by (simpl; lia).
  split; [exact H1 |]. split; [exact H2 |]. split; [exact H3 |].
  split; [exact H4 |]. split; [exact H5 |].
  exact (complete_scan_fills_cache failing_port
           ["Example.COM"; "bad name"; "example.org"] false [Tick 1; Tick 0]
           (set_mode "offline" new_client, constant_world 0) H1 H2 H3 H4 H5).
Defined.

Lemma worker_step_answered (port : Port) (cb : bool) (total i : nat)
  (st0 : State) (ps : Pool * State) :
  answered_from_cache st0 ps ->
  answered_from_cache st0 (worker_step port cb total i ps).
Proof.
  destruct ps as [p st]. intros (Hw0 & Hc0 & Hon & Hq & Hws). cbn [fst snd] in *.
  assert (Hins : forall ph q,
             (forall d m n, ph <> Checking d m n) ->
             Forall (fun d => isValidDomain d = true /\
                              is_Some (cache (fst st0) !! toLowerCase d)) q ->
             answered_from_cache st0 (set_worker i ph (set_queue q p), st)).
  { intros ph q Hph Hq'. unfold answered_from_cache. cbn [fst snd set_worker set_queue
      workers domainQueue]. repeat split; try assumption.
    apply Forall_insert; assumption. }
  apply (worker_step_cases port cb total (answered_from_cache st0)).
  - intros _. repeat split; assumption.
  - intros _ _. apply (Hins Exited (domainQueue p)); [discriminate | exact Hq].
  - intros q _ _ E. rewrite E in Hq. inversion Hq as [| ? ? [Hbad _] _].
    vm_compute in Hbad. discriminate.
  - intros d q _ _ E _. rewrite E in Hq. inversion Hq as [| ? ? [Hd Hcached] Hq']; subst.
    destruct (valid_name_facts d Hd) as (_ & Hn & Hvn). rewrite Hn, Hvn, Hon, Hc0.
    cbn [negb]. destruct Hcached as [cached ->].
    apply Hins; [discriminate | exact Hq'].
  - intros d m n r w Hi _. pose proof (Forall_lookup_1 _ _ _ _ Hws Hi) as Hbad.
    destruct (Hbad d m n eq_refl).
  - intros d r _. apply (Hins Sleeping (domainQueue p)); [discriminate | exact Hq].
  - intros d msg _. apply (Hins Ready (domainQueue p)); [discriminate | exact Hq].
  - intros _. apply (Hins Ready (domainQueue p)); [discriminate | exact Hq].
Qed.

(** X21: with caching on, a scan of names that are all in the cache is
    answered from the cache alone: it makes no lookup, runs no strategy
    and draws no random number, so the world is the one before the scan,
    and it leaves the cache as it was, under every schedule. *)
Theorem cached_scan_touches_nothing (port : Port) (domains : list string) (cb : bool)
  (schedule : list Event) (st : State)
  (Hon : cacheEnabled (fst st) = true)
  (Hcached : Forall (fun d => is_Some (cache (fst st) !! toLowerCase d))
                    (validDomains domains)) :
  snd (snd (checkDomains port domains cb schedule st)) = snd st /\
  cache (fst (snd (checkDomains port domains cb schedule st))) = cache (fst st).
Proof.
  destruct (isScanning (fst st)) eqn:Hscan;
    [unfold checkDomains; rewrite Hscan; auto |].
  destruct (length (validDomains domains) =? 0)%nat eqn:Hlen;
    [unfold checkDomains; rewrite Hscan, Hlen; auto |].
  assert (Hvalid : validDomains domains <> []).
  { intros E. rewrite E in Hlen. discriminate. }
  rewrite (checkDomains_scan_end port domains cb schedule st Hscan Hvalid). cbn [fst snd].
  assert (H : answered_from_cache st (scan_end port domains cb schedule st)).
  { unfold scan_end. apply run_workers_preserves.
    - intros i ps. apply worker_step_answered.
    - intros p st0 (H1 & H2 & H3 & H4 & H5). repeat split; try assumption.
      cbn [fst add_worker workers]. apply Forall_app. split; [exact H5 |].
      constructor; [discriminate | constructor].
    - intros p st0 k H. exact H.
    - intros _ [p0 st0] H. unfold stopScan, bind, get_client, modify_client.
      cbn [fst snd]. destruct (negb (isScanning (fst st0))); exact H.
    - destruct (scan_start_parts domains cb st) as (_ & Hq & Hw).
      unfold answered_from_cache. rewrite Hq, Hw. unfold scan_start. cbn [fst snd].
      repeat split; try assumption; [| constructor].
      apply List.Forall_forall. intros d Hd. split.
      + apply (validDomains_valid domains), Hd.
      + rewrite List.Forall_forall in Hcached. apply Hcached, Hd. }
  destruct H as (Hw & Hc & _). auto.
Qed.

Lemma cached_scan_touches_nothing_witness :
  cacheEnabled (fst (set_cache (<["example.com" := example_result]> ∅)
                       (set_mode "offline" new_client), constant_world 0)) = true /\
  Forall (fun d => is_Some (cache (fst (set_cache
                                          (<["example.com" :=
                                               example_result]> ∅)
                                          (set_mode "offline" new_client),
                                        constant_world 0))
                              !! toLowerCase d))
         (validDomains ["Example.com"; "bad name"]) /\
  snd (snd (checkDomains _dnsLookup ["Example.com"; "bad name"] true [Tick 0]
              (set_cache (<["example.com" := example_result]> ∅)
                 (set_mode "offline" new_client), constant_world 0)))
    = snd (set_cache (<["example.com" := example_result]> ∅)
             (set_mode "offline" new_client), constant_world 0) /\
  cache (fst (snd (checkDomains _dnsLookup ["Example.com"; "bad name"] true [Tick 0]
                     (set_cache (<["example.com" := example_result]> ∅)
                        (set_mode "offline" new_client), constant_world 0))))
    = cache (fst (set_cache (<["example.com" := example_result]> ∅)
                    (set_mode "offline" new_client), constant_world 0)).
Proof.
  assert (H1 : cacheEnabled
                 (fst (set_cache (<["example.com" := example_result]> ∅)
                         (set_mode "offline" new_client), constant_world 0)) = true)
    by reflexivity.
  assert (H2 : Forall (fun d => is_Some (cache (fst (set_cache
                                          (<["example.com" :=
                                               example_result]> ∅)
                                          (set_mode "offline" new_client),
                                        constant_world 0))
                              !! toLowerCase d))
                 (validDomains ["Example.com"; "bad name"])).
  { change (validDomains ["Example.com"; "bad name"]) with ["Example.com"].
    constructor; [| constructor].
    change (toLowerCase "Example.com") with "example.com". cbn [fst cache set_cache].
    rewrite lookup_insert_eq. eexists. reflexivity. }
  split; [exact H1 |]. split; [exact H2 |].
  exact (cached_scan_touches_nothing _dnsLookup ["Example.com"; "bad name"] true [Tick 0]
           (set_cache (<["example.com" := example_result]> ∅)
              (set_mode "offline" new_client), constant_world 0) H1 H2).
Defined.

(** ** The final order of the results *)

Lemma find_snoc {A} (p : A -> bool) (l : list A) (x : A) :
  List.find p (l ++ [x]) =
  match List.find p l with
  | Some y => Some y
  | None => if p x then Some x else None
  end.
Proof.
  induction l as [| a l IH]; simpl; [reflexivity |].
  destruct (p a); [reflexivity | exact IH].
Qed.

Lemma resultMap_last (rs : list DomainCheckResult) (d : string) :
  forall m : gmap string DomainCheckResult,
    fold_left (fun m result => <[domain result := result]> m) rs m !! d =
    match last_result_for d rs with
    | Some r => Some r
    | None => m !! d
    end.
Proof.
  unfold last_result_for. induction rs as [| r0 rs IH]; intros m; cbn [fold_left rev].
  - reflexivity.
  - rewrite IH, find_snoc.
    destruct (List.find _ (rev rs)); [reflexivity |].
    destruct (String.eqb (domain r0) d) eqn:E.
    + apply String.eqb_eq in E. subst d. apply lookup_insert_eq.
    + apply String.eqb_neq in E. apply lookup_insert_ne. exact E.
Qed.

(** X22: [_sortResultsByOriginalOrder] gives, for each name of the
    list of names and in the order of that list, the last of the results
    that bears the name, and the error result [Result not found] when
    there is none.  An earlier result for the same name is dropped, and a
    name that stands twice in the list gets the same result twice. *)
Theorem sortResults_last_wins (rs : list DomainCheckResult) (ds : list string) :
  _sortResultsByOriginalOrder rs ds =
  map (fun d => match last_result_for d rs with
                | Some r => r
                | None => _getErrorResult d "Result not found"
                end) ds.
Proof.
  unfold _sortResultsByOriginalOrder. apply List.map_ext. intros d.
  rewrite resultMap_last. destruct (last_result_for d rs); [reflexivity |].
  rewrite lookup_empty. reflexivity.
Qed.

(** ** From the file to the scan *)

Lemma parseLines_lines (content : string) :
  Forall (fun line => line <> "" /\ trim line = line) (parseLines content).
Proof.
  unfold parseLines. apply List.Forall_forall. intros line Hin.
  apply List.filter_In in Hin as [Hin Hlen].
  apply List.in_map_iff in Hin as (x & <- & _).
  split; [| apply trim_idempotent]. intros E. rewrite E in Hlen. discriminate.
Qed.

Lemma map_trim_fixed (lines : list string) :
  Forall (fun line => line <> "" /\ trim line = line) lines -> map trim lines = lines.
Proof.
  induction 1 as [| l ls [_ Hl] _ IH]; simpl; [reflexivity |]. rewrite Hl, IH. reflexivity.
Qed.

Lemma split_count (lines : list string) :
  Forall (fun line => line <> "") lines ->
  (length (List.filter (fun d => (0 <? String.length d)%nat && isValidDomain d) lines)
   + length (List.filter (fun d => (0 <? String.length d)%nat && negb (isValidDomain d))
               lines)
   = length lines)%nat.
Proof.
  induction 1 as [| l ls Hl _ IH]; [reflexivity |]. cbn [List.filter].
  destruct l as [| c l]; [contradiction |].
  assert (E : (0 <? String.length (String c l))%nat = true) by reflexivity.
  rewrite E. cbn [andb].
  destruct (isValidDomain (String c l)); cbn [negb length]; lia.
Qed.

Lemma join_lines_cons_line (c : ascii) (lines : list string) :
  lines <> [] -> join_lines (cons_line c lines) = String c (join_lines lines).
Proof.
  destruct lines as [| l [| l' ls]]; [contradiction | reflexivity | reflexivity].
Qed.

Lemma split_lines_nonempty (content : string) : split_lines content <> [].
Proof.
  destruct content as [| c rest]; cbn [split_lines]; [discriminate |].
  destruct (is_LF c); [discriminate |].
  destruct rest as [| c' rest']; [discriminate |].
  destruct (is_CR c && is_LF c'); [discriminate |].
  destruct (split_lines (String c' rest')); discriminate.
Qed.

Lemma join_split_lines (content : string) :
  join_lines (split_lines content) = drop_cr content.
Proof.
  assert (H : forall n content, (String.length content <= n)%nat ->
                join_lines (split_lines content) = drop_cr content).
  { clear content. induction n as [| n IH]; intros [| c rest] Hlen; simpl in Hlen;
      try reflexivity; try lia.
    assert (Hrest : join_lines (split_lines rest) = drop_cr rest) by (apply IH; lia).
    cbn [split_lines drop_cr].
    destruct rest as [| c' rest'].
    - destruct (is_LF c) eqn:Ec; [| reflexivity].
      unfold is_LF in Ec. apply Nat.eqb_eq in Ec.
      rewrite <- (ascii_nat_embedding c). unfold code in Ec. rewrite Ec. reflexivity.
    - destruct (is_LF c) eqn:Ec.
      + assert (Hcr : is_CR c = false).
        { unfold is_LF, is_CR in *. apply Nat.eqb_eq in Ec. rewrite Ec. reflexivity. }
        rewrite Hcr. cbn [andb].
        pose proof (split_lines_nonempty (String c' rest')) as Hne.
        destruct (split_lines (String c' rest')) as [| l ls] eqn:E; [contradiction |].
        cbn [join_lines]. rewrite <- Hrest. cbn [join_lines].
        unfold is_LF in Ec. apply Nat.eqb_eq in Ec.
        rewrite <- (ascii_nat_embedding c). unfold code in Ec. rewrite Ec.
        reflexivity.
      + destruct (is_CR c && is_LF c') eqn:Ecr.
        * apply andb_true_iff in Ecr as [_ Elf].
          simpl in Hlen.
          assert (Hr : join_lines (split_lines rest') = drop_cr rest')
            by (apply IH; lia).
          rewrite <- Hrest. cbn [split_lines]. rewrite Elf. reflexivity.
        * rewrite join_lines_cons_line by apply split_lines_nonempty.
          rewrite Hrest. reflexivity. }
  apply (H (String.length content)). lia.
Qed.

(** X23: the lines that [FileUtils.parseLines] hands to [checkDomains].
    Splitting loses nothing but the carriage returns that stand before a
    line feed: the pieces joined by line feeds are the content without
    them.  Every line that is kept is trimmed and not empty, so
    [checkDomains] takes each of them as an entry: the total that it
    passes to the progress callback is the number of lines that the user
    interface announced. *)
Theorem parseLines_feeds_checkDomains (content : string) :
  join_lines (split_lines content) = drop_cr content /\
  Forall (fun line => line <> "" /\ trim line = line) (parseLines content) /\
  scan_total (parseLines content) = length (parseLines content).
Proof.
  split; [apply join_split_lines |]. split; [apply parseLines_lines |].
  unfold scan_total, validDomains, invalidDomains.
  rewrite (map_trim_fixed _ (parseLines_lines content)).
  apply split_count. eapply Forall_impl; [apply parseLines_lines |].
  intros l [Hl _]. exact Hl.
Qed.

(** ** The results manager *)

Lemma findIndex_Some (d : string) (rs : list DomainCheckResult) (i : nat) :
  findIndex d rs = Some i ->
  exists r, rs !! i = Some r /\ domain r = d /\
            List.find (fun r => String.eqb (domain r) d) rs = Some r.
Proof.
  revert i. induction rs as [| r0 rs IH]; intros i; cbn [findIndex List.find];
    [discriminate |].
  destruct (String.eqb (domain r0) d) eqn:E.
  - intros [= <-]. exists r0. apply String.eqb_eq in E. auto.
  - destruct (findIndex d rs) as [j |]; [| discriminate]. intros [= <-].
    destruct (IH j eq_refl) as (r & Hr & Hd & Hf). exists r. auto.
Qed.

Lemma findIndex_None (d : string) (rs : list DomainCheckResult) :
  findIndex d rs = None ->
  ~ In d (map domain rs) /\ List.find (fun r => String.eqb (domain r) d) rs = None.
Proof.
  induction rs as [| r0 rs IH]; cbn [findIndex List.find map]; [intros _; split; auto |].
  destruct (String.eqb (domain r0) d) eqn:E; [discriminate |].
  destruct (findIndex d rs); [discriminate |]. intros _.
  destruct (IH eq_refl) as [Hin Hf]. split; [| exact Hf].
  apply String.eqb_neq in E. intros [H | H]; auto.
Qed.

Lemma find_insert_first (d d' : string) (r : DomainCheckResult)
  (rs : list DomainCheckResult) (i : nat) :
  findIndex d' rs = Some i -> domain r = d' ->
  List.find (fun r => String.eqb (domain r) d) (<[i := r]> rs) =
  if String.eqb d' d then Some r
  else List.find (fun r => String.eqb (domain r) d) rs.
Proof.
  intros Hi Hr. revert i Hi.
  induction rs as [| r0 rs IH]; intros i; cbn [findIndex]; [discriminate |].
  destruct (String.eqb (domain r0) d') eqn:E.
  - intros [= <-]. cbn [List.find]. change (<[0%nat := r]> (r0 :: rs)) with (r :: rs).
    cbn [List.find]. apply String.eqb_eq in E. rewrite Hr, E.
    destruct (String.eqb d' d); reflexivity.
  - destruct (findIndex d' rs) as [j |]; [| discriminate]. intros [= <-].
    change (<[S j := r]> (r0 :: rs)) with (r0 :: <[j := r]> rs). cbn [List.find].
    rewrite (IH j eq_refl).
    destruct (String.eqb (domain r0) d) eqn:E0; [| reflexivity].
    apply String.eqb_eq in E0. subst d. rewrite String.eqb_sym, E. reflexivity.
Qed.

Lemma find_addResult (d : string) (r : DomainCheckResult) (rs : list DomainCheckResult) :
  List.find (fun r => String.eqb (domain r) d) (addResult r rs) =
  if String.eqb (domain r) d then Some r
  else List.find (fun r => String.eqb (domain r) d) rs.
Proof.
  unfold addResult. destruct (findIndex (domain r) rs) as [i |] eqn:E.
  - apply (find_insert_first d (domain r) r rs i E eq_refl).
  - rewrite find_snoc. destruct (findIndex_None _ _ E) as [_ Hf].
    destruct (String.eqb (domain r) d) eqn:Ed.
    + apply String.eqb_eq in Ed. subst d. rewrite Hf. reflexivity.
    + clear Hf. destruct (List.find (fun r0 => String.eqb (domain r0) d) rs); reflexivity.
Qed.

Lemma map_domain_insert (rs : list DomainCheckResult) (i : nat)
  (r r' : DomainCheckResult) :
  rs !! i = Some r' -> domain r = domain r' ->
  map domain (<[i := r]> rs) = map domain rs.
Proof.
  revert i. induction rs as [| r0 rs IH]; intros [| i] H Hd; simpl in *; try discriminate.
  - injection H as ->. rewrite Hd. reflexivity.
  - change (<[S i := r]> (r0 :: rs)) with (r0 :: <[i := r]> rs). simpl.
    rewrite (IH i H Hd). reflexivity.
Qed.

Lemma NoDup_snoc {A} (l : list A) (x : A) :
  List.NoDup l -> ~ In x l -> List.NoDup (l ++ [x]).
Proof.
  induction 1 as [| a l Ha Hl IH]; intros Hx; cbn [app].
  - constructor; [intros [] | constructor].
  - constructor.
    + intros Hin. apply in_app_or in Hin as [Hin | [<- | []]]; [auto |].
      apply Hx. left. reflexivity.
    + apply IH. intros Hin. apply Hx. right. exact Hin.
Qed.

Lemma addResult_NoDup (r : DomainCheckResult) (rs : list DomainCheckResult) :
  List.NoDup (map domain rs) -> List.NoDup (map domain (addResult r rs)).
Proof.
  intros Hnd. unfold addResult. destruct (findIndex (domain r) rs) as [i |] eqn:E.
  - destruct (findIndex_Some _ _ _ E) as (r' & Hi & Hd & _).
    rewrite (map_domain_insert rs i r r' Hi); [exact Hnd | congruence].
  - destruct (findIndex_None _ _ E) as [Hin _].
    rewrite map_app. cbn [map]. apply NoDup_snoc; assumption.
Qed.

Lemma last_result_for_snoc (d : string) (rs : list DomainCheckResult)
  (r : DomainCheckResult) :
  last_result_for d (rs ++ [r]) =
  if String.eqb (domain r) d then Some r else last_result_for d rs.
Proof. unfold last_result_for. rewrite rev_app_distr. reflexivity. Qed.

Lemma results_after_number_from (n total : nat) (rs : list DomainCheckResult) :
  forall store,
    fold_left (fun rs call => addResult (snd call) rs) (number_from n total rs) store =
    fold_left (fun rs r => addResult r rs) rs store.
Proof.
  revert n. induction rs as [| r rs IH]; intros n store; cbn [number_from fold_left];
    [reflexivity |].
  apply IH.
Qed.

Lemma fold_addResult (rs : list DomainCheckResult) :
  List.NoDup (map domain (fold_left (fun rs r => addResult r rs) rs [])) /\
  forall d, List.find (fun r => String.eqb (domain r) d)
              (fold_left (fun rs r => addResult r rs) rs []) =
            last_result_for d rs.
Proof.
  induction rs as [| r rs [IHn IHf]] using rev_ind.
  - split; [constructor | reflexivity].
  - rewrite fold_left_app. cbn [fold_left]. split.
    + apply addResult_NoDup, IHn.
    + intros d. rewrite find_addResult, last_result_for_snoc, IHf. reflexivity.
Qed.

(** X24: the results manager and the client agree.  The progress
    callback of a scan hands every result to [addResult], which keeps
    one result for each name, the last one reported.  So at every moment
    of a scan the names in the results manager are all different, and
    what it holds for a name is what [_sortResultsByOriginalOrder] will
    pick for that name from the results pushed so far; and
    [getResultByDomain] finds it, for every name but the empty one. *)
Theorem results_manager_agrees_with_client (port : Port) (domains : list string)
  (schedule : list Event) (st : State) :
  let p := fst (scan_after port domains true schedule st) in
  let store := results_after (progress p) in
  List.NoDup (map domain store) /\
  forall d, d <> "" -> getResultByDomain d store = last_result_for d (results p).
Proof.
  cbv zeta. unfold results_after.
  destruct (scan_after_books port domains true schedule st) as (_ & Hp & _).
  rewrite Hp, results_after_number_from.
  destruct (fold_addResult (results (fst (scan_after port domains true schedule st))))
    as [Hn Hf].
  split; [exact Hn |]. intros d Hd. unfold getResultByDomain.
  apply String.eqb_neq in Hd. rewrite Hd. apply Hf.
Qed.

(** X25: [addResult], [getResultByDomain] and [removeResult] on any
    list of results.  After [addResult] the result is the one found for
    its name and what is found for any other name is unchanged; the
    number of results grows by one when the name is new and stays the
    same otherwise.  After [removeResult] of a name that is not empty,
    from a list with no name twice, nothing is found for that name. *)
Theorem addResult_upserts (r : DomainCheckResult) (rs : list DomainCheckResult)
  (d : string) :
  List.find (fun r => String.eqb (domain r) d) (addResult r rs) =
    (if String.eqb (domain r) d then Some r
     else List.find (fun r => String.eqb (domain r) d) rs) /\
  length (addResult r rs) =
    (if existsb (fun r' => String.eqb (domain r') (domain r)) rs
     then length rs else S (length rs)) /\
  (if String.eqb d "" then removeResult d rs = rs
   else List.NoDup (map domain rs) -> getResultByDomain d (removeResult d rs) = None).
Proof.
  split; [apply find_addResult |]. split.
  - unfold addResult. destruct (findIndex (domain r) rs) as [i |] eqn:E.
    + destruct (findIndex_Some _ _ _ E) as (r' & Hi & Hd & Hf).
      rewrite length_insert.
      assert (Hex : existsb (fun r' => String.eqb (domain r') (domain r)) rs = true).
      { apply existsb_exists. exists r'. split.
        - apply list_elem_of_In. eapply list_elem_of_lookup_2. exact Hi.
        - apply String.eqb_eq. exact Hd. }
      rewrite Hex. reflexivity.
    + destruct (findIndex_None _ _ E) as [Hin _].
      assert (Hex : existsb (fun r' => String.eqb (domain r') (domain r)) rs = false).
      { apply not_true_is_false. intros H. apply existsb_exists in H as (r' & Hr' & Hd).
        apply Hin. apply String.eqb_eq in Hd. rewrite <- Hd. apply List.in_map, Hr'. }
      rewrite Hex, length_app. simpl. lia.
  - unfold removeResult, getResultByDomain.
    destruct (String.eqb d "") eqn:Hd; [reflexivity |]. intros Hnd.
    destruct (findIndex d rs) as [i |] eqn:E;
      [| apply (findIndex_None _ _ E)].
    revert i E. induction rs as [| r0 rs IH]; intros i; cbn [findIndex];
      [discriminate |].
    inversion Hnd as [| ? ? Hnotin Hnd']; subst.
    destruct (String.eqb (domain r0) d) eqn:E0.
    + intros [= <-]. change (delete 0%nat (r0 :: rs)) with rs.
      apply String.eqb_eq in E0. subst d.
      destruct (List.find _ rs) as [r' |] eqn:Hf; [| reflexivity].
      apply List.find_some in Hf as [Hin Heq]. apply String.eqb_eq in Heq.
      exfalso. apply Hnotin. rewrite <- Heq. apply List.in_map, Hin.
    + destruct (findIndex d rs) as [j |] eqn:Ej; [| discriminate]. intros [= <-].
      change (delete (S j) (r0 :: rs)) with (r0 :: delete j rs).
      cbn [List.find]. rewrite E0. apply (IH Hnd' j eq_refl).
Qed.

(** ** The statistics of a list of results *)

Lemma fold_count_result (rs : list DomainCheckResult) :
  forall stats totalScore,
    let acc := fold_left count_result rs (stats, totalScore) in
    let counts proj base :=
      mkCounts (count_ok base + with_status proj ok rs)
               (count_warning base + with_status proj warning rs)
               (count_error base + with_status proj error rs) in
    stats_total (fst acc) = stats_total stats /\
    stats_dmarc (fst acc) = counts (fun r => dmarc_status (dmarc r)) (stats_dmarc stats) /\
    stats_spf (fst acc) = counts (fun r => spf_status (spf r)) (stats_spf stats) /\
    stats_dkim (fst acc) = counts (fun r => dkim_status (dkim r)) (stats_dkim stats) /\
    snd acc = (totalScore + fold_right (fun r s => securityScore r + s) 0 rs)%Z /\
    (level_high (stats_securityLevels (fst acc)) =
       level_high (stats_securityLevels stats)
       + length (List.filter (fun r => (80 <=? securityScore r)%Z) rs))%nat /\
    (level_high (stats_securityLevels (fst acc))
     + level_medium (stats_securityLevels (fst acc))
     + level_low (stats_securityLevels (fst acc)) =
     level_high (stats_securityLevels stats)
     + level_medium (stats_securityLevels stats)
     + level_low (stats_securityLevels stats) + length rs)%nat.
Proof.
  unfold with_status.
  induction rs as [| r rs IH]; intros stats totalScore; cbn [fold_left].
  - cbv zeta. cbn [fst snd List.filter length fold_right].
    rewrite !Nat.add_0_r, Z.add_0_r. destruct stats as [t [] [] [] a []]. auto 10.
  - specialize (IH (fst (count_result (stats, totalScore) r))
                   (snd (count_result (stats, totalScore) r))).
    rewrite <- surjective_pairing in IH. cbv zeta in *.
    destruct IH as (H1 & H2 & H3 & H4 & H5 & H6 & H7).
    split; [rewrite H1; reflexivity |].
    split; [rewrite H2; cbn [count_result fst snd stats_dmarc List.filter];
            unfold count_status; destruct (dmarc_status (dmarc r));
            cbn [count_ok count_warning count_error length]; f_equal; lia |].
    split; [rewrite H3; cbn [count_result fst snd stats_spf List.filter];
            unfold count_status; destruct (spf_status (spf r));
            cbn [count_ok count_warning count_error length]; f_equal; lia |].
    split; [rewrite H4; cbn [count_result fst snd stats_dkim List.filter];
            unfold count_status; destruct (dkim_status (dkim r));
            cbn [count_ok count_warning count_error length]; f_equal; lia |].
    split; [rewrite H5; cbn [count_result fst snd fold_right]; lia |].
    split.
    + rewrite H6. cbn [count_result fst snd stats_securityLevels List.filter].
      unfold count_level.
      destruct (80 <=? securityScore r)%Z, (50 <=? securityScore r)%Z;
        cbn [level_high length]; lia.
    + rewrite H7. cbn [count_result fst snd stats_securityLevels length].
      unfold count_level.
      destruct (80 <=? securityScore r)%Z, (50 <=? securityScore r)%Z;
        cbn [level_high level_medium level_low]; lia.
Qed.

Lemma scored_high (r : DomainCheckResult) :
  scored r -> (80 <=? securityScore r)%Z = well_protected r.
Proof.
  unfold scored, well_protected. intros ->.
  destruct (dmarc_status (dmarc r)), (spf_status (spf r)), (dkim_status (dkim r));
    reflexivity.
Qed.

(** X26: the statistics of a list of results.  The total is the number
    of results; for each of DMARC, SPF and DKIM the three counters are
    the numbers of results with that status, so they add up to the
    total; the three security levels add up to the total. *)
Theorem statistics_count_every_result (rs : list DomainCheckResult) :
  let stats := _calculateStatistics rs in
  let counts proj :=
    mkCounts (with_status proj ok rs) (with_status proj warning rs)
             (with_status proj error rs) in
  let sum c := (count_ok c + count_warning c + count_error c)%nat in
  stats_total stats = length rs /\
  stats_dmarc stats = counts (fun r => dmarc_status (dmarc r)) /\
  stats_spf stats = counts (fun r => spf_status (spf r)) /\
  stats_dkim stats = counts (fun r => dkim_status (dkim r)) /\
  sum (stats_dmarc stats) = length rs /\
  sum (stats_spf stats) = length rs /\
  sum (stats_dkim stats) = length rs /\
  (level_high (stats_securityLevels stats) + level_medium (stats_securityLevels stats)
   + level_low (stats_securityLevels stats) = length rs)%nat.
Proof.
  cbv zeta. unfold _calculateStatistics.
  destruct rs as [| r0 rs0]; [cbn; auto 10 |].
  set (rs := r0 :: rs0). cbn [length Nat.eqb].
  pose proof (fold_count_result rs
                (mkStatistics (length rs) (mkCounts 0 0 0) (mkCounts 0 0 0)
                   (mkCounts 0 0 0) 0 (mkLevels 0 0 0)) 0%Z) as H.
  cbv zeta in H. change (S (length rs0)) with (length rs).
  destruct (fold_left count_result rs _) as [stats totalScore].
  cbn [fst snd stats_total stats_dmarc stats_spf stats_dkim stats_securityLevels
       count_ok count_warning count_error level_high level_medium level_low
       Nat.add] in *.
  destruct H as (H1 & H2 & H3 & H4 & _ & _ & H7).
  assert (Hsum : forall proj,
             (with_status proj ok rs + with_status proj warning rs
              + with_status proj error rs = length rs)%nat).
  { intros proj. unfold with_status. clear. induction rs as [| r rs IH]; [reflexivity |].
    cbn [List.filter]. destruct (proj r); cbn [length]; lia. }
  rewrite H2, H3, H4. cbn [count_ok count_warning count_error].
  repeat split; try assumption; try apply Hsum.
Qed.

(** X27: the statistics and the score of the client.  Among results
    that have the score of their statuses, as all the results of the
    client have, the ones counted as of high security are those with no
    check in status [error] and at most one in status [warning]; and the
    average score is between 0 and 100. *)
Theorem statistics_high_level (rs : list DomainCheckResult)
  (Hscored : Forall scored rs) :
  level_high (stats_securityLevels (_calculateStatistics rs)) =
    length (List.filter well_protected rs) /\
  (0 <= stats_averageScore (_calculateStatistics rs) <= 100)%Z.
Proof.
  unfold _calculateStatistics.
  destruct rs as [| r0 rs0]; [cbn; split; [reflexivity | lia] |].
  set (rs := r0 :: rs0) in *. change (length rs =? 0)%nat with false. cbv iota.
  pose proof (fold_count_result rs
                (mkStatistics (length rs) (mkCounts 0 0 0) (mkCounts 0 0 0)
                   (mkCounts 0 0 0) 0 (mkLevels 0 0 0)) 0%Z) as H.
  cbv zeta in H.
  destruct (fold_left count_result rs _) as [stats totalScore].
  cbn [fst snd stats_securityLevels stats_averageScore level_high Nat.add] in *.
  destruct H as (_ & _ & _ & _ & H5 & H6 & _).
  split.
  - rewrite H6. f_equal. clear -Hscored.
    induction Hscored as [| r rs Hr _ IH]; [reflexivity |].
    cbn [List.filter]. rewrite (scored_high r Hr), IH. reflexivity.
  - assert (Hrange : (0 <= totalScore <= 100 * Z.of_nat (length rs))%Z).
    { rewrite H5. clear -Hscored.
      induction Hscored as [| r rs Hr _ IH]; [simpl; lia |].
      cbn [fold_right length]. unfold scored in Hr. rewrite Hr.
      assert (0 <= _calculateSecurityScore (dmarc_status (dmarc r))
                     (spf_status (spf r)) (dkim_status (dkim r)) <= 100)%Z
        by (destruct (dmarc_status (dmarc r)), (spf_status (spf r)),
              (dkim_status (dkim r)); cbn; lia).
      lia. }
    unfold round_div.
    assert (Hn : (0 < Z.of_nat (length rs))%Z) by (subst rs; cbn [length]; lia).
    split.
    + apply Z.div_pos; lia.
    + assert ((2 * totalScore + Z.of_nat (length rs)) / (2 * Z.of_nat (length rs)) < 101)%Z
        by (apply Z.div_lt_upper_bound; lia).
      lia.
Qed.

Lemma statistics_high_level_witness :
  Forall scored [_getErrorResult "bad name" "Некорректный формат доменного имени";
                 mkResult "example.com" None (mkDmarc warning "v=DMARC1; p=none" "none" None)
                   (mkSpf ok "v=spf1 -all" None) (mkDkim ok ["default"; "google"] None)
                   ["mx1.example.com"] 80] /\
  level_high (stats_securityLevels (_calculateStatistics
     [_getErrorResult "bad name" "Некорректный формат доменного имени";
      mkResult "example.com" None (mkDmarc warning "v=DMARC1; p=none" "none" None)
        (mkSpf ok "v=spf1 -all" None) (mkDkim ok ["default"; "google"] None)
        ["mx1.example.com"] 80])) =
    length (List.filter well_protected
     [_getErrorResult "bad name" "Некорректный формат доменного имени";
      mkResult "example.com" None (mkDmarc warning "v=DMARC1; p=none" "none" None)
        (mkSpf ok "v=spf1 -all" None) (mkDkim ok ["default"; "google"] None)
        ["mx1.example.com"] 80]) /\
  (0 <= stats_averageScore (_calculateStatistics
     [_getErrorResult "bad name" "Некорректный формат доменного имени";
      mkResult "example.com" None (mkDmarc warning "v=DMARC1; p=none" "none" None)
        (mkSpf ok "v=spf1 -all" None) (mkDkim ok ["default"; "google"] None)
        ["mx1.example.com"] 80]) <= 100)%Z.
Proof.
  assert (H : Forall scored
                [_getErrorResult "bad name" "Некорректный формат доменного имени";
                 mkResult "example.com" None
                   (mkDmarc warning "v=DMARC1; p=none" "none" None)
                   (mkSpf ok "v=spf1 -all" None) (mkDkim ok ["default"; "google"] None)
                   ["mx1.example.com"] 80])
    by (repeat constructor).
  split; [exact H |].
  exact (statistics_high_level _ H).
Defined.

(** ** What checks and scans leave alone *)

Lemma worker_step_settings (port : Port) (cb : bool) (total i : nat)
  (ps : Pool * State) :
  settings (fst (snd (worker_step port cb total i ps))) = settings (fst (snd ps)) /\
  (cacheEnabled (fst (snd ps)) = false ->
   cache (fst (snd (worker_step port cb total i ps))) = cache (fst (snd ps))).
Proof.
  destruct ps as [p st].
  apply (worker_step_cases port cb total
           (fun ps' => settings (fst (snd ps')) = settings (fst (snd (p, st))) /\
                       (cacheEnabled (fst (snd (p, st))) = false ->
                        cache (fst (snd ps')) = cache (fst (snd (p, st))))));
    intros; cbn [fst snd]; try (split; reflexivity).
  destruct (cacheEnabled (fst st)) eqn:E; split; try reflexivity; discriminate.
Qed.

Lemma scan_end_settings (port : Port) (domains : list string) (cb : bool)
  (schedule : list Event) (st : State) :
  settings (fst (snd (scan_end port domains cb schedule st))) = settings (fst st) /\
  (cacheEnabled (fst st) = false ->
   cache (fst (snd (scan_end port domains cb schedule st))) = cache (fst st)).
Proof.
  unfold scan_end.
  apply (run_workers_preserves port cb (scan_total domains)
           (fun ps => settings (fst (snd ps)) = settings (fst st) /\
                      (cacheEnabled (fst st) = false ->
                       cache (fst (snd ps)) = cache (fst st)))).
  - intros i ps [Hs Hc].
    destruct (worker_step_settings port cb (scan_total domains) i ps) as [Hs' Hc'].
    split; [congruence |]. intros Hoff. rewrite Hc'; [auto |].
    unfold settings in Hs. injection Hs as _ _ _ _ ->. exact Hoff.
  - intros p st0 H. exact H.
  - intros p st0 k H. exact H.
  - intros _ [p0 st0] H. unfold stopScan, bind, get_client, modify_client.
    cbn [fst snd]. destruct (negb (isScanning (fst st0))); exact H.
  - unfold scan_start. cbn [fst snd]. split; reflexivity.
Qed.

Lemma checkDomain_keeps_flags (port : Port) (v : JsValue) (st : State) :
  settings (fst (snd (checkDomain port v st))) = settings (fst st) /\
  isScanning (fst (snd (checkDomain port v st))) = isScanning (fst st) /\
  shouldStop (fst (snd (checkDomain port v st))) = shouldStop (fst st) /\
  activeScanTasks (fst (snd (checkDomain port v st))) = activeScanTasks (fst st).
Proof.
  rewrite checkDomain_by_parts, checkDomain_begin_run. cbn [fst].
  repeat match goal with
         | |- context [if ?b then _ else _] => destruct b eqn:?
         | |- context [match ?x with Some _ => _ | None => _ end] => destruct x
         end;
    try (repeat split; reflexivity);
    match goal with
    | |- context [checkDomain_finish ?port ?m ?n ?st] =>
        destruct (checkDomain_finish_run port m n st) as (r & w & _ & ->)
    end;
    cbn [fst snd]; destruct (cacheEnabled (fst st)); repeat split; reflexivity.
Qed.

Lemma checkDomains_keeps_settings (port : Port) (domains : list string) (cb : bool)
  (schedule : list Event) (st : State) :
  settings (fst (snd (checkDomains port domains cb schedule st))) = settings (fst st) /\
  isScanning (fst (snd (checkDomains port domains cb schedule st))) = isScanning (fst st) /\
  match checkDomains port domains cb schedule st with
  | (Resolved _, st') => isScanning (fst st') = false /\ activeScanTasks (fst st') = 0%nat
  | (Rejected _, st') => st' = st
  end.
Proof.
  destruct (isScanning (fst st)) eqn:Hscan;
    [unfold checkDomains; rewrite Hscan; auto |].
  destruct (length (validDomains domains) =? 0)%nat eqn:Hlen;
    [unfold checkDomains; rewrite Hscan, Hlen; auto |].
  assert (Hvalid : validDomains domains <> []).
  { intros E. rewrite E in Hlen. discriminate. }
  rewrite (checkDomains_scan_end port domains cb schedule st Hscan Hvalid).
  cbn [fst snd]. destruct (scan_end_settings port domains cb schedule st) as [Hs _].
  split; [exact Hs |]. repeat split.
Qed.

(** X28: checks and scans write none of the settings.  After
    [checkDomain], and after [checkDomains] whether it resolves or
    rejects, the delay, the number of concurrent requests, the key, the
    mode and the cache switch are what they were; [checkDomain] leaves
    the three scan flags alone as well.  A scan that is rejected leaves
    the whole state as it was; after one that resolves [getScanStatus]
    reports no scan and no active task, with the mode unchanged. *)
Theorem checks_keep_settings (port : Port) (v : JsValue) (domains : list string)
  (cb : bool) (schedule : list Event) (st : State) :
  let after_check := fst (snd (checkDomain port v st)) in
  let after_scan := fst (snd (checkDomains port domains cb schedule st)) in
  settings after_check = settings (fst st) /\
  isScanning after_check = isScanning (fst st) /\
  shouldStop after_check = shouldStop (fst st) /\
  activeScanTasks after_check = activeScanTasks (fst st) /\
  settings after_scan = settings (fst st) /\
  isScanning after_scan = isScanning (fst st) /\
  match checkDomains port domains cb schedule st with
  | (Resolved _, st') =>
      getScanStatus st' =
        (Resolved (mkScanStatus false (shouldStop (fst st')) 0 (mode (fst st))), st')
  | (Rejected _, st') => st' = st
  end.
Proof.
  cbv zeta.
  destruct (checkDomain_keeps_flags port v st) as (H1 & H2 & H3 & H4).
  destruct (checkDomains_keeps_settings port domains cb schedule st) as (H5 & H6 & H7).
  repeat split; try assumption.
  destruct (checkDomains port domains cb schedule st) as [[rs | msg] st'];
    [| exact H7].
  destruct H7 as [Hscan Htasks]. cbn [fst snd] in H5.
  unfold getScanStatus, bind, get_client, ret. cbn [fst snd].
  rewrite Hscan, Htasks. unfold settings in H5. injection H5 as _ _ _ -> _.
  reflexivity.
Qed.

Lemma run_call_settings (port : Port) (call : ApiCall) (st : State) :
  (In (mode (fst st)) availableModes ->
   In (mode (fst (run_call port call st))) availableModes) /\
  (delay (fst st) <> 0%Z -> delay (fst (run_call port call st)) <> 0%Z) /\
  (concurrentRequests (fst st) <> 0%Z ->
   concurrentRequests (fst (run_call port call st)) <> 0%Z) /\
  match call with
  | CallSetMode _ | CallSelectBestAvailableMode =>
      In (mode (fst (run_call port call st))) availableModes
  | _ => True
  end.
Proof.
  assert (Hsame : forall c : Client,
             settings c = settings (fst st) ->
             (In (mode (fst st)) availableModes -> In (mode c) availableModes) /\
             (delay (fst st) <> 0%Z -> delay c <> 0%Z) /\
             (concurrentRequests (fst st) <> 0%Z -> concurrentRequests c <> 0%Z)).
  { intros c Hc. unfold settings in Hc. injection Hc as -> -> _ -> _. auto. }
  destruct call; cbn [run_call].
  - destruct (checkDomain_keeps_flags port v st) as (Hs & _).
    destruct (Hsame _ Hs) as (? & ? & ?). auto.
  - destruct (checkDomains_keeps_settings port domains hasCallback schedule st)
      as (Hs & _).
    destruct (Hsame _ Hs) as (? & ? & ?). auto.
  - unfold setMode, bind, modify_client, ret. cbn [fst snd mode delay
      concurrentRequests set_mode].
    assert (Hin : In (if existsb (String.eqb mode0) availableModes
                      then mode0 else "simulation") availableModes).
    { destruct (existsb (String.eqb mode0) availableModes) eqn:E; [| simpl; auto 6].
      apply existsb_exists in E as (x & Hin & Hx). apply String.eqb_eq in Hx.
      subst x. exact Hin. }
    auto.
  - rewrite selectBestAvailableMode_run. cbv zeta. cbn [fst snd mode delay
      concurrentRequests set_mode].
    assert (Hin : In (match fst (port "example.com" TXT (snd st)) with
                      | Resolved (Some _) => "offline"
                      | _ => "simulation"
                      end) availableModes).
    { destruct (fst (port "example.com" TXT (snd st))) as [[records |] | msg];
        simpl; auto 6. }
    auto.
  - unfold stopScan, bind, get_client, modify_client, ret.
    destruct (negb (isScanning (fst st))); cbn; auto.
  - cbn. auto.
  - cbn. auto.
  - cbn. repeat split; auto. intros _.
    destruct delay0 as [d |]; [| discriminate].
    destruct (d =? 0)%Z eqn:E; [discriminate | apply Z.eqb_neq, E].
  - cbn. repeat split; auto. intros _.
    destruct count as [n |]; [| discriminate].
    destruct (n =? 0)%Z eqn:E; [discriminate | apply Z.eqb_neq, E].
Qed.

(** X2: the settings stay sound.  Once a mode was set through [setMode]
    or chosen by [selectBestAvailableMode], whatever the string that was
    given, the mode that [getMode] returns is one of [api], [web],
    [offline] and [simulation], after any further calls of the client;
    and the delay and the number of concurrent requests, once they are
    not zero (the constructor and the setters never store a zero), are
    never zero again.  The number of concurrent requests may be
    negative. *)
Theorem settings_stay_sound (port : Port) (calls : list ApiCall) (st : State) :
  (forall m, exists m',
      fst (getMode (run_calls port (CallSetMode m :: calls) st)) = Resolved m' /\
      In m' availableModes) /\
  (exists m',
      fst (getMode (run_calls port (CallSelectBestAvailableMode :: calls) st))
        = Resolved m' /\
      In m' availableModes) /\
  (delay (fst st) <> 0%Z -> delay (fst (run_calls port calls st)) <> 0%Z) /\
  (concurrentRequests (fst st) <> 0%Z ->
   concurrentRequests (fst (run_calls port calls st)) <> 0%Z) /\
  (forall n, delay (fst (run_calls port [CallSetDelay n] st)) <> 0%Z) /\
  (forall n, concurrentRequests
               (fst (run_calls port [CallSetConcurrentRequests n] st)) <> 0%Z) /\
  concurrentRequests
    (fst (run_calls port [CallSetConcurrentRequests (Some (-1)%Z)] st)) = (-1)%Z.
Proof.
  assert (Hkeep : forall calls0 st0,
             (In (mode (fst st0)) availableModes ->
              In (mode (fst (run_calls port calls0 st0))) availableModes) /\
             (delay (fst st0) <> 0%Z -> delay (fst (run_calls port calls0 st0)) <> 0%Z) /\
             (concurrentRequests (fst st0) <> 0%Z ->
              concurrentRequests (fst (run_calls port calls0 st0)) <> 0%Z)).
  { unfold run_calls. induction calls0 as [| call calls0 IH]; intros st0;
      cbn [fold_left]; [auto |].
    destruct (run_call_settings port call st0) as (Hm & Hd & Hc & _).
    destruct (IH (run_call port call st0)) as (Hm' & Hd' & Hc'). auto. }
  split; [| split; [| split; [| split; [| split; [| split]]]]].
  - intros m. eexists. split; [reflexivity |].
    change (run_calls port (CallSetMode m :: calls) st)
      with (run_calls port calls (run_call port (CallSetMode m) st)).
    apply Hkeep. apply (run_call_settings port (CallSetMode m) st).
  - eexists. split; [reflexivity |].
    change (run_calls port (CallSelectBestAvailableMode :: calls) st)
      with (run_calls port calls (run_call port CallSelectBestAvailableMode st)).
    apply Hkeep. apply (run_call_settings port CallSelectBestAvailableMode st).
  - apply Hkeep.
  - apply Hkeep.
  - intros [d |]; cbn; [| discriminate].
    destruct (d =? 0)%Z eqn:E; [discriminate | apply Z.eqb_neq, E].
  - intros [n |]; cbn; [| discriminate].
    destruct (n =? 0)%Z eqn:E; [discriminate | apply Z.eqb_neq, E].
  - reflexivity.
Qed.

(** X29: with the cache switched off, nothing is written to the cache:
    [checkDomain] leaves the whole client as it was, and a scan leaves
    the cache as it was, so the entries made before the switch are still
    there when the cache is switched on again. *)
Theorem disabled_cache_is_not_written (port : Port) (v : JsValue)
  (domains : list string) (cb : bool) (schedule : list Event) (st : State)
  (Hoff : cacheEnabled (fst st) = false) :
  fst (snd (checkDomain port v st)) = fst st /\
  cache (fst (snd (checkDomains port domains cb schedule st))) = cache (fst st).
Proof.
  split.
  - rewrite checkDomain_by_parts, checkDomain_begin_run. cbn [fst]. rewrite Hoff.
    repeat match goal with
           | |- context [if ?b then _ else _] => destruct b eqn:?
           end;
      try reflexivity.
    match goal with
    | |- context [checkDomain_finish ?port ?m ?n ?st] =>
        destruct (checkDomain_finish_run port m n st) as (r & w & _ & ->)
    end.
    rewrite Hoff. reflexivity.
  - destruct (isScanning (fst st)) eqn:Hscan;
      [unfold checkDomains; rewrite Hscan; reflexivity |].
    destruct (length (validDomains domains) =? 0)%nat eqn:Hlen;
      [unfold checkDomains; rewrite Hscan, Hlen; reflexivity |].
    assert (Hvalid : validDomains domains <> []).
    { intros E. rewrite E in Hlen. discriminate. }
    rewrite (checkDomains_scan_end port domains cb schedule st Hscan Hvalid).
    cbn [fst snd]. destruct (scan_end_settings port domains cb schedule st) as [_ Hc].
    exact (Hc Hoff).
Qed.

Lemma disabled_cache_is_not_written_witness :
  cacheEnabled (fst (snd (setCacheEnabled false (new_client, constant_world 0)))) = false /\
  fst (snd (checkDomain _dnsLookup (JsStr "example.com")
              (snd (setCacheEnabled false (new_client, constant_world 0)))))
    = fst (snd (setCacheEnabled false (new_client, constant_world 0))) /\
  cache (fst (snd (checkDomains _dnsLookup ["example.com"] false []
                     (snd (setCacheEnabled false (new_client, constant_world 0))))))
    = cache (fst (snd (setCacheEnabled false (new_client, constant_world 0)))).
Proof.
  assert (H : cacheEnabled (fst (snd (setCacheEnabled false
                                        (new_client, constant_world 0)))) = false)
    by reflexivity.
  split; [exact H |].
  exact (disabled_cache_is_not_written _dnsLookup (JsStr "example.com") ["example.com"]
           false [] (snd (setCacheEnabled false (new_client, constant_world 0))) H).
Defined.

(** ** The lookups of an offline scan *)

Lemma mode_strategy_offline_lookups (port : Port) (n : string) (st : State)
  (r : DomainCheckResult) (w : World) :
  keeps_lookup_count port ->
  mode_strategy port "offline" n st = (Resolved r, (fst st, w)) ->
  dnsCalls w = (dnsCalls (snd st) + 9)%nat.
Proof.
  intros Hport. unfold mode_strategy, bind, lift_world. cbn [fst snd].
  destruct (checkDomainOffline_run port n (fst st, count_strategy (snd st)))
    as (mx & dm & sp & dk & w' & E & Hn).
  cbn [fst snd] in *.
  assert (E1 : String.eqb "offline" "api" = false) by reflexivity.
  assert (E2 : String.eqb "offline" "web" = false) by reflexivity.
  assert (E3 : String.eqb "offline" "offline" = true) by reflexivity.
  rewrite E1, E2, E3, E. intros [= _ <-]. rewrite (Hn Hport). reflexivity.
Qed.

Lemma worker_step_counting (port : Port) (cb : bool) (total i n : nat)
  (ps : Pool * State) :
  keeps_lookup_count port -> counting n ps ->
  counting n (worker_step port cb total i ps).
Proof.
  intros Hport. destruct ps as [p st]. intros (Hm & Hoff & Hq & Hw & Hn).
  cbn [fst snd] in *.
  pose proof (fun x y => sum_insert checking (workers p) i x y) as Hins.
  apply (worker_step_cases port cb total (counting n)); unfold counting;
    cbn [fst snd set_worker set_queue report workers results domainQueue].
  - intros _. auto.
  - intros Hi _. specialize (Hins Ready Exited Hi). simpl in Hins.
    repeat split; try assumption; [apply Forall_insert; [exact Hw | exact I] | lia].
  - intros q _ _ E. rewrite E in Hq. inversion Hq as [| ? ? Hbad _].
    vm_compute in Hbad. discriminate.
  - intros d q Hi _ E _. rewrite E in Hq, Hn.
    pose proof (Forall_inv Hq) as Hd. pose proof (Forall_inv_tail Hq) as Hq'.
    cbv beta in Hd.
    destruct (valid_name_facts d Hd) as (_ & Hnorm & Hvn). rewrite Hnorm, Hvn, Hoff.
    cbn [negb].
    specialize (Hins Ready (Checking d (mode (fst st)) (toLowerCase d)) Hi).
    simpl in Hins. cbn [length] in Hn.
    repeat split; try assumption; [apply Forall_insert; [exact Hw | exact Hm] | lia].
  - intros d m k r w Hi Hrun.
    pose proof (Forall_lookup_1 _ _ _ _ Hw Hi) as Hoffline. cbn in Hoffline. subst m.
    pose proof (mode_strategy_offline_lookups port k st r w Hport Hrun) as Hcalls.
    specialize (Hins (Checking d "offline" k) (Settled d (Resolved r)) Hi).
    simpl in Hins. rewrite Hoff. cbn [fst snd].
    repeat split; try assumption; [apply Forall_insert; [exact Hw | exact I] | lia].
  - intros d r Hi. specialize (Hins (Settled d (Resolved r)) Sleeping Hi). simpl in Hins.
    repeat split; try assumption; [apply Forall_insert; [exact Hw | exact I] | lia].
  - intros d msg Hi. specialize (Hins (Settled d (Rejected msg)) Ready Hi).
    simpl in Hins.
    repeat split; try assumption; [apply Forall_insert; [exact Hw | exact I] | lia].
  - intros Hi. specialize (Hins Sleeping Ready Hi). simpl in Hins.
    repeat split; try assumption; [apply Forall_insert; [exact Hw | exact I] | lia].
Qed.

Lemma exited_none_checking (ws : list Phase) :
  first_live ws = None -> list_sum (map checking ws) = 0%nat.
Proof.
  rewrite first_live_None. induction 1 as [| ph ws Hph _ IH]; simpl; [reflexivity |].
  destruct ph; try discriminate. simpl. exact IH.
Qed.

(** X30: the lookups of a whole scan.  In [offline] mode with the cache
    switched off, a scan that nobody stops and that has at least one
    worker makes exactly nine lookups for each valid entry, under every
    interleaving of its workers and whether the lookups resolve or
    reject with an [Error], the entries that stand twice being looked
    up twice.  A rejection is an [Error] with its message, as
    [Rejected] has it; a lookup that rejects with a value that has no
    message, such as [null], is not covered. *)
Theorem offline_scan_lookups (port : Port) (domains : list string) (cb : bool)
  (schedule : list Event) (st : State)
  (Hport : keeps_lookup_count port)
  (Hscan : isScanning (fst st) = false)
  (Hvalid : validDomains domains <> [])
  (Hmode : mode (fst st) = "offline")
  (Hoff : cacheEnabled (fst st) = false)
  (Hstop : no_stop schedule)
  (Hworkers : (1 <= concurrentRequests (fst st))%Z) :
  dnsCalls (snd (snd (checkDomains port domains cb schedule st))) =
    (dnsCalls (snd st) + 9 * length (validDomains domains))%nat.
Proof.
  rewrite (checkDomains_scan_end port domains cb schedule st Hscan Hvalid). cbn [fst snd].
  assert (H : counting (dnsCalls (snd st) + 9 * length (validDomains domains))
                       (scan_end port domains cb schedule st)).
  { unfold scan_end. apply run_workers_preserves.
    - intros i ps. apply worker_step_counting, Hport.
    - intros p st0 (H1 & H2 & H3 & H4 & H5). cbn [fst snd] in *.
      repeat split; try assumption; cbn [fst snd add_worker workers domainQueue].
      + apply Forall_app. split; [exact H4 |]. constructor; [exact I | constructor].
      + rewrite map_app, list_sum_app. simpl. lia.
    - intros p st0 k H. exact H.
    - intros Hin. destruct (no_stop_not_in schedule Hstop Hin).
    - destruct (scan_start_parts domains cb st) as (_ & Hq & Hw).
      unfold counting. rewrite Hq, Hw. unfold scan_start. cbn [fst snd].
      repeat split; try assumption.
      + apply List.Forall_forall. apply validDomains_valid.
      + constructor.
      + simpl. lia. }
  destruct H as (_ & _ & _ & _ & Hn).
  rewrite (scan_end_queue_empty port domains cb schedule st Hstop Hvalid Hworkers) in Hn.
  rewrite (exited_none_checking _ (scan_end_all_exited port domains cb schedule st)) in Hn.
  simpl in Hn. lia.
Qed.

Lemma offline_scan_lookups_witness :
  keeps_lookup_count failing_port /\
  isScanning (fst (set_cacheEnabled false (set_mode "offline" new_client),
                   constant_world 0)) = false /\
  validDomains ["example.com"; "bad name"; "Example.ORG"; "example.com"] <> [] /\
  mode (fst (set_cacheEnabled false (set_mode "offline" new_client),
             constant_world 0)) = "offline" /\
  cacheEnabled (fst (set_cacheEnabled false (set_mode "offline" new_client),
                     constant_world 0)) = false /\
  no_stop [Tick 2; Tick 0] /\
  (1 <= concurrentRequests (fst (set_cacheEnabled false (set_mode "offline" new_client),
                                 constant_world 0)))%Z /\
  dnsCalls (snd (snd (checkDomains failing_port
                        ["example.com"; "bad name"; "Example.ORG"; "example.com"]
                        false [Tick 2; Tick 0]
                        (set_cacheEnabled false (set_mode "offline" new_client),
                         constant_world 0)))) =
    (dnsCalls (snd (set_cacheEnabled false (set_mode "offline" new_client),
                    constant_world 0))
     + 9 * length (validDomains
                     ["example.com"; "bad name"; "Example.ORG"; "example.com"]))%nat.
Proof.
  assert (H1 : keeps_lookup_count failing_port) by (intros name type w; reflexivity).
  assert (H2 : isScanning (fst (set_cacheEnabled false (set_mode "offline" new_client),
                                constant_world 0)) = false) by reflexivity.
  assert (H3 : validDomains ["example.com"; "bad name"; "Example.ORG"; "example.com"]
               <> []) by (vm_compute; discriminate).
  assert (H4 : mode (fst (set_cacheEnabled false (set_mode "offline" new_client),
                          constant_world 0)) = "offline") by reflexivity.
  assert (H5 : cacheEnabled (fst (set_cacheEnabled false (set_mode "offline" new_client),
                                  constant_world 0)) = false) by reflexivity.
  assert (H6 : no_stop [Tick 2; Tick 0]) by (repeat constructor; discriminate).
  assert (H7 : (1 <= concurrentRequests
                       (fst (set_cacheEnabled false (set_mode "offline" new_client),
                             constant_world 0)))%Z) by (simpl; lia).
  split; [exact H1 |]. split; [exact H2 |]. split; [exact H3 |]. split; [exact H4 |].
  split; [exact H5 |]. split; [exact H6 |]. split; [exact H7 |].
  exact (offline_scan_lookups failing_port
           ["example.com"; "bad name"; "Example.ORG"; "example.com"] false [Tick 2; Tick 0]
           (set_cacheEnabled false (set_mode "offline" new_client), constant_world 0)
           H1 H2 H3 H4 H5 H6 H7).
Defined.
